(** * Magic-link passwordless authentication: a model of [src/index.js]

    The server is an Express application with six routes and one periodic
    task.  Every handler is an [async] function whose only interaction with
    the outside world goes through the Prisma client (the user table), the
    system clock, the random source, the SMTP transport and the JWT library.

    The development embeds
    - the JavaScript helpers the handlers rely on (truthiness,
      [String.prototype.includes], hex encoding of a buffer),
    - the user table and the Prisma queries the handlers issue,
    - the handlers themselves, written as programs over a small effect
      signature so that each [await] of the source is one constructor,
    - a sequential interpreter ([run]) and an interleaving one ([interleave])
      whose atomic steps are the segments between two [await]s.

    Console output is not modelled, and the database is assumed to answer
    every query.  Request fields are strings or absent, as the clients of
    the API send them.  The clock is part of the world: it is read where
    the source reads it and does not move while one handler runs
    uninterrupted; between handlers it may be set to any value. *)

From Stdlib Require Import List String Ascii ZArith NArith Bool Lia Arith.
From Stdlib.Strings Require Import Byte.
Import ListNotations.

Local Open Scope string_scope.
Local Open Scope list_scope.

(* ================================================================== *)
(** ** JavaScript helpers *)
(* ================================================================== *)

Module Js.

(** [!!s] for a string: the empty string is the only falsy one. *)
Definition truthy_string (s : string) : bool := negb (s =? "").

(** [!!v] for a value that is a string or [undefined]. *)
Definition truthy (v : option string) : bool :=
  match v with
  | Some s => truthy_string s
  | None => false
  end.

(** [a || b] on such values. *)
Definition or (a b : option string) : option string :=
  if truthy a then a else b.

(** [s.includes(sub)]: [sub] occurs in [s] at some position. *)
Fixpoint includes (s sub : string) : bool :=
  match s with
  | EmptyString => String.prefix sub EmptyString
  | String _ rest => String.prefix sub s || includes rest sub
  end.

Definition hex_digit (n : N) : ascii :=
  match String.get (N.to_nat n) "0123456789abcdef" with
  | Some c => c
  | None => "0"%char
  end.

Definition hex_of_byte (b : byte) : string :=
  let n := Byte.to_N b in
  String (hex_digit (n / 16)) (String (hex_digit (n mod 16)) EmptyString).

(** [buffer.toString("hex")]. *)
Fixpoint toString_hex (buf : list byte) : string :=
  match buf with
  | [] => EmptyString
  | b :: rest => hex_of_byte b ++ toString_hex rest
  end.

(** The line feed of a template literal. *)
Definition LF : string := String (ascii_of_nat 10) EmptyString.

End Js.

(* ================================================================== *)
(** ** The user table *)
(* ================================================================== *)

(** Modelled from the spec: the Prisma schema ([prisma/schema.prisma]) is not
    part of the sources.  The spec's data model gives a user a unique id, a
    unique email, an optional display name, a [verified] flag, a creation
    timestamp and the embedded token triple; the remaining field names are
    the ones the handlers write.  Timestamps are milliseconds since the
    epoch. *)
Module user.
Record t : Type := mk {
  id : nat;
  email : string;
  name : option string;
  verified : bool;
  magicLinkToken : option string;
  magicLinkExpires : option Z;
  magicLinkUsed : bool;
  createdAt : Z
}.
End user.
Abbreviation User := user.t.

(** The [data] argument of [update] and [updateMany]: a field left out of
    the object literal is [None], a field set to [null] is [Some None]. *)
Record UserData : Type := mkData {
  data_name : option (option string);
  data_verified : option bool;
  data_magicLinkToken : option (option string);
  data_magicLinkExpires : option (option Z);
  data_magicLinkUsed : option bool
}.

(** The [data] argument of [create]. *)
Record NewUser : Type := mkNew {
  new_email : string;
  new_name : option string;
  new_magicLinkToken : option string;
  new_magicLinkExpires : option Z;
  new_magicLinkUsed : bool
}.

(** A [where] clause on a unique column. *)
Inductive UniqueWhere : Type :=
| ByEmail (e : string)
| ById (i : nat).

Definition Table : Type := list User.

Definition set_field {A : Type} (new : option A) (old : A) : A :=
  match new with
  | Some v => v
  | None => old
  end.

Definition apply_data (d : UserData) (u : User) : User :=
  {| user.id := user.id u;
     user.email := user.email u;
     user.name := set_field (data_name d) (user.name u);
     user.verified := set_field (data_verified d) (user.verified u);
     user.magicLinkToken := set_field (data_magicLinkToken d) (user.magicLinkToken u);
     user.magicLinkExpires := set_field (data_magicLinkExpires d) (user.magicLinkExpires u);
     user.magicLinkUsed := set_field (data_magicLinkUsed d) (user.magicLinkUsed u);
     user.createdAt := user.createdAt u |}.

Definition selects (w : UniqueWhere) (u : User) : bool :=
  match w with
  | ByEmail e => user.email u =? e
  | ById i => Nat.eqb (user.id u) i
  end.

(** [prisma.user.findUnique({ where })]. *)
Definition findUnique (w : UniqueWhere) (tbl : Table) : option User :=
  find (selects w) tbl.

(** [prisma.user.findFirst({ where })]: the first row, in table order, that
    satisfies the filter. *)
Definition findFirst (filter : User -> bool) (tbl : Table) : option User :=
  find filter tbl.

(** [prisma.user.update({ where, data })]: rewrites the row selected by the
    unique column and returns it; [None] when there is no such row (Prisma
    raises "record to update not found"). *)
Fixpoint update (w : UniqueWhere) (d : UserData) (tbl : Table)
  : option (User * Table) :=
  match tbl with
  | [] => None
  | u :: rest =>
      if selects w u then Some (apply_data d u, apply_data d u :: rest)
      else match update w d rest with
           | Some (u', rest') => Some (u', u :: rest')
           | None => None
           end
  end.

(** [prisma.user.updateMany({ where, data })]: rewrites every row that
    satisfies the filter and returns how many there were. *)
Definition updateMany (filter : User -> bool) (d : UserData) (tbl : Table)
  : nat * Table :=
  (List.length (List.filter filter tbl),
   map (fun u => if filter u then apply_data d u else u) tbl).

Definition fresh_id (tbl : Table) : nat :=
  S (list_max (map user.id tbl)).

(** [prisma.user.create({ data })]: appends a row with a new id, the
    column defaults ([verified] false, [createdAt] now) and the given
    fields; [None] when the email is taken (unique constraint). *)
Definition create (n : NewUser) (now : Z) (tbl : Table) : option (User * Table) :=
  match findUnique (ByEmail (new_email n)) tbl with
  | Some _ => None
  | None =>
      let u := {| user.id := fresh_id tbl;
                  user.email := new_email n;
                  user.name := new_name n;
                  user.verified := false;
                  user.magicLinkToken := new_magicLinkToken n;
                  user.magicLinkExpires := new_magicLinkExpires n;
                  user.magicLinkUsed := new_magicLinkUsed n;
                  user.createdAt := now |} in
      Some (u, tbl ++ [u])
  end.

(* ================================================================== *)
(** ** Session credentials *)
(* ================================================================== *)

(** The [jsonwebtoken] package is an external library.  A signed token is
    modelled by its claims together with the key that signed it; any other
    cookie value is [Garbage].  Claim times are in seconds. *)
Module jwt.

Record Claims : Type := mkClaims {
  userId : nat;
  email : string;
  verified : bool;
  iat : Z;
  exp : Z
}.

Inductive Credential : Type :=
| Garbage (raw : string)
| Signed (c : Claims) (key : string).

Definition seconds (now_ms : Z) : Z := (now_ms / 1000)%Z.

(** ["7d"]. *)
Definition seven_days : Z := (7 * 24 * 60 * 60)%Z.

(** [jwt.sign({ userId, email, verified }, secret, { expiresIn: "7d" })]
    evaluated when the clock shows [now_ms]. *)
Definition sign (uid : nat) (mail : string) (v : bool) (secret : string)
           (now_ms : Z) : Credential :=
  Signed {| userId := uid; email := mail; verified := v;
            iat := seconds now_ms;
            exp := (seconds now_ms + seven_days)%Z |} secret.

(** [jwt.verify(token, secret)]: the claims, or [None] where the library
    throws (malformed token, wrong signature, [exp] reached). *)
Definition verify (c : Credential) (secret : string) (now_ms : Z)
  : option Claims :=
  match c with
  | Garbage _ => None
  | Signed cl key =>
      if (key =? secret) && (seconds now_ms <? exp cl)%Z then Some cl
      else None
  end.

(** [!!token] for a cookie value. *)
Definition truthy (c : Credential) : bool :=
  match c with
  | Garbage raw => Js.truthy_string raw
  | Signed _ _ => true
  end.

End jwt.

(* ================================================================== *)
(** ** Effects *)
(* ================================================================== *)

(** [process.env], assumed to be configured: the secret and the base URL are
    present. *)
Record ProcessEnv : Type := mkEnv {
  API_BASE_URL : string;
  JWT_SECRET : string;
  EMAIL_USER : option string;
  EMAIL_FROM : option string;
  NODE_ENV : option string
}.

(** [mailOptions]. *)
Record Mail : Type := mkMail {
  mail_from : option string;
  mail_to : string;
  mail_subject : string;
  mail_text : string
}.

(** A handler body: what the code does up to its next interaction with the
    world, and how it goes on from the answer.  [Throw] is a raised
    exception.  The constructors from [FindUnique] on are the calls the
    source [await]s. *)
Inductive Prog (A : Type) : Type :=
| Ret (a : A)
| Throw (msg : string)
| DateNow (k : Z -> Prog A)
| RandomBytes (n : nat) (k : list byte -> Prog A)
| FindUnique (w : UniqueWhere) (k : option User -> Prog A)
| FindFirst (filter : User -> bool) (k : option User -> Prog A)
| Update (w : UniqueWhere) (d : UserData) (k : option User -> Prog A)
| UpdateMany (filter : User -> bool) (d : UserData) (k : nat -> Prog A)
| Create (n : NewUser) (k : option User -> Prog A)
| SendMail (m : Mail) (k : bool -> Prog A).

Arguments Ret {A} a.
Arguments Throw {A} msg.
Arguments DateNow {A} k.
Arguments RandomBytes {A} n k.
Arguments FindUnique {A} w k.
Arguments FindFirst {A} filter k.
Arguments Update {A} w d k.
Arguments UpdateMany {A} filter d k.
Arguments Create {A} n k.
Arguments SendMail {A} m k.

(** Sequencing: [await p; f(result)]. *)
Fixpoint bind {A B : Type} (p : Prog A) (f : A -> Prog B) : Prog B :=
  match p with
  | Ret a => f a
  | Throw msg => Throw msg
  | DateNow k => DateNow (fun t => bind (k t) f)
  | RandomBytes n k => RandomBytes n (fun b => bind (k b) f)
  | FindUnique w k => FindUnique w (fun r => bind (k r) f)
  | FindFirst flt k => FindFirst flt (fun r => bind (k r) f)
  | Update w d k => Update w d (fun r => bind (k r) f)
  | UpdateMany flt d k => UpdateMany flt d (fun c => bind (k c) f)
  | Create n k => Create n (fun r => bind (k r) f)
  | SendMail m k => SendMail m (fun ok => bind (k ok) f)
  end.

(** [try { p } catch (error) { h(error) }]. *)
Fixpoint try_catch {A : Type} (p : Prog A) (h : string -> Prog A) : Prog A :=
  match p with
  | Ret a => Ret a
  | Throw msg => h msg
  | DateNow k => DateNow (fun t => try_catch (k t) h)
  | RandomBytes n k => RandomBytes n (fun b => try_catch (k b) h)
  | FindUnique w k => FindUnique w (fun r => try_catch (k r) h)
  | FindFirst flt k => FindFirst flt (fun r => try_catch (k r) h)
  | Update w d k => Update w d (fun r => try_catch (k r) h)
  | UpdateMany flt d k => UpdateMany flt d (fun c => try_catch (k c) h)
  | Create n k => Create n (fun r => try_catch (k r) h)
  | SendMail m k => SendMail m (fun ok => try_catch (k ok) h)
  end.

(** [await prisma.user.update(...)] and [await prisma.user.create(...)]
    raise when the database rejects the write. *)
Definition prisma_update {A : Type} (w : UniqueWhere) (d : UserData)
           (k : User -> Prog A) : Prog A :=
  Update w d (fun r => match r with
                       | Some u => k u
                       | None => Throw "Record to update not found"
                       end).

Definition prisma_create {A : Type} (n : NewUser) (k : User -> Prog A) : Prog A :=
  Create n (fun r => match r with
                     | Some u => k u
                     | None => Throw "Unique constraint failed"
                     end).

(** What an observer of the process sees, in order. *)
Inductive Event : Type :=
| EvFindUnique (w : UniqueWhere) (found : option User)
| EvFindFirst (found : option User)
| EvUpdate (w : UniqueWhere) (d : UserData) (row : option User)
| EvUpdateMany (d : UserData) (count : nat)
| EvCreate (n : NewUser) (row : option User)
| EvSendMail (m : Mail) (delivered : bool).

(** The world a handler runs in: the table, the clock (milliseconds), the
    random source with the number of bytes drawn so far, and whether the
    SMTP server accepts mail. *)
Record World : Type := mkWorld {
  table : Table;
  clock : Z;
  rng : nat -> byte;
  rng_pos : nat;
  smtp_up : bool
}.

Definition with_table (w : World) (tbl : Table) : World :=
  {| table := tbl; clock := clock w; rng := rng w; rng_pos := rng_pos w;
     smtp_up := smtp_up w |}.

Definition with_clock (w : World) (t : Z) : World :=
  {| table := table w; clock := t; rng := rng w; rng_pos := rng_pos w;
     smtp_up := smtp_up w |}.

Definition with_smtp (w : World) (up : bool) : World :=
  {| table := table w; clock := clock w; rng := rng w; rng_pos := rng_pos w;
     smtp_up := up |}.

(** [crypto.randomBytes(n)]: the next [n] bytes of the source. *)
Definition draw (w : World) (n : nat) : list byte :=
  map (rng w) (seq (rng_pos w) n).

Definition drawn (w : World) (n : nat) : World :=
  {| table := table w; clock := clock w; rng := rng w;
     rng_pos := rng_pos w + n; smtp_up := smtp_up w |}.

Inductive Outcome (A : Type) : Type :=
| Returned (a : A)
| Thrown (msg : string).
Arguments Returned {A} a.
Arguments Thrown {A} msg.

Definition Run (A : Type) : Type := (World * list Event * Outcome A)%type.

Definition emit {A : Type} (e : Event) (r : Run A) : Run A :=
  let '(w, tr, o) := r in (w, e :: tr, o).

Definition final {A : Type} (r : Run A) : World := fst (fst r).
Definition trace {A : Type} (r : Run A) : list Event := snd (fst r).
Definition outcome {A : Type} (r : Run A) : Outcome A := snd r.

(** A handler run from start to end with nothing else scheduled in
    between. *)
Fixpoint run {A : Type} (w : World) (p : Prog A) : Run A :=
  match p with
  | Ret a => (w, [], Returned a)
  | Throw msg => (w, [], Thrown msg)
  | DateNow k => run w (k (clock w))
  | RandomBytes n k => run (drawn w n) (k (draw w n))
  | FindUnique wh k =>
      let r := findUnique wh (table w) in
      emit (EvFindUnique wh r) (run w (k r))
  | FindFirst flt k =>
      let r := findFirst flt (table w) in
      emit (EvFindFirst r) (run w (k r))
  | Update wh d k =>
      match update wh d (table w) with
      | Some (u, tbl) => emit (EvUpdate wh d (Some u)) (run (with_table w tbl) (k (Some u)))
      | None => emit (EvUpdate wh d None) (run w (k None))
      end
  | UpdateMany flt d k =>
      let '(count, tbl) := updateMany flt d (table w) in
      emit (EvUpdateMany d count) (run (with_table w tbl) (k count))
  | Create n k =>
      match create n (clock w) (table w) with
      | Some (u, tbl) => emit (EvCreate n (Some u)) (run (with_table w tbl) (k (Some u)))
      | None => emit (EvCreate n None) (run w (k None))
      end
  | SendMail m k =>
      emit (EvSendMail m (smtp_up w)) (run w (k (smtp_up w)))
  end.

(* ================================================================== *)
(** ** Responses *)
(* ================================================================== *)

Inductive Payload : Type :=
| Account (email : string) (name : option string)
| Profile (id : nat) (email : string) (name : option string) (verified : bool)
          (createdAt : option Z).

Record Cookie : Type := mkCookie {
  cookie_name : string;
  cookie_value : jwt.Credential;
  httpOnly : bool;
  secure : bool;
  sameSite : string;
  maxAge : Z
}.

Module res.
Record t : Type := mk {
  status : nat;
  success : bool;
  message : string;
  data : option Payload;
  cookie : option Cookie;
  clearCookie : option string
}.
End res.
Abbreviation Response := res.t.

(** [res.status(code).json({ success, message, data })]; a reply without
    a [message] has the empty one. *)
Definition json (code : nat) (ok : bool) (msg : string) (d : option Payload)
  : Response :=
  {| res.status := code; res.success := ok; res.message := msg; res.data := d;
     res.cookie := None; res.clearCookie := None |}.

Definition with_cookie (c : Cookie) (r : Response) : Response :=
  {| res.status := res.status r; res.success := res.success r;
     res.message := res.message r; res.data := res.data r;
     res.cookie := Some c; res.clearCookie := res.clearCookie r |}.

Definition InvalidInput_email : Response :=
  json 400 false "Valid email is required" None.
Definition InvalidInput_token : Response :=
  json 400 false "Verification token is required" None.
Definition AlreadyExists : Response :=
  json 409 false "Account already exists and verified" None.
Definition NotFound_verified : Response :=
  json 404 false "No verified account found with this email" None.
Definition NotFound_account : Response :=
  json 404 false "No account found with this email" None.
Definition AlreadyVerified : Response :=
  json 400 false "Account is already verified" None.
Definition InvalidOrExpiredToken : Response :=
  json 400 false "Invalid or expired verification link" None.
Definition Unauthenticated_missing : Response :=
  json 401 false "Authentication required" None.
Definition Unauthenticated_unknown : Response :=
  json 401 false "User not found" None.
Definition Unauthenticated_invalid : Response :=
  json 401 false "Invalid token" None.

(* ================================================================== *)
(** ** The handlers *)
(* ================================================================== *)

(** A request as the router hands it to a handler: the fields the handler
    reads from [req.body], [req.query] and [req.cookies], each either a
    string or absent. *)
Inductive Request : Type :=
| PostSignup (email name : option string)
| PostLogin (email : option string)
| GetVerify (token : option string)
| PostResend (email : option string)
| PostLogout
| GetMe (auth_token : option jwt.Credential).

(** [15 * 60 * 1000] *)
Definition fifteen_minutes : Z := (15 * 60 * 1000)%Z.

(** [where: { magicLinkToken: token, magicLinkUsed: false,
              magicLinkExpires: { gt: now } }] *)
Definition active_token (token : string) (now : Z) (u : User) : bool :=
  match user.magicLinkToken u with
  | Some t => t =? token
  | None => false
  end
  && Bool.eqb (user.magicLinkUsed u) false
  && match user.magicLinkExpires u with
     | Some e => (now <? e)%Z
     | None => false
     end.

(** [where: { magicLinkExpires: { lt: now }, magicLinkToken: { not: null } }] *)
Definition expired_token (now : Z) (u : User) : bool :=
  match user.magicLinkExpires u with
  | Some e => (e <? now)%Z
  | None => false
  end
  && match user.magicLinkToken u with
     | Some _ => true
     | None => false
     end.

(** [data: { magicLinkToken: token, magicLinkExpires: expiresAt,
             magicLinkUsed: false }] with an optional [name]. *)
Definition issue_data (name : option (option string)) (token : string)
           (expiresAt : Z) : UserData :=
  {| data_name := name;
     data_verified := None;
     data_magicLinkToken := Some (Some token);
     data_magicLinkExpires := Some (Some expiresAt);
     data_magicLinkUsed := Some false |}.

(** [data: { verified: true, magicLinkToken: null, magicLinkExpires: null,
             magicLinkUsed: true }] *)
Definition consume_data : UserData :=
  {| data_name := None;
     data_verified := Some true;
     data_magicLinkToken := Some None;
     data_magicLinkExpires := Some None;
     data_magicLinkUsed := Some true |}.

(** [data: { magicLinkToken: null, magicLinkExpires: null,
             magicLinkUsed: false }] *)
Definition cleanup_data : UserData :=
  {| data_name := None;
     data_verified := None;
     data_magicLinkToken := Some None;
     data_magicLinkExpires := Some None;
     data_magicLinkUsed := Some false |}.

Section Handlers.

Variable env : ProcessEnv.

Definition magicLinkUrl (token : string) : string :=
  API_BASE_URL env ++ "/verify?token=" ++ token.

Definition mailOptions (email : string) (name : option string) (url : string)
  : Mail :=
  {| mail_from := Js.or (EMAIL_FROM env) (EMAIL_USER env);
     mail_to := email;
     mail_subject := "Your Login Link";
     mail_text :=
       "Hi" ++ match name with
               | Some n => if Js.truthy_string n then " " ++ n else ""
               | None => ""
               end ++ "!" ++ Js.LF ++ Js.LF
       ++ "Click this link to log in: " ++ url ++ Js.LF ++ Js.LF
       ++ "This link expires in 15 minutes." ++ Js.LF ++ Js.LF
       ++ "If you didn't request this, please ignore this email." |}.

Definition sendMagicLinkEmail (email : string) (name : option string)
           (url : string) : Prog unit :=
  SendMail (mailOptions email name url)
    (fun delivered =>
       if delivered then Ret tt else Throw "Failed to send email").

(** [POST /api/auth/signup] *)
Definition signup (email name : option string) : Prog Response :=
  try_catch
    (match email with
     | None => Ret InvalidInput_email
     | Some email =>
       if negb (Js.truthy_string email) || negb (Js.includes email "@")
       then Ret InvalidInput_email
       else
         FindUnique (ByEmail email) (fun usr =>
         if match usr with Some u => user.verified u | None => false end
         then Ret AlreadyExists
         else
           RandomBytes 32 (fun buf =>
           let token := Js.toString_hex buf in
           DateNow (fun now =>
           let expiresAt := (now + fifteen_minutes)%Z in
           let persist (k : User -> Prog Response) :=
             match usr with
             | Some u =>
                 prisma_update (ByEmail email)
                   (issue_data (Some (Js.or name (user.name u))) token expiresAt) k
             | None =>
                 prisma_create
                   {| new_email := email;
                      new_name := name;
                      new_magicLinkToken := Some token;
                      new_magicLinkExpires := Some expiresAt;
                      new_magicLinkUsed := false |} k
             end in
           persist (fun usr' =>
           bind (sendMagicLinkEmail email name (magicLinkUrl token)) (fun _ =>
           Ret (json 200 true
                  "Verification link sent to your email! Check your inbox."
                  (Some (Account (user.email usr') (user.name usr')))))))))
     end)
    (fun _ => Ret (json 500 false "Failed to create account. Please try again." None)).

(** [POST /api/auth/login] *)
Definition login (email : option string) : Prog Response :=
  try_catch
    (match email with
     | None => Ret InvalidInput_email
     | Some email =>
       if negb (Js.truthy_string email) || negb (Js.includes email "@")
       then Ret InvalidInput_email
       else
         FindUnique (ByEmail email) (fun usr =>
         match usr with
         | None => Ret NotFound_verified
         | Some u =>
           if negb (user.verified u) then Ret NotFound_verified
           else
             RandomBytes 32 (fun buf =>
             let token := Js.toString_hex buf in
             DateNow (fun now =>
             let expiresAt := (now + fifteen_minutes)%Z in
             prisma_update (ByEmail email) (issue_data None token expiresAt) (fun _ =>
             bind (sendMagicLinkEmail email (user.name u) (magicLinkUrl token)) (fun _ =>
             Ret (json 200 true
                    "Login link sent to your email! Check your inbox."
                    (Some (Account (user.email u) (user.name u))))))))
         end)
     end)
    (fun _ => Ret (json 500 false "Failed to send login link. Please try again." None)).

(** [GET /api/auth/verify] *)
Definition verify (token : option string) : Prog Response :=
  try_catch
    (match token with
     | None => Ret InvalidInput_token
     | Some token =>
       if negb (Js.truthy_string token) then Ret InvalidInput_token
       else
         DateNow (fun now =>
         FindFirst (active_token token now) (fun usr =>
         match usr with
         | None => Ret InvalidOrExpiredToken
         | Some u =>
           prisma_update (ById (user.id u)) consume_data (fun updatedUser =>
           DateNow (fun issued =>
           let jwtToken :=
             jwt.sign (user.id u) (user.email u) true (JWT_SECRET env) issued in
           Ret (with_cookie
                  {| cookie_name := "auth_token";
                     cookie_value := jwtToken;
                     httpOnly := true;
                     secure := match NODE_ENV env with
                               | Some v => v =? "production"
                               | None => false
                               end;
                     sameSite := "strict";
                     maxAge := (7 * 24 * 60 * 60 * 1000)%Z |}
                  (json 200 true "Successfully authenticated! Welcome back!"
                     (Some (Profile (user.id updatedUser) (user.email updatedUser)
                              (user.name updatedUser) (user.verified updatedUser)
                              None))))))
         end))
     end)
    (fun _ => Ret (json 500 false "Verification failed. Please try again." None)).

(** [POST /api/auth/resend-verification] *)
Definition resend (email : option string) : Prog Response :=
  try_catch
    (match email with
     | None => Ret InvalidInput_email
     | Some email =>
       if negb (Js.truthy_string email) || negb (Js.includes email "@")
       then Ret InvalidInput_email
       else
         FindUnique (ByEmail email) (fun usr =>
         match usr with
         | None => Ret NotFound_account
         | Some u =>
           if user.verified u then Ret AlreadyVerified
           else
             RandomBytes 32 (fun buf =>
             let token := Js.toString_hex buf in
             DateNow (fun now =>
             let expiresAt := (now + fifteen_minutes)%Z in
             prisma_update (ByEmail email) (issue_data None token expiresAt) (fun _ =>
             bind (sendMagicLinkEmail email (user.name u) (magicLinkUrl token)) (fun _ =>
             Ret (json 200 true "New verification link sent to your email!"
                    (Some (Account (user.email u) (user.name u))))))))
         end)
     end)
    (fun _ => Ret (json 500 false "Failed to send verification link. Please try again." None)).

(** [POST /api/auth/logout] *)
Definition logout : Prog Response :=
  Ret {| res.status := 200; res.success := true;
         res.message := "Successfully logged out"; res.data := None;
         res.cookie := None; res.clearCookie := Some "auth_token" |}.

(** [GET /api/me] *)
Definition me (auth_token : option jwt.Credential) : Prog Response :=
  try_catch
    (match auth_token with
     | None => Ret Unauthenticated_missing
     | Some token =>
       if negb (jwt.truthy token) then Ret Unauthenticated_missing
       else
         DateNow (fun now =>
         match jwt.verify token (JWT_SECRET env) now with
         | None => Throw "JsonWebTokenError"
         | Some decoded =>
           FindUnique (ById (jwt.userId decoded)) (fun usr =>
           match usr with
           | None => Ret Unauthenticated_unknown
           | Some u =>
             Ret (json 200 true ""
                    (Some (Profile (user.id u) (user.email u) (user.name u)
                             (user.verified u) (Some (user.createdAt u)))))
           end)
         end)
     end)
    (fun _ => Ret Unauthenticated_invalid).

(** [cleanupExpiredTokens], run by [setInterval] every hour. *)
Definition cleanupExpiredTokens : Prog unit :=
  try_catch
    (DateNow (fun now =>
     UpdateMany (expired_token now) cleanup_data (fun count => Ret tt)))
    (fun _ => Ret tt).

Definition handle (r : Request) : Prog Response :=
  match r with
  | PostSignup email name => signup email name
  | PostLogin email => login email
  | GetVerify token => verify token
  | PostResend email => resend email
  | PostLogout => logout
  | GetMe auth_token => me auth_token
  end.

End Handlers.

(* ================================================================== *)
(** ** Histories and interleavings *)
(* ================================================================== *)

(** What can happen to the server, one thing after the other: a request is
    served to completion, the hourly sweep runs, the clock moves, the SMTP
    server goes up or down. *)
Inductive Action : Type :=
| Http (r : Request)
| Reaper
| Tick (t : Z)
| Smtp (up : bool).

Definition act (env : ProcessEnv) (w : World) (a : Action) : World :=
  match a with
  | Http r => final (run w (handle env r))
  | Reaper => final (run w cleanupExpiredTokens)
  | Tick t => with_clock w t
  | Smtp up => with_smtp w up
  end.

Definition history (env : ProcessEnv) (w : World) (l : list Action) : World :=
  fold_left (act env) l w.

(** The response a request gets when it is served alone. *)
Definition respond (env : ProcessEnv) (w : World) (r : Request)
  : Outcome Response :=
  outcome (run w (handle env r)).

(** Node runs the synchronous code of a handler without interruption and
    suspends it at each [await].  [settle] runs a handler up to its next
    awaited call, [perform] lets that call happen, and [resume] does both:
    one atomic turn of the event loop for this handler. *)
Fixpoint settle {A : Type} (w : World) (p : Prog A) : World * Prog A :=
  match p with
  | DateNow k => settle w (k (clock w))
  | RandomBytes n k => settle (drawn w n) (k (draw w n))
  | _ => (w, p)
  end.

Definition perform {A : Type} (w : World) (p : Prog A)
  : World * list Event * Prog A :=
  match p with
  | FindUnique wh k =>
      let r := findUnique wh (table w) in (w, [EvFindUnique wh r], k r)
  | FindFirst flt k =>
      let r := findFirst flt (table w) in (w, [EvFindFirst r], k r)
  | Update wh d k =>
      match update wh d (table w) with
      | Some (u, tbl) => (with_table w tbl, [EvUpdate wh d (Some u)], k (Some u))
      | None => (w, [EvUpdate wh d None], k None)
      end
  | UpdateMany flt d k =>
      let '(count, tbl) := updateMany flt d (table w) in
      (with_table w tbl, [EvUpdateMany d count], k count)
  | Create n k =>
      match create n (clock w) (table w) with
      | Some (u, tbl) => (with_table w tbl, [EvCreate n (Some u)], k (Some u))
      | None => (w, [EvCreate n None], k None)
      end
  | SendMail m k => (w, [EvSendMail m (smtp_up w)], k (smtp_up w))
  | _ => (w, [], p)
  end.

Definition resume {A : Type} (w : World) (p : Prog A)
  : World * list Event * Prog A :=
  let '(w1, evs, p1) := perform w p in
  let '(w2, p2) := settle w1 p1 in
  (w2, evs, p2).

(** The server with its requests in flight. *)
Record Server : Type := mkServer {
  world : World;
  pool : list (Prog Response)
}.

Inductive Turn : Type :=
| Arrive (r : Request)
| Resume (i : nat).

Fixpoint replace_nth {A : Type} (i : nat) (x : A) (l : list A) : list A :=
  match l, i with
  | [], _ => []
  | _ :: rest, O => x :: rest
  | y :: rest, S j => y :: replace_nth j x rest
  end.

Definition turn (env : ProcessEnv) (s : Server) (t : Turn) : Server :=
  match t with
  | Arrive r =>
      let '(w, p) := settle (world s) (handle env r) in
      {| world := w; pool := pool s ++ [p] |}
  | Resume i =>
      match nth_error (pool s) i with
      | Some p =>
          let '(w, _, p') := resume (world s) p in
          {| world := w; pool := replace_nth i p' (pool s) |}
      | None => s
      end
  end.

Definition interleave (env : ProcessEnv) (s : Server) (l : list Turn) : Server :=
  fold_left (turn env) l s.

(** The response request number [i] has received, if it has finished. *)
Definition response_of (s : Server) (i : nat) : option Response :=
  match nth_error (pool s) i with
  | Some (Ret r) => Some r
  | _ => None
  end.

(* ================================================================== *)
(** ** Table invariants *)
(* ================================================================== *)

(** The primary key. *)
Definition ids_unique (tbl : Table) : Prop := NoDup (map user.id tbl).

(** Every stored email went through the check of [signup]. *)
Definition emails_valid (tbl : Table) : Prop :=
  Forall (fun u => Js.includes (user.email u) "@" = true) tbl.

(** Row [u] stores token [t]. *)
Definition stores (t : string) (u : User) : bool :=
  match user.magicLinkToken u with
  | Some t' => t' =? t
  | None => false
  end.

(** How many rows store token [t]. *)
Definition holders (t : string) (tbl : Table) : nat :=
  List.length (List.filter (stores t) tbl).

(* ================================================================== *)
(** ** Vocabulary of the statements *)
(* ================================================================== *)

(** The three operations that issue a magic link. *)
Inductive Issuance : Type :=
| Signup (name : option string)
| Login
| Resend.

Definition request_of (k : Issuance) (email : option string) : Request :=
  match k with
  | Signup name => PostSignup email name
  | Login => PostLogin email
  | Resend => PostResend email
  end.

(** The account states in which the operation goes on to issue a link:
    the guards after the lookup in each handler. *)
Definition eligible (k : Issuance) (found : option User) : bool :=
  match k, found with
  | Signup _, Some u => negb (user.verified u)
  | Signup _, None => true
  | Login, Some u => user.verified u
  | Resend, Some u => negb (user.verified u)
  | _, None => false
  end.

(** The response to a lookup that is not eligible for the operation. *)
Definition rejection (k : Issuance) (found : option User) : Response :=
  match k, found with
  | Signup _, _ => AlreadyExists
  | Login, _ => NotFound_verified
  | Resend, None => NotFound_account
  | Resend, Some _ => AlreadyVerified
  end.

(** The token the next call of [crypto.randomBytes(32).toString("hex")]
    returns, and the expiry computed from the clock. *)
Definition next_token (w : World) : string := Js.toString_hex (draw w 32).
Definition next_expiry (w : World) : Z := (clock w + fifteen_minutes)%Z.

(** The write an issuance performs in world [w] for address [e]: its event,
    the stored row and the table afterwards. *)
Inductive Persisted (w : World) (e : string) (tbl' : Table) (u' : User)
  : Event -> Prop :=
| Persisted_update (name : option (option string)) (u : User) :
    findUnique (ByEmail e) (table w) = Some u ->
    update (ByEmail e) (issue_data name (next_token w) (next_expiry w)) (table w)
    = Some (u', tbl') ->
    Persisted w e tbl' u'
      (EvUpdate (ByEmail e) (issue_data name (next_token w) (next_expiry w)) (Some u'))
| Persisted_create (name : option string) :
    findUnique (ByEmail e) (table w) = None ->
    create {| new_email := e; new_name := name;
              new_magicLinkToken := Some (next_token w);
              new_magicLinkExpires := Some (next_expiry w);
              new_magicLinkUsed := false |} (clock w) (table w)
    = Some (u', tbl') ->
    Persisted w e tbl' u'
      (EvCreate {| new_email := e; new_name := name;
                   new_magicLinkToken := Some (next_token w);
                   new_magicLinkExpires := Some (next_expiry w);
                   new_magicLinkUsed := false |} (Some u')).

Definition valid_email (e : string) : bool :=
  Js.truthy_string e && Js.includes e "@".

(** The cookie [res.cookie("auth_token", jwtToken, {...})] sets for user
    [u] when the clock shows [now]. *)
Definition session_cookie (env : ProcessEnv) (u : User) (now : Z) : Cookie :=
  {| cookie_name := "auth_token";
     cookie_value := jwt.sign (user.id u) (user.email u) true (JWT_SECRET env) now;
     httpOnly := true;
     secure := match NODE_ENV env with
               | Some v => v =? "production"
               | None => false
               end;
     sameSite := "strict";
     maxAge := (7 * 24 * 60 * 60 * 1000)%Z |}.

(** No row stores token [t]. *)
Definition unheld (t : string) (tbl : Table) : Prop :=
  Forall (fun u => user.magicLinkToken u <> Some t) tbl.

(** The random source never produces token [t] from its current position
    on. *)
Definition never_drawn (t : string) (w : World) : Prop :=
  forall pos, rng_pos w <= pos ->
              Js.toString_hex (map (rng w) (seq pos 32)) <> t.

(** Some row stores [t], unused, with an expiry after [now]. *)
Definition token_valid (t : string) (now : Z) (tbl : Table) : Prop :=
  exists u, In u tbl /\
            user.magicLinkToken u = Some t /\
            user.magicLinkUsed u = false /\
            exists e, user.magicLinkExpires u = Some e /\ (now < e)%Z.

(* ================================================================== *)
(** ** Sample data *)
(* ================================================================== *)

(** A small configuration and a few rows on which the statements below are
    exercised. *)
Module Sample.

Definition env : ProcessEnv :=
  {| API_BASE_URL := "http://localhost:5000";
     JWT_SECRET := "secret";
     EMAIL_USER := Some "noreply@example.com";
     EMAIL_FROM := None;
     NODE_ENV := None |}.

(** A random source that only produces zero bytes: every token it yields
    is sixty-four zeros. *)
Definition zeros (n : nat) : byte := x00.

(** A random source whose blocks of thirty-two bytes are filled with the
    number of the block. *)
Definition counting (n : nat) : byte :=
  match Byte.of_nat ((n / 32) mod 256) with
  | Some b => b
  | None => x00
  end.

(** An unverified account with a pending link that expires at 900000. *)
Definition alice : User :=
  {| user.id := 1; user.email := "alice@example.com"; user.name := Some "Alice";
     user.verified := false; user.magicLinkToken := Some "abc";
     user.magicLinkExpires := Some 900000%Z; user.magicLinkUsed := false;
     user.createdAt := 0%Z |}.

(** A verified account without a pending link. *)
Definition bob : User :=
  {| user.id := 2; user.email := "bob@example.com"; user.name := None;
     user.verified := true; user.magicLinkToken := None;
     user.magicLinkExpires := None; user.magicLinkUsed := true;
     user.createdAt := 5%Z |}.

(** An account whose row has no token but still an expiry in the past. *)
Definition carol : User :=
  {| user.id := 3; user.email := "carol@example.com"; user.name := None;
     user.verified := false; user.magicLinkToken := None;
     user.magicLinkExpires := Some 10%Z; user.magicLinkUsed := true;
     user.createdAt := 7%Z |}.

Definition world : World :=
  {| table := [alice; bob; carol]; clock := 1000%Z; rng := zeros;
     rng_pos := 0; smtp_up := true |}.

(** A server that has just been set up. *)
Definition empty : World :=
  {| table := []; clock := 1000%Z; rng := counting; rng_pos := 0;
     smtp_up := true |}.

(** The same world with the mail server down. *)
Definition offline : World := with_smtp world false.

(** A credential for Bob, signed at time 1000 with the server's secret. *)
Definition bob_session : jwt.Credential :=
  jwt.sign 2 "bob@example.com" true "secret" 1000.

End Sample.

(* ================================================================== *)
(** ** Two verifications in flight *)
(* ================================================================== *)

(** A verification suspended at its write for user [u]: whenever it is
    resumed and the row is still there, it rewrites it and answers 200
    with a cookie. *)
Definition Accepting (u : User) (p : Prog Response) : Prop :=
  forall (w : World) (u' : User) (tbl' : Table),
    update (ById (user.id u)) consume_data (table w) = Some (u', tbl') ->
    exists resp,
      resume w p
      = (with_table w tbl',
         [EvUpdate (ById (user.id u)) consume_data (Some u')], Ret resp)
      /\ res.status resp = 200 /\ res.success resp = true
      /\ res.cookie resp <> None.

(** A verification of [t] suspended at its lookup, which it prepared when
    the clock showed [now]. *)
Definition Looking (t : string) (now : Z) (p : Prog Response) : Prop :=
  forall w : World,
    match findFirst (active_token t now) (table w) with
    | None => resume w p = (w, [EvFindFirst None], Ret InvalidOrExpiredToken)
    | Some u =>
        exists p', resume w p = (w, [EvFindFirst (Some u)], p') /\ Accepting u p'
    end.

(** Each of the two handlers is resumed exactly twice. *)
Definition complete (sched : list nat) : Prop :=
  count_occ Nat.eq_dec sched 0 = 2 /\ count_occ Nat.eq_dec sched 1 = 2 /\
  List.length sched = 4.

(** Two requests presenting [t] arrive in world [w] and are then resumed
    in the order [sched]. *)
Definition two_verifications (env : ProcessEnv) (w : World) (t : string)
           (sched : list nat) : Server :=
  interleave env {| world := w; pool := [] |}
    (Arrive (GetVerify (Some t)) :: Arrive (GetVerify (Some t))
     :: map Resume sched).

(** Exactly one of the two requests was accepted and the other one was
    told [InvalidOrExpiredToken]. *)
Definition exactly_one_accepted (s : Server) : Prop :=
  exists r0 r1,
    response_of s 0 = Some r0 /\ response_of s 1 = Some r1 /\
    ((res.status r0 = 200 /\ r1 = InvalidOrExpiredToken) \/
     (r0 = InvalidOrExpiredToken /\ res.status r1 = 200)).

(** Both requests were accepted. *)
Definition both_accepted (s : Server) : Prop :=
  exists r0 r1,
    response_of s 0 = Some r0 /\ response_of s 1 = Some r1 /\
    res.status r0 = 200 /\ res.status r1 = 200.

(** [evs] in front of the trace of [r]. *)
Definition after {A : Type} (evs : list Event) (r : Run A) : Run A :=
  (final r, evs ++ trace r, outcome r).

(** The events that change the table, and the row a single-row write
    stored. *)
Definition is_write (e : Event) : bool :=
  match e with
  | EvUpdate _ _ _ | EvCreate _ _ | EvUpdateMany _ _ => true
  | _ => false
  end.

Definition written_row (e : Event) : option User :=
  match e with
  | EvUpdate _ _ row | EvCreate _ row => row
  | _ => None
  end.

(** Row [u] is due for the sweep at time [now]: its expiry is strictly in
    the past and its token is not null. *)
Definition swept (now : Z) (u : User) : Prop :=
  (exists e, user.magicLinkExpires u = Some e /\ (e < now)%Z) /\
  user.magicLinkToken u <> None.

(** Row [u] with its token triple reset by the sweep. *)
Definition cleared (u : User) : User :=
  {| user.id := user.id u; user.email := user.email u; user.name := user.name u;
     user.verified := user.verified u; user.magicLinkToken := None;
     user.magicLinkExpires := None; user.magicLinkUsed := false;
     user.createdAt := user.createdAt u |}.

(* ================================================================== *)
(** ** Further vocabulary *)
(* ================================================================== *)

(** The status codes the handlers use. *)
Definition status_codes : list nat := [200; 400; 401; 404; 409; 500].

(** A mail was handed to the transport. *)
Definition is_mail (e : Event) : bool :=
  match e with
  | EvSendMail _ _ => true
  | _ => false
  end.

(** Every character of [s] is one of [0-9a-f]. *)
Fixpoint all_hex (s : string) : bool :=
  match s with
  | EmptyString => true
  | String c rest =>
      existsb (Ascii.eqb c) (list_ascii_of_string "0123456789abcdef")
      && all_hex rest
  end.

(** The address column is a unique key. *)
Definition emails_unique (tbl : Table) : Prop := NoDup (map user.email tbl).

(** The token triple of a row is in one of the states the handlers write:
    a row marked used carries no token, and token and expiry are null
    together. *)
Definition triple_consistent (u : User) : Prop :=
  (user.magicLinkUsed u = true -> user.magicLinkToken u = None) /\
  (user.magicLinkToken u = None <-> user.magicLinkExpires u = None).

(** Row [u'] is row [u] at a later time: same id, address and creation
    time, and still verified if it was. *)
Definition same_account (u u' : User) : Prop :=
  user.id u' = user.id u /\ user.email u' = user.email u /\
  user.createdAt u' = user.createdAt u /\
  (user.verified u = true -> user.verified u' = true /\ user.name u' = user.name u).

(** Table [tbl'] is table [tbl] at a later time: every row is still there,
    at its place, as the same account; rows may have been appended. *)
Definition grows (tbl tbl' : Table) : Prop :=
  exists kept added, tbl' = kept ++ added /\ Forall2 same_account tbl kept.

(** The [name] an issuance writes into an existing row [u]: signup writes
    [name || user.name], login and resend leave the column out. *)
Definition name_patch (k : Issuance) (u : User) : option (option string) :=
  match k with
  | Signup name => Some (Js.or name (user.name u))
  | Login | Resend => None
  end.

(** The row an issuance stores for address [e], given what the lookup
    found. *)
Definition issued_row (k : Issuance) (w : World) (e : string)
           (found : option User) : User :=
  match found with
  | Some u =>
      apply_data (issue_data (name_patch k u) (next_token w) (next_expiry w)) u
  | None =>
      {| user.id := fresh_id (table w);
         user.email := e;
         user.name := match k with Signup name => name | _ => None end;
         user.verified := false;
         user.magicLinkToken := Some (next_token w);
         user.magicLinkExpires := Some (next_expiry w);
         user.magicLinkUsed := false;
         user.createdAt := clock w |}
  end.

(** The table after an issuance for address [e]. *)
Definition issued_table (k : Issuance) (w : World) (e : string)
           (found : option User) : Table :=
  match found with
  | Some u =>
      match update (ByEmail e)
                   (issue_data (name_patch k u) (next_token w) (next_expiry w))
                   (table w) with
      | Some (_, tbl') => tbl'
      | None => table w
      end
  | None => table w ++ [issued_row k w e None]
  end.

(** The write event of an issuance. *)
Definition issue_event (k : Issuance) (w : World) (e : string)
           (found : option User) : Event :=
  match found with
  | Some u =>
      EvUpdate (ByEmail e)
        (issue_data (name_patch k u) (next_token w) (next_expiry w))
        (Some (issued_row k w e found))
  | None =>
      EvCreate {| new_email := e;
                  new_name := match k with Signup name => name | _ => None end;
                  new_magicLinkToken := Some (next_token w);
                  new_magicLinkExpires := Some (next_expiry w);
                  new_magicLinkUsed := false |}
               (Some (issued_row k w e found))
  end.

(** The name the mail greets: the one of the request for a signup, the
    stored one for login and resend. *)
Definition mail_name (k : Issuance) (found : option User) : option string :=
  match k with
  | Signup name => name
  | Login | Resend =>
      match found with
      | Some u => user.name u
      | None => None
      end
  end.

(** The two replies of an issuance that got as far as the mail. *)
Definition issued_reply (k : Issuance) (row : User) : Response :=
  json 200 true
    match k with
    | Signup _ => "Verification link sent to your email! Check your inbox."
    | Login => "Login link sent to your email! Check your inbox."
    | Resend => "New verification link sent to your email!"
    end
    (Some (Account (user.email row) (user.name row))).

Definition mail_failed_reply (k : Issuance) : Response :=
  json 500 false
    match k with
    | Signup _ => "Failed to create account. Please try again."
    | Login => "Failed to send login link. Please try again."
    | Resend => "Failed to send verification link. Please try again."
    end
    None.

(** The value of a hexadecimal digit and the byte two digits stand for;
    used to read tokens back. *)
Definition hex_value (c : ascii) : N :=
  match String.index 0 (String c EmptyString) "0123456789abcdef" with
  | Some i => N.of_nat i
  | None => 0%N
  end.

Definition byte_of_hex (s : string) : option byte :=
  match s with
  | String a (String b _) => Byte.of_N (16 * hex_value a + hex_value b)
  | _ => None
  end.

(** What the sweep run at time [now] does to a row. *)
Definition sweep_row (now : Z) (u : User) : User :=
  if expired_token now u then apply_data cleanup_data u else u.

(** The tokens a table stores, row by row. *)
Definition stored_tokens (tbl : Table) : list string :=
  flat_map (fun u => match user.magicLinkToken u with
                     | Some t => [t]
                     | None => []
                     end) tbl.

(** The token made of the [i]-th block of thirty-two bytes of the random
    source, and a source whose first [n] blocks make [n] different
    tokens. *)
Definition block (w : World) (i : nat) : string :=
  Js.toString_hex (map (rng w) (seq (32 * i) 32)).

Definition first_blocks_differ (w : World) (n : nat) : Prop :=
  forall i j, i < n -> j < n -> block w i = block w j -> i = j.

(** [n] blocks have been drawn so far, and the stored tokens are distinct
    ones among them. *)
Definition blocks_drawn (w : World) (n : nat) : Prop :=
  rng_pos w = 32 * n /\
  NoDup (stored_tokens (table w)) /\
  Forall (fun t => exists i, i < n /\ t = block w i) (stored_tokens (table w)).

(* ================================================================== *)
(** ** Facts about the JavaScript helpers *)
(* ================================================================== *)

Lemma prefix_single (c : ascii) (s : string) :
  String.prefix (String c EmptyString) s = true <->
  exists rest, s = String c rest.
Proof.
  destruct s as [|a s]; simpl.
  - split; [discriminate | intros [rest H]; discriminate].
  - destruct (ascii_dec c a) as [->|Hne].
    + split; [intros _; eauto | intros _].
      destruct s; reflexivity.
    + split; [discriminate | intros [rest H]; congruence].
Qed.

(** [s.includes(c)] for a one-character [c] says that [c] is one of the
    characters of [s]. *)
Lemma includes_single (c : ascii) (s : string) :
  Js.includes s (String c EmptyString) = true <->
  In c (list_ascii_of_string s).
Proof.
  induction s as [|a s IH].
  - simpl. split; [discriminate | tauto].
  - change (Js.includes (String a s) (String c EmptyString))
      with (String.prefix (String c EmptyString) (String a s)
            || Js.includes s (String c EmptyString)).
    rewrite orb_true_iff, IH, prefix_single. simpl.
    split.
    + intros [[rest H] | H]; [left; congruence | right; exact H].
    + intros [H | H]; [left; exists s; congruence | right; exact H].
Qed.

Lemma includes_nonempty (s sub : string) :
  Js.truthy_string sub = true -> Js.includes s sub = true ->
  Js.truthy_string s = true.
Proof.
  destruct s; [|reflexivity].
  destruct sub; simpl; discriminate.
Qed.

Lemma truthy_string_iff (s : string) :
  Js.truthy_string s = true <-> s <> "".
Proof.
  unfold Js.truthy_string. rewrite negb_true_iff. apply String.eqb_neq.
Qed.

Lemma hex_of_byte_length (b : byte) : String.length (Js.hex_of_byte b) = 2.
Proof. reflexivity. Qed.

Lemma string_length_app (a b : string) :
  String.length (a ++ b) = String.length a + String.length b.
Proof. induction a; simpl; congruence. Qed.

(** A buffer of [n] bytes is written as [2 * n] hexadecimal digits. *)
Lemma toString_hex_length (buf : list byte) :
  String.length (Js.toString_hex buf) = 2 * List.length buf.
Proof.
  induction buf as [|b buf IH]; [reflexivity|].
  cbn [Js.toString_hex List.length].
  rewrite string_length_app, hex_of_byte_length, IH. lia.
Qed.

Lemma draw_length (w : World) (n : nat) : List.length (draw w n) = n.
Proof. unfold draw. now rewrite length_map, length_seq. Qed.

(** Every generated token has 64 characters, so it is truthy. *)
Lemma token_truthy (w : World) :
  Js.truthy_string (Js.toString_hex (draw w 32)) = true.
Proof.
  apply truthy_string_iff. intros H.
  apply (f_equal String.length) in H.
  rewrite toString_hex_length, draw_length in H. discriminate.
Qed.

(* ================================================================== *)
(** ** Facts about the queries *)
(* ================================================================== *)

Lemma selects_apply_data (w : UniqueWhere) (d : UserData) (u : User) :
  selects w (apply_data d u) = selects w u.
Proof. destruct w; reflexivity. Qed.

(** The shape of a successful [update]: the first selected row is
    rewritten in place. *)
Lemma update_shape (w : UniqueWhere) (d : UserData) (tbl tbl' : Table) (u' : User) :
  update w d tbl = Some (u', tbl') ->
  exists l1 u l2,
    tbl = l1 ++ u :: l2 /\ tbl' = l1 ++ apply_data d u :: l2 /\
    u' = apply_data d u /\ selects w u = true /\
    Forall (fun v => selects w v = false) l1.
Proof.
  revert tbl' u'. induction tbl as [|v rest IH]; intros tbl' u' H.
  - discriminate.
  - cbn [update] in H. destruct (selects w v) eqn:Hv.
    + inversion H; subst. exists [], v, rest. repeat split; auto.
    + destruct (update w d rest) as [[u1 rest1]|] eqn:Hr; [|discriminate].
      inversion H; subst.
      destruct (IH _ _ eq_refl) as (l1 & u & l2 & -> & -> & -> & Hs & Hl).
      exists (v :: l1), u, l2. repeat split; auto.
Qed.

Lemma update_found (w : UniqueWhere) (d : UserData) (tbl : Table) (u : User) :
  findUnique w tbl = Some u ->
  exists tbl', update w d tbl = Some (apply_data d u, tbl').
Proof.
  unfold findUnique. induction tbl as [|v rest IH]; intros H.
  - discriminate.
  - cbn [find update] in *. destruct (selects w v).
    + inversion H; subst. eauto.
    + destruct (IH H) as [tbl' ->]. eauto.
Qed.

Lemma update_missing (w : UniqueWhere) (d : UserData) (tbl : Table) :
  findUnique w tbl = None -> update w d tbl = None.
Proof.
  unfold findUnique. induction tbl as [|v rest IH]; intros H; [reflexivity|].
  cbn [find update] in *. destruct (selects w v); [discriminate|].
  now rewrite (IH H).
Qed.

Lemma update_finds (w : UniqueWhere) (d : UserData) (tbl tbl' : Table) (u' : User) :
  update w d tbl = Some (u', tbl') ->
  exists u, findUnique w tbl = Some u /\ u' = apply_data d u /\
            findUnique w tbl' = Some u'.
Proof.
  unfold findUnique. revert tbl' u'.
  induction tbl as [|v rest IH]; intros tbl' u' H; [discriminate|].
  cbn [update find] in *. destruct (selects w v) eqn:Hv.
  - inversion H; subst. exists v. cbn [find].
    now rewrite selects_apply_data, Hv.
  - destruct (update w d rest) as [[u1 rest1]|] eqn:Hr; [|discriminate].
    inversion H; subst. destruct (IH _ _ eq_refl) as (u & Hf & -> & Hf').
    exists u. cbn [find]. now rewrite Hv.
Qed.

Lemma update_ids (w : UniqueWhere) (d : UserData) (tbl tbl' : Table) (u' : User) :
  update w d tbl = Some (u', tbl') -> map user.id tbl' = map user.id tbl.
Proof.
  intros H. destruct (update_shape _ _ _ _ _ H) as (l1 & u & l2 & -> & -> & _).
  now rewrite !map_app.
Qed.

Lemma update_Forall (P : User -> Prop) (w : UniqueWhere) (d : UserData)
      (tbl tbl' : Table) (u' : User) :
  (forall u, P u -> P (apply_data d u)) ->
  update w d tbl = Some (u', tbl') -> Forall P tbl -> Forall P tbl'.
Proof.
  intros HP H. destruct (update_shape _ _ _ _ _ H) as (l1 & u & l2 & -> & -> & _).
  rewrite !Forall_app. intros [H1 H2]. split; [exact H1|].
  inversion H2; subst. constructor; auto.
Qed.

(** With a primary key, [update] by id rewrites the row with that id and no
    other. *)
Lemma update_by_id (i : nat) (d : UserData) (tbl tbl' : Table) (u' : User) :
  ids_unique tbl ->
  update (ById i) d tbl = Some (u', tbl') ->
  tbl' = map (fun v => if Nat.eqb (user.id v) i then apply_data d v else v) tbl.
Proof.
  unfold ids_unique. revert tbl' u'.
  induction tbl as [|v rest IH]; intros tbl' u' Hnd H; [discriminate|].
  cbn [update selects map] in *. inversion Hnd as [|? ? Hnotin Hnd']; subst.
  destruct (Nat.eqb (user.id v) i) eqn:Hv.
  - inversion H; subst. f_equal.
    apply Nat.eqb_eq in Hv. subst i.
    clear -Hnotin. induction rest as [|x rest IH]; [reflexivity|].
    cbn [map] in *. destruct (Nat.eqb (user.id x) (user.id v)) eqn:E.
    + apply Nat.eqb_eq in E. exfalso. apply Hnotin. left. exact E.
    + f_equal. apply IH. intros Hin. apply Hnotin. right. exact Hin.
  - destruct (update (ById i) d rest) as [[u1 rest1]|] eqn:Hr; [|discriminate].
    inversion H; subst. f_equal. eapply IH; eauto.
Qed.

Lemma updateMany_table (flt : User -> bool) (d : UserData) (tbl : Table) :
  snd (updateMany flt d tbl)
  = map (fun u => if flt u then apply_data d u else u) tbl.
Proof. reflexivity. Qed.

Lemma updateMany_ids (flt : User -> bool) (d : UserData) (tbl : Table) :
  map user.id (snd (updateMany flt d tbl)) = map user.id tbl.
Proof.
  rewrite updateMany_table, map_map. apply map_ext.
  intros u. now destruct (flt u).
Qed.

Lemma updateMany_Forall (P : User -> Prop) (flt : User -> bool) (d : UserData)
      (tbl : Table) :
  (forall u, P u -> P (apply_data d u)) ->
  Forall P tbl -> Forall P (snd (updateMany flt d tbl)).
Proof.
  intros HP H. rewrite updateMany_table. apply Forall_map.
  eapply Forall_impl; [|exact H]. intros u Hu. destruct (flt u); auto.
Qed.

Lemma list_max_ge (l : list nat) (x : nat) : In x l -> x <= list_max l.
Proof.
  induction l as [|y l IH]; intros H; [contradiction|].
  cbn [list_max fold_right]. destruct H as [->|H]; [lia|].
  specialize (IH H). unfold list_max in IH. lia.
Qed.

Lemma fresh_id_fresh (tbl : Table) : ~ In (fresh_id tbl) (map user.id tbl).
Proof.
  unfold fresh_id. intros H. apply list_max_ge in H. lia.
Qed.

Lemma create_shape (n : NewUser) (now : Z) (tbl tbl' : Table) (u : User) :
  create n now tbl = Some (u, tbl') ->
  tbl' = tbl ++ [u] /\ user.id u = fresh_id tbl /\ user.email u = new_email n /\
  user.name u = new_name n /\ user.verified u = false /\
  user.magicLinkToken u = new_magicLinkToken n /\
  user.magicLinkExpires u = new_magicLinkExpires n /\
  user.magicLinkUsed u = new_magicLinkUsed n /\ user.createdAt u = now /\
  findUnique (ByEmail (new_email n)) tbl = None.
Proof.
  unfold create. destruct (findUnique (ByEmail (new_email n)) tbl) eqn:E;
    [discriminate|].
  intros H. inversion H; subst. cbn. repeat split; reflexivity.
Qed.

Lemma create_absent (n : NewUser) (now : Z) (tbl : Table) :
  findUnique (ByEmail (new_email n)) tbl = None ->
  exists u, create n now tbl = Some (u, tbl ++ [u]).
Proof. unfold create. intros ->. eauto. Qed.

Lemma NoDup_snoc (l : list nat) (x : nat) :
  NoDup l -> ~ In x l -> NoDup (l ++ [x]).
Proof.
  induction l as [|y l IH]; intros Hnd Hx; cbn [app].
  - constructor; [tauto | constructor].
  - inversion Hnd; subst. constructor.
    + rewrite in_app_iff. cbn [In]. intros [H | [H | []]]; [tauto|].
      apply Hx. left. now symmetry.
    + apply IH; [assumption|]. intros H. apply Hx. now right.
Qed.

Lemma create_ids_unique (n : NewUser) (now : Z) (tbl tbl' : Table) (u : User) :
  create n now tbl = Some (u, tbl') -> ids_unique tbl -> ids_unique tbl'.
Proof.
  intros H Hnd. destruct (create_shape _ _ _ _ _ H) as (-> & Hid & _).
  unfold ids_unique in *. rewrite map_app. cbn [map].
  apply NoDup_snoc; [exact Hnd|]. rewrite Hid. apply fresh_id_fresh.
Qed.

Lemma findFirst_Some (flt : User -> bool) (tbl : Table) (u : User) :
  findFirst flt tbl = Some u -> In u tbl /\ flt u = true.
Proof. apply find_some. Qed.

Lemma findFirst_None (flt : User -> bool) (tbl : Table) :
  findFirst flt tbl = None <-> forall u, In u tbl -> flt u = false.
Proof.
  split; [apply find_none|].
  intros H. unfold findFirst. destruct (find flt tbl) eqn:E; [|reflexivity].
  apply find_some in E. destruct E as [Hin Hf]. rewrite (H _ Hin) in Hf.
  discriminate.
Qed.

Lemma findUnique_Some (w : UniqueWhere) (tbl : Table) (u : User) :
  findUnique w tbl = Some u -> In u tbl /\ selects w u = true.
Proof. apply find_some. Qed.

(* ================================================================== *)
(** ** Running the handlers *)
(* ================================================================== *)

Lemma valid_email_guard (e : string) :
  negb (Js.truthy_string e) || negb (Js.includes e "@") = negb (valid_email e).
Proof. unfold valid_email. now rewrite negb_andb. Qed.

Lemma includes_valid (e : string) :
  Js.includes e "@" = true -> valid_email e = true.
Proof.
  intros H. unfold valid_email. rewrite H, andb_true_r.
  now apply includes_nonempty with (sub := "@").
Qed.

Ltac exec :=
  cbn [run try_catch bind emit prisma_update prisma_create sendMagicLinkEmail
       handle request_of table clock smtp_up drawn with_table negb].

(** A missing or malformed address is refused before anything else
    happens. *)
Lemma run_issuance_invalid (env : ProcessEnv) (w : World) (k : Issuance)
      (email : option string) :
  match email with Some e => valid_email e | None => false end = false ->
  run w (handle env (request_of k email)) = (w, [], Returned InvalidInput_email).
Proof.
  intros H. destruct email as [e|].
  - destruct k; cbn [handle request_of]; unfold signup, login, resend;
      rewrite valid_email_guard, H; reflexivity.
  - destruct k; reflexivity.
Qed.

(** A valid address whose account is not eligible for the operation: one
    lookup, the matching refusal, nothing written. *)
Lemma run_issuance_rejected (env : ProcessEnv) (w : World) (k : Issuance)
      (e : string) :
  valid_email e = true ->
  eligible k (findUnique (ByEmail e) (table w)) = false ->
  run w (handle env (request_of k (Some e)))
  = (w, [EvFindUnique (ByEmail e) (findUnique (ByEmail e) (table w))],
     Returned (rejection k (findUnique (ByEmail e) (table w)))).
Proof.
  intros Hv Ha.
  destruct k; cbn [handle request_of]; unfold signup, login, resend;
    rewrite valid_email_guard, Hv; exec;
    destruct (findUnique (ByEmail e) (table w)) as [u|]; cbn [eligible] in Ha;
    try discriminate; try reflexivity.
  - apply negb_false_iff in Ha. rewrite Ha. reflexivity.
  - rewrite Ha. reflexivity.
  - apply negb_false_iff in Ha. rewrite Ha. reflexivity.
Qed.

(** A valid address whose account is eligible for the operation: one lookup, one
    write, one mail, in this order, and the reply depends on the mail
    alone. *)
Lemma run_issuance_issued (env : ProcessEnv) (w : World) (k : Issuance)
      (e : string) :
  valid_email e = true ->
  eligible k (findUnique (ByEmail e) (table w)) = true ->
  exists (ev : Event) (u' : User) (tbl' : Table) (nm : option string)
         (ok failed : Response),
    run w (handle env (request_of k (Some e)))
    = (with_table (drawn w 32) tbl',
       [EvFindUnique (ByEmail e) (findUnique (ByEmail e) (table w)); ev;
        EvSendMail (mailOptions env e nm (magicLinkUrl env (next_token w)))
                   (smtp_up w)],
       Returned (if smtp_up w then ok else failed))
    /\ Persisted w e tbl' u' ev
    /\ res.status ok = 200 /\ res.success ok = true
    /\ res.data ok = Some (Account (user.email u') (user.name u'))
    /\ res.status failed = 500 /\ res.success failed = false.
Proof.
  intros Hv Ha.
  destruct k as [name| |]; cbn [handle request_of]; unfold signup, login, resend;
    rewrite valid_email_guard, Hv; exec;
    destruct (findUnique (ByEmail e) (table w)) as [u|] eqn:Hf;
    cbn [eligible] in Ha; try discriminate.
  - (* signup, unverified account *)
    apply negb_true_iff in Ha. rewrite Ha.
    destruct (update_found (ByEmail e)
                (issue_data (Some (Js.or name (user.name u))) (next_token w)
                   (next_expiry w)) _ _ Hf) as [tbl' Hu].
    exec. fold (next_token w). fold (next_expiry w). rewrite Hu. exec.
    eexists _, _, tbl', name, _, _. split.
    + destruct (smtp_up w); reflexivity.
    + split; [eapply Persisted_update; eauto|]. cbn. repeat split.
  - (* signup, new account *)
    destruct (create_absent
                {| new_email := e; new_name := name;
                   new_magicLinkToken := Some (next_token w);
                   new_magicLinkExpires := Some (next_expiry w);
                   new_magicLinkUsed := false |} (clock w) _ Hf) as [u' Hc].
    exec. fold (next_token w). fold (next_expiry w). rewrite Hc. exec.
    eexists _, u', _, name, _, _. split.
    + destruct (smtp_up w); reflexivity.
    + split; [eapply Persisted_create; eauto|]. cbn. repeat split.
  - (* login *)
    rewrite Ha.
    destruct (update_found (ByEmail e)
                (issue_data None (next_token w) (next_expiry w)) _ _ Hf)
      as [tbl' Hu].
    exec. fold (next_token w). fold (next_expiry w). rewrite Hu. exec.
    eexists _, _, tbl', (user.name u), _, _. split.
    + destruct (smtp_up w); reflexivity.
    + split; [eapply Persisted_update; eauto|]. cbn. repeat split.
  - (* resend *)
    apply negb_true_iff in Ha. rewrite Ha.
    destruct (update_found (ByEmail e)
                (issue_data None (next_token w) (next_expiry w)) _ _ Hf)
      as [tbl' Hu].
    exec. fold (next_token w). fold (next_expiry w). rewrite Hu. exec.
    eexists _, _, tbl', (user.name u), _, _. split.
    + destruct (smtp_up w); reflexivity.
    + split; [eapply Persisted_update; eauto|]. cbn. repeat split.
Qed.

Lemma findUnique_app (w : UniqueWhere) (l1 l2 : Table) :
  findUnique w (l1 ++ l2)
  = match findUnique w l1 with
    | Some u => Some u
    | None => findUnique w l2
    end.
Proof.
  unfold findUnique. induction l1 as [|v l1 IH]; [reflexivity|].
  cbn [app find]. destruct (selects w v); [reflexivity | exact IH].
Qed.

Lemma persisted_row (w : World) (e : string) (tbl' : Table) (u' : User)
      (ev : Event) :
  Persisted w e tbl' u' ev ->
  findUnique (ByEmail e) tbl' = Some u' /\
  user.email u' = e /\
  user.magicLinkToken u' = Some (next_token w) /\
  user.magicLinkExpires u' = Some (next_expiry w) /\
  user.magicLinkUsed u' = false.
Proof.
  intros [name u Hf Hu | name Hf Hc].
  - destruct (update_finds _ _ _ _ _ Hu) as (u0 & Hf0 & -> & Hf').
    rewrite Hf in Hf0. inversion Hf0; subst u0.
    apply findUnique_Some in Hf. destruct Hf as [_ He].
    cbn [selects] in He. apply String.eqb_eq in He.
    repeat split; auto.
  - destruct (create_shape _ _ _ _ _ Hc)
      as (-> & _ & He & _ & _ & Ht & Hx & Hused & _ & _).
    cbn in He, Ht, Hx, Hused. repeat split; auto.
    rewrite findUnique_app, Hf. unfold findUnique. cbn [find selects].
    rewrite He, String.eqb_refl. reflexivity.
Qed.

Lemma findUnique_by_id (tbl : Table) (u : User) :
  ids_unique tbl -> In u tbl -> findUnique (ById (user.id u)) tbl = Some u.
Proof.
  unfold ids_unique, findUnique. induction tbl as [|v rest IH]; intros Hnd Hin.
  - contradiction.
  - cbn [map] in Hnd. inversion Hnd as [|? ? Hnotin Hnd']; subst.
    cbn [find selects]. destruct Hin as [->|Hin].
    + now rewrite Nat.eqb_refl.
    + destruct (Nat.eqb (user.id v) (user.id u)) eqn:E.
      * apply Nat.eqb_eq in E. exfalso. apply Hnotin. rewrite E.
        now apply in_map.
      * auto.
Qed.

(** [GET /api/auth/verify] without a token. *)
Lemma run_verify_missing (env : ProcessEnv) (w : World) (token : option string) :
  Js.truthy token = false ->
  run w (verify env token) = (w, [], Returned InvalidInput_token).
Proof.
  destruct token as [t|]; cbn [Js.truthy]; intros H; unfold verify.
  - rewrite H. reflexivity.
  - reflexivity.
Qed.

(** [GET /api/auth/verify] with a token no row carries as active. *)
Lemma run_verify_rejected (env : ProcessEnv) (w : World) (t : string) :
  Js.truthy_string t = true ->
  findFirst (active_token t (clock w)) (table w) = None ->
  run w (verify env (Some t)) = (w, [EvFindFirst None], Returned InvalidOrExpiredToken).
Proof.
  intros Ht Hf. unfold verify. rewrite Ht. exec. rewrite Hf. reflexivity.
Qed.

(** [GET /api/auth/verify] with a token some row carries as active: the
    lookup, then the write by id, then the reply with the cookie. *)
Lemma run_verify_accepted (env : ProcessEnv) (w : World) (t : string) (u : User) :
  Js.truthy_string t = true ->
  findFirst (active_token t (clock w)) (table w) = Some u ->
  exists (u' : User) (tbl' : Table),
    update (ById (user.id u)) consume_data (table w) = Some (u', tbl') /\
    run w (verify env (Some t))
    = (with_table w tbl',
       [EvFindFirst (Some u); EvUpdate (ById (user.id u)) consume_data (Some u')],
       Returned
         (with_cookie (session_cookie env u (clock w))
            (json 200 true "Successfully authenticated! Welcome back!"
               (Some (Profile (user.id u') (user.email u') (user.name u')
                        (user.verified u') None))))).
Proof.
  intros Ht Hf. unfold verify. rewrite Ht. exec. rewrite Hf. exec.
  destruct (findFirst_Some _ _ _ Hf) as [Hin _].
  destruct (findUnique (ById (user.id u)) (table w)) as [u0|] eqn:Hu0.
  - destruct (update_found _ consume_data _ _ Hu0) as [tbl' Hu].
    rewrite Hu. exec. eexists _, tbl'. split; reflexivity.
  - unfold findUnique in Hu0. apply (find_none _ _ Hu0) in Hin.
    cbn [selects] in Hin. rewrite Nat.eqb_refl in Hin. discriminate.
Qed.

(** [GET /api/me], case by case. *)
Lemma run_me_missing (env : ProcessEnv) (w : World) (c : option jwt.Credential) :
  match c with Some tok => jwt.truthy tok | None => false end = false ->
  run w (me env c) = (w, [], Returned Unauthenticated_missing).
Proof.
  destruct c as [tok|]; intros H; unfold me; [rewrite H|]; reflexivity.
Qed.

Lemma run_me_invalid (env : ProcessEnv) (w : World) (tok : jwt.Credential) :
  jwt.truthy tok = true ->
  jwt.verify tok (JWT_SECRET env) (clock w) = None ->
  run w (me env (Some tok)) = (w, [], Returned Unauthenticated_invalid).
Proof.
  intros Ht Hv. unfold me. rewrite Ht. exec. rewrite Hv. reflexivity.
Qed.

Lemma run_me_valid (env : ProcessEnv) (w : World) (tok : jwt.Credential)
      (decoded : jwt.Claims) :
  jwt.verify tok (JWT_SECRET env) (clock w) = Some decoded ->
  run w (me env (Some tok))
  = (w,
     [EvFindUnique (ById (jwt.userId decoded))
        (findUnique (ById (jwt.userId decoded)) (table w))],
     Returned
       match findUnique (ById (jwt.userId decoded)) (table w) with
       | None => Unauthenticated_unknown
       | Some u =>
           json 200 true ""
             (Some (Profile (user.id u) (user.email u) (user.name u)
                      (user.verified u) (Some (user.createdAt u))))
       end).
Proof.
  intros Hv. unfold me.
  assert (Ht : jwt.truthy tok = true).
  { destruct tok; [discriminate Hv | reflexivity]. }
  rewrite Ht. exec. rewrite Hv. exec.
  destruct (findUnique (ById (jwt.userId decoded)) (table w)); reflexivity.
Qed.

(** The sweep. *)
Lemma run_cleanup (w : World) :
  run w cleanupExpiredTokens
  = (with_table w (snd (updateMany (expired_token (clock w)) cleanup_data (table w))),
     [EvUpdateMany cleanup_data
        (fst (updateMany (expired_token (clock w)) cleanup_data (table w)))],
     Returned tt).
Proof. reflexivity. Qed.

(* ================================================================== *)
(** ** What one action does to the world *)
(* ================================================================== *)

(** Every action leaves the table as it is, or performs the write of an
    issuance, or the write of a verification, or the sweep.  The random
    source is only ever read forward. *)
Lemma act_effect (env : ProcessEnv) (w : World) (a : Action) :
  rng (act env w a) = rng w /\
  (rng_pos (act env w a) = rng_pos w \/ rng_pos (act env w a) = rng_pos w + 32) /\
  (table (act env w a) = table w
   \/ (exists e u' ev,
          rng_pos (act env w a) = rng_pos w + 32 /\ valid_email e = true /\
          Persisted w e (table (act env w a)) u' ev)
   \/ (exists i u',
          update (ById i) consume_data (table w) = Some (u', table (act env w a)))
   \/ table (act env w a)
      = snd (updateMany (expired_token (clock w)) cleanup_data (table w))).
Proof.
  assert (Hissue : forall k email,
             let w' := final (run w (handle env (request_of k email))) in
             rng w' = rng w /\
             (rng_pos w' = rng_pos w \/ rng_pos w' = rng_pos w + 32) /\
             (table w' = table w
              \/ (exists e u' ev,
                     rng_pos w' = rng_pos w + 32 /\ valid_email e = true /\
                     Persisted w e (table w') u' ev)
              \/ (exists i u',
                     update (ById i) consume_data (table w) = Some (u', table w'))
              \/ table w'
                 = snd (updateMany (expired_token (clock w)) cleanup_data (table w)))).
  { intros k email.
    destruct (match email with Some e => valid_email e | None => false end) eqn:Hv.
    - destruct email as [e|]; [|discriminate].
      destruct (eligible k (findUnique (ByEmail e) (table w))) eqn:Ha.
      + destruct (run_issuance_issued env w k e Hv Ha)
          as (ev & u' & tbl' & nm & ok & failed & Hrun & Hp & _).
        cbv zeta. rewrite Hrun. cbn. repeat split; auto.
        right. left. exists e, u', ev. auto.
      + cbv zeta. rewrite (run_issuance_rejected env w k e Hv Ha). cbn. auto.
    - cbv zeta. rewrite (run_issuance_invalid env w k email Hv). cbn. auto. }
  destruct a as [r| |t|up]; cbn [act].
  - destruct r as [email name|email|token|email| |c].
    + exact (Hissue (Signup name) email).
    + exact (Hissue Login email).
    + cbn [handle]. destruct (Js.truthy token) eqn:Ht.
      * destruct token as [t|]; [|discriminate]. cbn [Js.truthy] in Ht.
        destruct (findFirst (active_token t (clock w)) (table w)) as [u|] eqn:Hf.
        -- destruct (run_verify_accepted env w t u Ht Hf) as (u' & tbl' & Hu & Hrun).
           rewrite Hrun. cbn. repeat split; auto.
           right. right. left. eauto.
        -- rewrite (run_verify_rejected env w t Ht Hf). cbn. auto.
      * rewrite (run_verify_missing env w token Ht). cbn. auto.
    + exact (Hissue Resend email).
    + cbn. auto.
    + cbn [handle].
      destruct (match c with Some tok => jwt.truthy tok | None => false end) eqn:Ht.
      * destruct c as [tok|]; [|discriminate].
        destruct (jwt.verify tok (JWT_SECRET env) (clock w)) as [decoded|] eqn:Hv.
        -- rewrite (run_me_valid env w tok decoded Hv). cbn. auto.
        -- rewrite (run_me_invalid env w tok Ht Hv). cbn. auto.
      * rewrite (run_me_missing env w c Ht). cbn. auto.
  - rewrite run_cleanup. cbn. auto 6.
  - cbn. auto.
  - cbn. auto.
Qed.

Lemma persisted_ids_unique (w : World) (e : string) (tbl' : Table) (u' : User)
      (ev : Event) :
  Persisted w e tbl' u' ev -> ids_unique (table w) -> ids_unique tbl'.
Proof.
  intros [name u Hf Hu | name Hf Hc] H.
  - unfold ids_unique. now rewrite (update_ids _ _ _ _ _ Hu).
  - eapply create_ids_unique; eauto.
Qed.

(** The primary key survives every action. *)
Lemma act_ids_unique (env : ProcessEnv) (w : World) (a : Action) :
  ids_unique (table w) -> ids_unique (table (act env w a)).
Proof.
  intros H. destruct (act_effect env w a) as (_ & _ & Ht).
  destruct Ht as [-> | [(e & u' & ev & _ & _ & Hp) | [(i & u' & Hu) | ->]]].
  - exact H.
  - eapply persisted_ids_unique; eauto.
  - unfold ids_unique. now rewrite (update_ids _ _ _ _ _ Hu).
  - unfold ids_unique. now rewrite updateMany_ids.
Qed.

Lemma history_ids_unique (env : ProcessEnv) (l : list Action) (w : World) :
  ids_unique (table w) -> ids_unique (table (history env w l)).
Proof.
  revert w. induction l as [|a l IH]; intros w H; [exact H|].
  apply IH, act_ids_unique, H.
Qed.

(** Only checked addresses are ever stored. *)
Lemma act_emails_valid (env : ProcessEnv) (w : World) (a : Action) :
  emails_valid (table w) -> emails_valid (table (act env w a)).
Proof.
  intros H. destruct (act_effect env w a) as (_ & _ & Ht). unfold emails_valid in *.
  destruct Ht as [-> | [(e & u' & ev & _ & Hv & Hp) | [(i & u' & Hu) | ->]]].
  - exact H.
  - destruct Hp as [name u Hf Hu | name Hf Hc].
    + eapply update_Forall; [|exact Hu|exact H]. intros v Hvv. exact Hvv.
    + destruct (create_shape _ _ _ _ _ Hc) as (-> & _ & He & _).
      apply Forall_app. split; [exact H|]. constructor; [|constructor].
      rewrite He. cbn. unfold valid_email in Hv.
      apply andb_true_iff in Hv. tauto.
  - eapply update_Forall; [|exact Hu|exact H]. intros v Hvv. exact Hvv.
  - apply updateMany_Forall; [|exact H]. intros v Hvv. exact Hvv.
Qed.

Lemma history_emails_valid (env : ProcessEnv) (l : list Action) (w : World) :
  emails_valid (table w) -> emails_valid (table (history env w l)).
Proof.
  revert w. induction l as [|a l IH]; intros w H; [exact H|].
  apply IH, act_emails_valid, H.
Qed.

(** Starting from an empty table, whatever happens, the table has its
    primary key and stores checked addresses only. *)
Lemma history_from_empty (env : ProcessEnv) (l : list Action) (w : World) :
  table w = [] ->
  ids_unique (table (history env w l)) /\ emails_valid (table (history env w l)).
Proof.
  intros E. split.
  - apply history_ids_unique. rewrite E. constructor.
  - apply history_emails_valid. rewrite E. constructor.
Qed.

Lemma stores_iff (t : string) (u : User) :
  stores t u = true <-> user.magicLinkToken u = Some t.
Proof.
  unfold stores. destruct (user.magicLinkToken u) as [t'|].
  - rewrite String.eqb_eq. split; congruence.
  - split; discriminate.
Qed.

Lemma unheld_holders (t : string) (tbl : Table) :
  unheld t tbl <-> holders t tbl = 0.
Proof.
  unfold unheld, holders. induction tbl as [|u rest IH].
  - split; [reflexivity | constructor].
  - cbn [List.filter]. destruct (stores t u) eqn:E.
    + split; [|discriminate]. intros H. inversion H; subst.
      apply stores_iff in E. contradiction.
    + split; intros H.
      * inversion H; subst. now apply IH.
      * constructor; [|now apply IH]. intros Hs. apply stores_iff in Hs.
        congruence.
Qed.

Lemma unheld_rejects (t : string) (now : Z) (tbl : Table) :
  unheld t tbl -> findFirst (active_token t now) tbl = None.
Proof.
  intros H. apply findFirst_None. intros u Hin.
  unfold unheld in H. rewrite Forall_forall in H. specialize (H u Hin).
  unfold active_token. destruct (user.magicLinkToken u) as [t'|]; [|reflexivity].
  destruct (String.eqb_spec t' t); [congruence | reflexivity].
Qed.

Lemma act_never_drawn (env : ProcessEnv) (t : string) (w : World) (a : Action) :
  never_drawn t w -> never_drawn t (act env w a).
Proof.
  intros H pos Hpos. destruct (act_effect env w a) as (Hr & Hp & _).
  rewrite Hr. apply H. lia.
Qed.

(** A token nobody holds stays that way unless the random source produces
    it again. *)
Lemma act_unheld (env : ProcessEnv) (t : string) (w : World) (a : Action) :
  never_drawn t w -> unheld t (table w) -> unheld t (table (act env w a)).
Proof.
  intros Hn H. destruct (act_effect env w a) as (_ & _ & Ht). unfold unheld in *.
  assert (Hfresh : Some (next_token w) <> Some t).
  { intros E. injection E as E. apply (Hn (rng_pos w)); [lia | exact E]. }
  destruct Ht as [-> | [(e & u' & ev & _ & _ & Hp) | [(i & u' & Hu) | ->]]].
  - exact H.
  - destruct Hp as [name u Hf Hu | name Hf Hc].
    + eapply update_Forall; [|exact Hu|exact H]. intros v _. exact Hfresh.
    + destruct (create_shape _ _ _ _ _ Hc) as (-> & _ & _ & _ & _ & Htok & _).
      apply Forall_app. split; [exact H|]. constructor; [|constructor].
      rewrite Htok. exact Hfresh.
  - eapply update_Forall; [|exact Hu|exact H]. intros v _. discriminate.
  - apply updateMany_Forall; [|exact H]. intros v _. discriminate.
Qed.

Lemma history_unheld (env : ProcessEnv) (t : string) (l : list Action) (w : World) :
  never_drawn t w -> unheld t (table w) -> unheld t (table (history env w l)).
Proof.
  revert w. induction l as [|a l IH]; intros w Hn H; [exact H|].
  apply IH; [apply act_never_drawn | apply act_unheld]; assumption.
Qed.

Lemma holders_app (t : string) (l1 l2 : Table) :
  holders t (l1 ++ l2) = holders t l1 + holders t l2.
Proof. unfold holders. now rewrite filter_app, length_app. Qed.

Lemma active_stores (t : string) (now : Z) (u : User) :
  active_token t now u = true -> stores t u = true.
Proof.
  unfold active_token, stores. intros H.
  apply andb_true_iff in H. destruct H as [H _].
  apply andb_true_iff in H. tauto.
Qed.

(** Consuming the only holder of a token leaves nobody holding it. *)
Lemma consume_unheld (t : string) (now : Z) (tbl tbl' : Table) (u u' : User) :
  ids_unique tbl -> holders t tbl <= 1 ->
  findFirst (active_token t now) tbl = Some u ->
  update (ById (user.id u)) consume_data tbl = Some (u', tbl') ->
  unheld t tbl'.
Proof.
  intros Hid Hh Hf Hu.
  rewrite (update_by_id _ _ _ _ _ Hid Hu).
  destruct (findFirst_Some _ _ _ Hf) as [Hin Hact].
  apply active_stores in Hact.
  destruct (in_split _ _ Hin) as (l1 & l2 & ->).
  rewrite holders_app in Hh. unfold holders at 2 in Hh.
  cbn [List.filter] in Hh. rewrite Hact in Hh. cbn [List.length] in Hh.
  assert (H1 : unheld t l1) by (apply unheld_holders; lia).
  assert (H2 : unheld t l2) by (apply unheld_holders; unfold holders; lia).
  unfold unheld in *. apply Forall_map. apply Forall_app. split; [|constructor].
  - eapply Forall_impl; [|exact H1]. intros v Hv.
    destruct (Nat.eqb (user.id v) (user.id u)); [discriminate | exact Hv].
  - rewrite Nat.eqb_refl. discriminate.
  - eapply Forall_impl; [|exact H2]. intros v Hv.
    destruct (Nat.eqb (user.id v) (user.id u)); [discriminate | exact Hv].
Qed.

(* ================================================================== *)
(** ** Verification *)
(* ================================================================== *)

Lemma active_token_iff (t : string) (now : Z) (u : User) :
  active_token t now u = true <->
  user.magicLinkToken u = Some t /\ user.magicLinkUsed u = false /\
  exists e, user.magicLinkExpires u = Some e /\ (now < e)%Z.
Proof.
  unfold active_token. rewrite !andb_true_iff.
  fold (stores t u). rewrite stores_iff.
  destruct (user.magicLinkUsed u); cbn [Bool.eqb];
    destruct (user.magicLinkExpires u) as [e|].
  - split; [intros [[_ H] _]; discriminate | intros (_ & H & _); discriminate].
  - split; [intros [[_ H] _]; discriminate | intros (_ & H & _); discriminate].
  - rewrite Z.ltb_lt. split.
    + intros [[H _] Hlt]. repeat split; eauto.
    + intros (H & _ & e' & He & Hlt). inversion He; subst. auto.
  - split; [intros [_ H]; discriminate | intros (_ & _ & e' & He & _); discriminate].
Qed.

Lemma token_valid_iff (t : string) (now : Z) (tbl : Table) :
  token_valid t now tbl <-> exists u, findFirst (active_token t now) tbl = Some u.
Proof.
  split.
  - intros (u & Hin & Hu).
    destruct (findFirst (active_token t now) tbl) as [v|] eqn:E; [eauto|].
    rewrite findFirst_None in E. specialize (E u Hin).
    apply active_token_iff in Hu. congruence.
  - intros [u Hf]. apply findFirst_Some in Hf. destruct Hf as [Hin Hact].
    exists u. split; [exact Hin|]. now apply active_token_iff.
Qed.

(** C1.  A presented (non-empty) token is accepted, that is answered with
    status 200, if and only if some user's stored token equals it, that
    user's [used] flag is false and the clock is strictly before the stored
    expiry.  When there is no such user, whatever the cause, the answer is
    the one fixed [InvalidOrExpiredToken] response with status 400, after a
    single lookup and with the world unchanged. *)
Theorem verify_accepts_iff_token_valid
        (env : ProcessEnv) (w : World) (t : string) :
  Js.truthy_string t = true ->
  (token_valid t (clock w) (table w) <->
   exists r, respond env w (GetVerify (Some t)) = Returned r /\
             res.status r = 200 /\ res.success r = true)
  /\ (~ token_valid t (clock w) (table w) ->
      run w (handle env (GetVerify (Some t)))
      = (w, [EvFindFirst None], Returned InvalidOrExpiredToken))
  /\ res.status InvalidOrExpiredToken = 400.
Proof.
  intros Ht. unfold respond. cbn [handle].
  destruct (findFirst (active_token t (clock w)) (table w)) as [u|] eqn:Hf.
  - destruct (run_verify_accepted env w t u Ht Hf) as (u' & tbl' & _ & Hrun).
    rewrite Hrun. cbn [outcome snd]. repeat split.
    + intros _. eexists. split; [reflexivity|]. split; reflexivity.
    + intros _. apply token_valid_iff. eauto.
    + intros Hnot. exfalso. apply Hnot, token_valid_iff. eauto.
  - rewrite (run_verify_rejected env w t Ht Hf). cbn [outcome snd]. repeat split.
    + intros Hv. apply token_valid_iff in Hv. destruct Hv as [u Hu]. congruence.
    + intros (r & Hr & Hs & _). inversion Hr; subst r. discriminate.
Qed.

Lemma verify_accepts_iff_token_valid_witness :
  Js.truthy_string "abc" = true /\
  ((token_valid "abc" (clock Sample.world) (table Sample.world) <->
    exists r, respond Sample.env Sample.world (GetVerify (Some "abc")) = Returned r /\
              res.status r = 200 /\ res.success r = true)
   /\ (~ token_valid "abc" (clock Sample.world) (table Sample.world) ->
       run Sample.world (handle Sample.env (GetVerify (Some "abc")))
       = (Sample.world, [EvFindFirst None], Returned InvalidOrExpiredToken))
   /\ res.status InvalidOrExpiredToken = 400).
Proof.
  split; [reflexivity|].
  apply (verify_accepts_iff_token_valid Sample.env Sample.world "abc").
  reflexivity.
Defined.

Lemma ids_unique_inj (tbl : Table) (u v : User) :
  ids_unique tbl -> In u tbl -> In v tbl -> user.id v = user.id u -> v = u.
Proof.
  intros Hid Hu Hv E.
  pose proof (findUnique_by_id tbl u Hid Hu) as H1.
  pose proof (findUnique_by_id tbl v Hid Hv) as H2.
  rewrite E in H2. congruence.
Qed.

(** C2.  For the user [u] matched by the lookup, a verification rewrites
    exactly that row: [verified] true, token and expiry null, [used] true,
    every other field and every other row as before.  After this write it
    signs a credential carrying the user's id and email that expires seven
    days after it was issued, and answers 200 with the updated user and
    the credential in the [auth_token] cookie. *)
Theorem verify_consumes_then_mints
        (env : ProcessEnv) (w : World) (t : string) (u : User) :
  ids_unique (table w) ->
  Js.truthy_string t = true ->
  findFirst (active_token t (clock w)) (table w) = Some u ->
  let consumed :=
    {| user.id := user.id u; user.email := user.email u; user.name := user.name u;
       user.verified := true; user.magicLinkToken := None;
       user.magicLinkExpires := None; user.magicLinkUsed := true;
       user.createdAt := user.createdAt u |} in
  let credential :=
    jwt.Signed {| jwt.userId := user.id u; jwt.email := user.email u;
                  jwt.verified := true;
                  jwt.iat := (clock w / 1000)%Z;
                  jwt.exp := (clock w / 1000 + 7 * 24 * 60 * 60)%Z |}
               (JWT_SECRET env) in
  let r := run w (handle env (GetVerify (Some t))) in
  table (final r)
  = map (fun v => if Nat.eqb (user.id v) (user.id u) then consumed else v) (table w)
  /\ findUnique (ById (user.id u)) (table (final r)) = Some consumed
  /\ trace r = [EvFindFirst (Some u);
                EvUpdate (ById (user.id u)) consume_data (Some consumed)]
  /\ (exists resp ck,
         outcome r = Returned resp /\ res.status resp = 200 /\
         res.success resp = true /\
         res.data resp
         = Some (Profile (user.id u) (user.email u) (user.name u) true None) /\
         res.cookie resp = Some ck /\
         cookie_name ck = "auth_token" /\ cookie_value ck = credential /\
         httpOnly ck = true /\
         maxAge ck = (7 * 24 * 60 * 60 * 1000)%Z)
  /\ (forall later : Z,
         jwt.verify credential (JWT_SECRET env) later <> None <->
         (later / 1000 < clock w / 1000 + 7 * 24 * 60 * 60)%Z).
Proof.
  intros Hid Ht Hf consumed credential r.
  destruct (run_verify_accepted env w t u Ht Hf) as (u' & tbl' & Hu & Hrun).
  destruct (findFirst_Some _ _ _ Hf) as [Hin _].
  assert (Hu' : u' = consumed).
  { destruct (update_finds _ _ _ _ _ Hu) as (u0 & Hf0 & -> & _).
    rewrite (findUnique_by_id _ _ Hid Hin) in Hf0. inversion Hf0; subst u0.
    reflexivity. }
  subst u'. subst r. cbn [handle]. rewrite Hrun. cbn [final trace outcome fst snd table with_table].
  repeat split.
  - rewrite (update_by_id _ _ _ _ _ Hid Hu). apply map_ext_in.
    intros v Hv. destruct (Nat.eqb (user.id v) (user.id u)) eqn:E; [|reflexivity].
    apply Nat.eqb_eq in E. now rewrite (ids_unique_inj _ _ _ Hid Hin Hv E).
  - destruct (update_finds _ _ _ _ _ Hu) as (u0 & _ & _ & Hf'). exact Hf'.
  - eexists _, _. repeat split.
  - unfold credential. cbn [jwt.verify jwt.exp]. rewrite String.eqb_refl.
    cbn [andb]. unfold jwt.seconds.
    destruct (Z.ltb_spec (later / 1000) (clock w / 1000 + 7 * 24 * 60 * 60));
      [intros _; assumption | intros H0; now elim H0].
  - unfold credential. cbn [jwt.verify jwt.exp]. rewrite String.eqb_refl.
    cbn [andb]. unfold jwt.seconds. intros Hlt.
    destruct (Z.ltb_spec (later / 1000) (clock w / 1000 + 7 * 24 * 60 * 60));
      [discriminate | lia].
Qed.

Lemma verify_consumes_then_mints_witness :
  ids_unique (table Sample.world) /\
  Js.truthy_string "abc" = true /\
  findFirst (active_token "abc" (clock Sample.world)) (table Sample.world)
  = Some Sample.alice /\
  table (final (run Sample.world (handle Sample.env (GetVerify (Some "abc")))))
  = [ {| user.id := 1; user.email := "alice@example.com";
         user.name := Some "Alice"; user.verified := true;
         user.magicLinkToken := None; user.magicLinkExpires := None;
         user.magicLinkUsed := true; user.createdAt := 0%Z |};
      Sample.bob; Sample.carol ].
Proof.
  assert (Hid : ids_unique (table Sample.world)).
  { unfold ids_unique. cbn. repeat constructor; cbn; intuition discriminate. }
  split; [exact Hid|]. split; [reflexivity|]. split; [reflexivity|].
  exact (proj1 (verify_consumes_then_mints Sample.env Sample.world "abc"
                  Sample.alice Hid eq_refl eq_refl)).
Defined.

(* ================================================================== *)
(** ** Replay *)
(* ================================================================== *)

Lemma accepted_inv (env : ProcessEnv) (w : World) (t : string) (r : Response) :
  respond env w (GetVerify (Some t)) = Returned r -> res.status r = 200 ->
  Js.truthy_string t = true /\
  exists u, findFirst (active_token t (clock w)) (table w) = Some u.
Proof.
  unfold respond. cbn [handle]. intros Hr Hs.
  destruct (Js.truthy_string t) eqn:Ht.
  - split; [reflexivity|].
    destruct (findFirst (active_token t (clock w)) (table w)) as [u|] eqn:Hf;
      [eauto|].
    rewrite (run_verify_rejected env w t Ht Hf) in Hr.
    inversion Hr; subst r. discriminate.
  - rewrite (run_verify_missing env w (Some t) Ht) in Hr.
    inversion Hr; subst r. discriminate.
Qed.

(** C3.  Once a verification of [t] has succeeded, every later
    verification of [t] is answered [InvalidOrExpiredToken], whatever
    happens in between (requests of any kind, sweeps, clock changes, mail
    outages), as long as the random source does not produce [t] again.
    The table is assumed to have its primary key and to store [t] in at
    most one row. *)
Theorem consumed_token_never_accepted_again
        (env : ProcessEnv) (w : World) (t : string) (r : Response)
        (between : list Action) :
  ids_unique (table w) ->
  holders t (table w) <= 1 ->
  never_drawn t w ->
  respond env w (GetVerify (Some t)) = Returned r ->
  res.status r = 200 ->
  respond env
    (history env (act env w (Http (GetVerify (Some t)))) between)
    (GetVerify (Some t))
  = Returned InvalidOrExpiredToken.
Proof.
  intros Hid Hh Hn Hr Hs.
  destruct (accepted_inv env w t r Hr Hs) as [Ht [u Hf]].
  destruct (run_verify_accepted env w t u Ht Hf) as (u' & tbl' & Hu & Hrun).
  assert (H1 : unheld t (table (act env w (Http (GetVerify (Some t)))))).
  { cbn [act handle]. rewrite Hrun. cbn [final fst table with_table].
    eapply consume_unheld; eauto. }
  assert (H2 : never_drawn t (act env w (Http (GetVerify (Some t))))).
  { apply act_never_drawn, Hn. }
  pose proof (history_unheld env t between _ H2 H1) as H3.
  unfold respond. cbn [handle].
  rewrite (run_verify_rejected env _ t Ht (unheld_rejects t _ _ H3)).
  reflexivity.
Qed.

Lemma consumed_token_never_accepted_again_witness :
  ids_unique (table Sample.world) /\
  holders "abc" (table Sample.world) <= 1 /\
  never_drawn "abc" Sample.world /\
  (exists r,
      respond Sample.env Sample.world (GetVerify (Some "abc")) = Returned r /\
      res.status r = 200) /\
  respond Sample.env
    (history Sample.env
       (act Sample.env Sample.world (Http (GetVerify (Some "abc"))))
       [Reaper; Tick 5; Http (PostLogin (Some "alice@example.com"));
        Http (GetVerify (Some "abc")); Tick 0])
    (GetVerify (Some "abc"))
  = Returned InvalidOrExpiredToken.
Proof.
  assert (Hid : ids_unique (table Sample.world)).
  { unfold ids_unique. cbn. repeat constructor; cbn; intuition discriminate. }
  assert (Hh : holders "abc" (table Sample.world) <= 1).
  { cbn. lia. }
  assert (Hn : never_drawn "abc" Sample.world).
  { intros pos _. cbn. discriminate. }
  split; [exact Hid|]. split; [exact Hh|]. split; [exact Hn|].
  split.
  - eexists. split; reflexivity.
  - eapply (consumed_token_never_accepted_again Sample.env Sample.world "abc");
      [exact Hid | exact Hh | exact Hn | reflexivity | reflexivity].
Defined.

(* ================================================================== *)
(** ** The event loop *)
(* ================================================================== *)

Lemma after_emit {A : Type} (e : Event) (r : Run A) : emit e r = after [e] r.
Proof. destruct r as [[w tr] o]. reflexivity. Qed.

Lemma after_nil {A : Type} (r : Run A) : after [] r = r.
Proof. destruct r as [[w tr] o]. reflexivity. Qed.

(** Running a handler is the same as letting it reach its next [await]
    and running it from there. *)
Lemma run_settle {A : Type} (p : Prog A) (w : World) :
  run w p = run (fst (settle w p)) (snd (settle w p)).
Proof.
  revert w. induction p as [a|msg|k IH|n k IH|wh k _|flt k _|wh d k _|flt d k _|n k _|m k _];
    intros w; try reflexivity.
  - cbn [run settle]. apply IH.
  - cbn [run settle]. apply IH.
Qed.

(** ... and the same as performing the awaited call and running what is
    left. *)
Lemma run_perform {A : Type} (p : Prog A) (w : World) :
  run w p = after (snd (fst (perform w p)))
                  (run (fst (fst (perform w p))) (snd (perform w p))).
Proof.
  destruct p as [a|msg|k|n k|wh k|flt k|wh d k|flt d k|n k|m k];
    cbn [run perform fst snd];
    try (rewrite after_nil; reflexivity); try (apply after_emit).
  - destruct (update wh d (table w)) as [[u tbl]|]; apply after_emit.
  - destruct (create n (clock w) (table w)) as [[u tbl]|]; apply after_emit.
Qed.

(** One turn of the event loop on a suspended handler is a prefix of its
    uninterrupted run. *)
Lemma run_resume {A : Type} (p : Prog A) (w : World) :
  run w p = after (snd (fst (resume w p)))
                  (run (fst (fst (resume w p))) (snd (resume w p))).
Proof.
  rewrite (run_perform p w). unfold resume.
  destruct (perform w p) as [[w1 evs] p1]. cbn [fst snd].
  rewrite (run_settle p1 w1).
  destruct (settle w1 p1) as [w2 p2]. reflexivity.
Qed.

Lemma resume_finished {A : Type} (w : World) (a : A) :
  resume w (Ret a) = (w, [], Ret a).
Proof. reflexivity. Qed.

Lemma turn_resume_first (env : ProcessEnv) (w w' : World) (p0 p0' p1 : Prog Response)
      (evs : list Event) :
  resume w p0 = (w', evs, p0') ->
  turn env {| world := w; pool := [p0; p1] |} (Resume 0)
  = {| world := w'; pool := [p0'; p1] |}.
Proof. intros H. cbn [turn nth_error pool world]. rewrite H. reflexivity. Qed.

Lemma turn_resume_second (env : ProcessEnv) (w w' : World) (p0 p1 p1' : Prog Response)
      (evs : list Event) :
  resume w p1 = (w', evs, p1') ->
  turn env {| world := w; pool := [p0; p1] |} (Resume 1)
  = {| world := w'; pool := [p0; p1'] |}.
Proof. intros H. cbn [turn nth_error pool world]. rewrite H. reflexivity. Qed.

(** A verification of a present token suspends at its lookup without
    having touched the world. *)
Lemma verify_arrives (env : ProcessEnv) (w : World) (t : string) :
  Js.truthy_string t = true ->
  exists p, settle w (handle env (GetVerify (Some t))) = (w, p) /\
            Looking t (clock w) p.
Proof.
  intros Ht. cbn [handle]. unfold verify. rewrite Ht.
  cbn [negb try_catch settle]. eexists. split; [reflexivity|].
  intros w1. unfold resume. cbn [perform].
  destruct (findFirst (active_token t (clock w)) (table w1)) as [u|].
  - cbn [try_catch prisma_update settle]. eexists. split; [reflexivity|].
    intros w2 u' tbl' Hu. unfold resume. cbn [perform]. rewrite Hu.
    cbn [try_catch settle]. eexists. split; [reflexivity|].
    cbn. repeat split. discriminate.
  - reflexivity.
Qed.

Lemma turn_arrive (env : ProcessEnv) (w w' : World) (l : list (Prog Response))
      (r : Request) (p : Prog Response) :
  settle w (handle env r) = (w', p) ->
  turn env {| world := w; pool := l |} (Arrive r)
  = {| world := w'; pool := l ++ [p] |}.
Proof. intros H. cbn [turn world pool]. rewrite H. reflexivity. Qed.

Lemma complete_cases (sched : list nat) :
  complete sched ->
  sched = [0; 0; 1; 1] \/ sched = [0; 1; 0; 1] \/ sched = [0; 1; 1; 0] \/
  sched = [1; 0; 0; 1] \/ sched = [1; 0; 1; 0] \/ sched = [1; 1; 0; 0].
Proof.
  intros (H0 & H1 & Hlen).
  destruct sched as [|a [|b [|c [|d [|? ?]]]]]; try discriminate Hlen.
  destruct a as [|[|a]]; destruct b as [|[|b]]; destruct c as [|[|c]];
    destruct d as [|[|d]]; cbn in H0, H1; try discriminate H0;
    try discriminate H1; tauto.
Qed.

(* ================================================================== *)
(** ** Two verifications of the same token *)
(* ================================================================== *)

(** C4 (as the code has it).  The lookup and the consuming write of a
    verification are two awaited queries, and another handler may run
    between them.  When two requests present the same valid token and each
    is resumed to its end, the outcome depends on the order alone: if one
    request is served completely before the other one's lookup, exactly
    that one is accepted and the other is told [InvalidOrExpiredToken]; in
    every other order both lookups see the token and both requests are
    accepted. *)
Theorem verify_lookup_and_write_are_separate
        (env : ProcessEnv) (w : World) (t : string) (u : User)
        (sched : list nat) :
  ids_unique (table w) ->
  holders t (table w) <= 1 ->
  Js.truthy_string t = true ->
  findFirst (active_token t (clock w)) (table w) = Some u ->
  complete sched ->
  (sched = [0; 0; 1; 1] \/ sched = [1; 1; 0; 0] ->
   exactly_one_accepted (two_verifications env w t sched))
  /\ (sched <> [0; 0; 1; 1] -> sched <> [1; 1; 0; 0] ->
      both_accepted (two_verifications env w t sched)).
Proof.
  intros Hid Hh Ht Hf Hc.
  destruct (verify_arrives env w t Ht) as (p & Hp & Hlook).
  (* the lookup in the initial table *)
  pose proof (Hlook w) as L0. rewrite Hf in L0.
  destruct L0 as (p' & Hres0 & Hacc).
  (* the first write *)
  destruct (run_verify_accepted env w t u Ht Hf) as (u1 & tbl1 & Hu1 & _).
  destruct (Hacc w u1 tbl1 Hu1) as (resp1 & Hw1 & Hs1 & _).
  (* a lookup after the first write *)
  pose proof (Hlook (with_table w tbl1)) as L1. cbn [table with_table] in L1.
  rewrite (unheld_rejects t (clock w) tbl1
             (consume_unheld t (clock w) _ _ u u1 Hid Hh Hf Hu1)) in L1.
  (* a lookup before and a write after the first write *)
  pose proof (Hlook w) as L2. rewrite Hf in L2.
  destruct (update_finds _ _ _ _ _ Hu1) as (u0 & _ & _ & Hf1).
  destruct (update_found _ consume_data _ _ Hf1) as (tbl2 & Hu2).
  destruct (Hacc (with_table w tbl1) _ tbl2 Hu2) as (resp2 & Hw2 & Hs2 & _).
  assert (Hstart :
            forall l, two_verifications env w t l
                      = interleave env {| world := w; pool := [p; p] |}
                                   (map Resume l)).
  { intros l. unfold two_verifications, interleave. cbn [fold_left].
    rewrite (turn_arrive env w w [] _ p Hp). cbn [app].
    rewrite (turn_arrive env w w [p] _ p Hp). reflexivity. }
  destruct (complete_cases sched Hc) as [E|[E|[E|[E|[E|E]]]]]; subst sched;
    (split;
     [intros HE; try (destruct HE as [E|E]; discriminate E)
     |intros N1 N2; try (now elim N1); try (now elim N2)]);
    rewrite Hstart; unfold interleave; cbn [map fold_left].
  - (* 0 0 1 1 *)
    rewrite (turn_resume_first env _ _ _ _ _ _ Hres0).
    rewrite (turn_resume_first env _ _ _ _ _ _ Hw1).
    rewrite (turn_resume_second env _ _ _ _ _ _ L1).
    rewrite (turn_resume_second env _ _ _ _ _ _ (resume_finished _ _)).
    exists resp1, InvalidOrExpiredToken. cbn. auto.
  - (* 0 1 0 1 *)
    rewrite (turn_resume_first env _ _ _ _ _ _ Hres0).
    rewrite (turn_resume_second env _ _ _ _ _ _ Hres0).
    rewrite (turn_resume_first env _ _ _ _ _ _ Hw1).
    rewrite (turn_resume_second env _ _ _ _ _ _ Hw2).
    exists resp1, resp2. cbn. auto.
  - (* 0 1 1 0 *)
    rewrite (turn_resume_first env _ _ _ _ _ _ Hres0).
    rewrite (turn_resume_second env _ _ _ _ _ _ Hres0).
    rewrite (turn_resume_second env _ _ _ _ _ _ Hw1).
    rewrite (turn_resume_first env _ _ _ _ _ _ Hw2).
    exists resp2, resp1. cbn. auto.
  - (* 1 0 0 1 *)
    rewrite (turn_resume_second env _ _ _ _ _ _ Hres0).
    rewrite (turn_resume_first env _ _ _ _ _ _ Hres0).
    rewrite (turn_resume_first env _ _ _ _ _ _ Hw1).
    rewrite (turn_resume_second env _ _ _ _ _ _ Hw2).
    exists resp1, resp2. cbn. auto.
  - (* 1 0 1 0 *)
    rewrite (turn_resume_second env _ _ _ _ _ _ Hres0).
    rewrite (turn_resume_first env _ _ _ _ _ _ Hres0).
    rewrite (turn_resume_second env _ _ _ _ _ _ Hw1).
    rewrite (turn_resume_first env _ _ _ _ _ _ Hw2).
    exists resp2, resp1. cbn. auto.
  - (* 1 1 0 0 *)
    rewrite (turn_resume_second env _ _ _ _ _ _ Hres0).
    rewrite (turn_resume_second env _ _ _ _ _ _ Hw1).
    rewrite (turn_resume_first env _ _ _ _ _ _ L1).
    rewrite (turn_resume_first env _ _ _ _ _ _ (resume_finished _ _)).
    exists InvalidOrExpiredToken, resp1. cbn. auto.
Qed.

Lemma both_lookups_before_both_writes :
  both_accepted (two_verifications Sample.env Sample.world "abc" [0; 1; 0; 1])
  /\ ~ exactly_one_accepted
         (two_verifications Sample.env Sample.world "abc" [0; 1; 0; 1]).
Proof.
  split.
  - eexists _, _. split; [vm_compute; reflexivity|].
    split; [vm_compute; reflexivity|]. split; reflexivity.
  - intros (r0 & r1 & H0 & H1 & H).
    vm_compute in H0. vm_compute in H1.
    inversion H0; subst r0. inversion H1; subst r1.
    destruct H as [[_ H] | [H _]]; discriminate H.
Qed.

Lemma verify_lookup_and_write_are_separate_witness :
  ids_unique (table Sample.world) /\
  holders "abc" (table Sample.world) <= 1 /\
  Js.truthy_string "abc" = true /\
  findFirst (active_token "abc" (clock Sample.world)) (table Sample.world)
  = Some Sample.alice /\
  complete [0; 0; 1; 1] /\
  exactly_one_accepted
    (two_verifications Sample.env Sample.world "abc" [0; 0; 1; 1]).
Proof.
  assert (Hid : ids_unique (table Sample.world)).
  { unfold ids_unique. cbn. repeat constructor; cbn; intuition discriminate. }
  assert (Hh : holders "abc" (table Sample.world) <= 1).
  { cbn. lia. }
  assert (Hc : complete [0; 0; 1; 1]).
  { repeat split. }
  split; [exact Hid|]. split; [exact Hh|]. split; [reflexivity|].
  split; [reflexivity|]. split; [exact Hc|].
  apply (proj1 (verify_lookup_and_write_are_separate Sample.env Sample.world
                  "abc" Sample.alice [0; 0; 1; 1] Hid Hh eq_refl eq_refl Hc)).
  left. reflexivity.
Defined.

(* ================================================================== *)
(** ** Issuance *)
(* ================================================================== *)

Lemma update_first_found (w : UniqueWhere) (d : UserData) (tbl tbl' : Table)
      (u' : User) :
  update w d tbl = Some (u', tbl') ->
  exists l1 u l2,
    tbl = l1 ++ u :: l2 /\ tbl' = l1 ++ apply_data d u :: l2 /\
    findUnique w tbl = Some u.
Proof.
  intros H. destruct (update_shape _ _ _ _ _ H) as (l1 & u & l2 & -> & -> & _ & Hs & Hl).
  exists l1, u, l2. repeat split.
  rewrite findUnique_app.
  assert (E : findUnique w l1 = None).
  { apply findFirst_None. intros v Hv. rewrite Forall_forall in Hl. auto. }
  rewrite E. unfold findUnique. cbn [find]. now rewrite Hs.
Qed.

(** An issuance for an account whose row was the only one storing [old]
    leaves nobody storing [old], provided the new token differs. *)
Lemma persisted_unheld (w : World) (e : string) (tbl' : Table) (u u' : User)
      (ev : Event) (old : string) :
  Persisted w e tbl' u' ev ->
  findUnique (ByEmail e) (table w) = Some u ->
  user.magicLinkToken u = Some old ->
  holders old (table w) <= 1 ->
  next_token w <> old ->
  unheld old tbl'.
Proof.
  intros [name u0 Hf0 Hu | name Hf0 Hc] Hf Hold Hh Hne; [|congruence].
  destruct (update_first_found _ _ _ _ _ Hu) as (l1 & v & l2 & Etbl & -> & Hv).
  rewrite Hf in Hv. inversion Hv; subst v. rewrite Etbl in Hh.
  rewrite holders_app in Hh. unfold holders at 2 in Hh. cbn [List.filter] in Hh.
  rewrite (proj2 (stores_iff old u) Hold) in Hh. cbn [List.length] in Hh.
  assert (H1 : unheld old l1) by (apply unheld_holders; lia).
  assert (H2 : unheld old l2) by (apply unheld_holders; unfold holders; lia).
  unfold unheld in *. apply Forall_app. split; [exact H1|].
  constructor; [|exact H2]. intros E. apply Hne. injection E as E. exact E.
Qed.

(** C5.  A row carries one token triple, so a user never has two active
    tokens.  Every issuance (signup of a new or unverified account, login,
    resend) performs exactly one write, which stores the freshly generated
    token with an expiry fifteen minutes after the clock reading and
    [used] false in the row of that address.  The token the row stored
    before is from then on refused by Verify, at any time and after any
    further activity, unless the random source produces it again. *)
Theorem issuance_overwrites_the_token
        (env : ProcessEnv) (w : World) (k : Issuance) (e : string) :
  valid_email e = true ->
  eligible k (findUnique (ByEmail e) (table w)) = true ->
  (forall (v : User) (t1 t2 : string) (now : Z),
      active_token t1 now v = true -> active_token t2 now v = true -> t1 = t2)
  /\ (exists u',
         findUnique (ByEmail e)
           (table (final (run w (handle env (request_of k (Some e))))))
         = Some u' /\
         user.magicLinkToken u' = Some (next_token w) /\
         user.magicLinkExpires u' = Some (clock w + 15 * 60 * 1000)%Z /\
         user.magicLinkUsed u' = false)
  /\ List.length
       (List.filter is_write
          (trace (run w (handle env (request_of k (Some e)))))) = 1
  /\ (forall (u : User) (old : string) (between : list Action),
         findUnique (ByEmail e) (table w) = Some u ->
         user.magicLinkToken u = Some old ->
         Js.truthy_string old = true ->
         holders old (table w) <= 1 ->
         never_drawn old w ->
         respond env
           (history env (final (run w (handle env (request_of k (Some e)))))
              between)
           (GetVerify (Some old))
         = Returned InvalidOrExpiredToken).
Proof.
  intros Hv Ha.
  destruct (run_issuance_issued env w k e Hv Ha)
    as (ev & u' & tbl' & nm & ok & failed & Hrun & Hp & _).
  split; [|split; [|split]].
  - intros v t1 t2 now H1 H2.
    apply active_stores in H1. apply active_stores in H2.
    apply stores_iff in H1. apply stores_iff in H2. congruence.
  - rewrite Hrun. cbn [final fst table with_table].
    destruct (persisted_row _ _ _ _ _ Hp) as (Hf' & _ & Htok & Hexp & Hused).
    exists u'. repeat split; assumption.
  - rewrite Hrun. cbn [trace fst snd List.filter is_write].
    destruct Hp; reflexivity.
  - intros u old between Hf Hold Ht Hh Hn.
    assert (H1 : unheld old (table (final (run w (handle env (request_of k (Some e))))))).
    { rewrite Hrun. cbn [final fst table with_table].
      eapply persisted_unheld; eauto. }
    assert (H2 : never_drawn old (final (run w (handle env (request_of k (Some e)))))).
    { exact (act_never_drawn env old w (Http (request_of k (Some e))) Hn). }
    pose proof (history_unheld env old between _ H2 H1) as H3.
    unfold respond. cbn [handle].
    rewrite (run_verify_rejected env _ old Ht (unheld_rejects old _ _ H3)).
    reflexivity.
Qed.

Lemma issuance_overwrites_the_token_witness :
  valid_email "alice@example.com" = true /\
  eligible Resend (findUnique (ByEmail "alice@example.com") (table Sample.world))
  = true /\
  findUnique (ByEmail "alice@example.com") (table Sample.world)
  = Some Sample.alice /\
  user.magicLinkToken Sample.alice = Some "abc" /\
  Js.truthy_string "abc" = true /\
  holders "abc" (table Sample.world) <= 1 /\
  never_drawn "abc" Sample.world /\
  respond Sample.env
    (history Sample.env
       (final (run Sample.world
                 (handle Sample.env
                    (request_of Resend (Some "alice@example.com")))))
       [Tick 2000])
    (GetVerify (Some "abc"))
  = Returned InvalidOrExpiredToken.
Proof.
  assert (Hh : holders "abc" (table Sample.world) <= 1).
  { cbn. lia. }
  assert (Hn : never_drawn "abc" Sample.world).
  { intros pos _. cbn. discriminate. }
  repeat (split; [first [reflexivity | exact Hh | exact Hn]|]).
  exact (proj2 (proj2 (proj2
           (issuance_overwrites_the_token Sample.env Sample.world Resend
              "alice@example.com" eq_refl eq_refl)))
           Sample.alice "abc" [Tick 2000] eq_refl eq_refl eq_refl Hh Hn).
Defined.

(** C8.  In every issuance the handler first looks the address up, then
    writes the new token, and only then hands the mail with the link for
    that very token to the transport: the write is the event just before
    the mail, and the row it stored is in the table.  The reply is 200 when
    the transport accepts the mail and 500 when it does not; the written
    token stays in the table in both cases. *)
Theorem issuance_persists_before_it_notifies
        (env : ProcessEnv) (w : World) (k : Issuance) (e : string) :
  valid_email e = true ->
  eligible k (findUnique (ByEmail e) (table w)) = true ->
  exists (ev : Event) (u' : User) (nm : option string) (resp : Response),
    trace (run w (handle env (request_of k (Some e))))
    = [EvFindUnique (ByEmail e) (findUnique (ByEmail e) (table w)); ev;
       EvSendMail (mailOptions env e nm (magicLinkUrl env (next_token w)))
                  (smtp_up w)]
    /\ is_write ev = true
    /\ written_row ev = Some u'
    /\ user.magicLinkToken u' = Some (next_token w)
    /\ findUnique (ByEmail e)
         (table (final (run w (handle env (request_of k (Some e)))))) = Some u'
    /\ outcome (run w (handle env (request_of k (Some e)))) = Returned resp
    /\ (smtp_up w = false -> res.status resp = 500 /\ res.success resp = false)
    /\ (smtp_up w = true -> res.status resp = 200 /\ res.success resp = true).
Proof.
  intros Hv Ha.
  destruct (run_issuance_issued env w k e Hv Ha)
    as (ev & u' & tbl' & nm & ok & failed & Hrun & Hp & Hok & Hoks & _ & Hfail & Hfails).
  destruct (persisted_row _ _ _ _ _ Hp) as (Hf' & _ & Htok & _).
  exists ev, u', nm, (if smtp_up w then ok else failed).
  rewrite Hrun. cbn [trace final outcome fst snd table with_table].
  split; [reflexivity|].
  split; [destruct Hp; reflexivity|].
  split; [destruct Hp; reflexivity|].
  split; [exact Htok|]. split; [exact Hf'|]. split; [reflexivity|].
  split; intros E; rewrite E; split; assumption.
Qed.

Lemma issuance_persists_before_it_notifies_witness :
  valid_email "bob@example.com" = true /\
  eligible Login (findUnique (ByEmail "bob@example.com") (table Sample.offline))
  = true /\
  smtp_up Sample.offline = false /\
  exists (ev : Event) (u' : User) (nm : option string) (resp : Response),
    trace (run Sample.offline
             (handle Sample.env (request_of Login (Some "bob@example.com"))))
    = [EvFindUnique (ByEmail "bob@example.com")
         (findUnique (ByEmail "bob@example.com") (table Sample.offline)); ev;
       EvSendMail
         (mailOptions Sample.env "bob@example.com" nm
            (magicLinkUrl Sample.env (next_token Sample.offline)))
         (smtp_up Sample.offline)]
    /\ is_write ev = true
    /\ written_row ev = Some u'
    /\ user.magicLinkToken u' = Some (next_token Sample.offline)
    /\ findUnique (ByEmail "bob@example.com")
         (table (final (run Sample.offline
                          (handle Sample.env
                             (request_of Login (Some "bob@example.com"))))))
       = Some u'
    /\ outcome (run Sample.offline
                  (handle Sample.env (request_of Login (Some "bob@example.com"))))
       = Returned resp
    /\ (smtp_up Sample.offline = false ->
        res.status resp = 500 /\ res.success resp = false)
    /\ (smtp_up Sample.offline = true ->
        res.status resp = 200 /\ res.success resp = true).
Proof.
  split; [reflexivity|]. split; [reflexivity|]. split; [reflexivity|].
  exact (issuance_persists_before_it_notifies Sample.env Sample.offline Login
           "bob@example.com" eq_refl eq_refl).
Defined.

(* ================================================================== *)
(** ** Signup on a verified account *)
(* ================================================================== *)

(** C6.  A signup for an address that belongs to a verified account is
    answered [AlreadyExists] (409) after the lookup alone: the world is
    exactly as before, no row is written and no mail is sent.  Stored
    addresses have all passed the check of [signup]. *)
Theorem signup_on_verified_account_changes_nothing
        (env : ProcessEnv) (w : World) (e : string) (name : option string)
        (u : User) :
  emails_valid (table w) ->
  findUnique (ByEmail e) (table w) = Some u ->
  user.verified u = true ->
  run w (handle env (PostSignup (Some e) name))
  = (w, [EvFindUnique (ByEmail e) (Some u)], Returned AlreadyExists)
  /\ res.status AlreadyExists = 409.
Proof.
  intros Hvalid Hf Hver. split; [|reflexivity].
  assert (Hv : valid_email e = true).
  { destruct (findUnique_Some _ _ _ Hf) as [Hin He].
    cbn [selects] in He. apply String.eqb_eq in He. subst e.
    unfold emails_valid in Hvalid. rewrite Forall_forall in Hvalid.
    apply includes_valid, Hvalid, Hin. }
  change (PostSignup (Some e) name) with (request_of (Signup name) (Some e)).
  rewrite (run_issuance_rejected env w (Signup name) e Hv).
  - rewrite Hf. reflexivity.
  - rewrite Hf. cbn [eligible]. now rewrite Hver.
Qed.

Lemma signup_on_verified_account_changes_nothing_witness :
  emails_valid (table Sample.world) /\
  findUnique (ByEmail "bob@example.com") (table Sample.world) = Some Sample.bob /\
  user.verified Sample.bob = true /\
  run Sample.world
    (handle Sample.env (PostSignup (Some "bob@example.com") (Some "Mallory")))
  = (Sample.world, [EvFindUnique (ByEmail "bob@example.com") (Some Sample.bob)],
     Returned AlreadyExists).
Proof.
  assert (Hv : emails_valid (table Sample.world)).
  { unfold emails_valid. cbn [table Sample.world]. repeat constructor. }
  split; [exact Hv|]. split; [reflexivity|]. split; [reflexivity|].
  exact (proj1 (signup_on_verified_account_changes_nothing Sample.env Sample.world
                  "bob@example.com" (Some "Mallory") Sample.bob Hv eq_refl eq_refl)).
Defined.

(* ================================================================== *)
(** ** The sweep *)
(* ================================================================== *)

Lemma expired_token_iff (now : Z) (u : User) :
  expired_token now u = true <-> swept now u.
Proof.
  unfold expired_token, swept. rewrite andb_true_iff.
  destruct (user.magicLinkExpires u) as [e|];
    destruct (user.magicLinkToken u) as [t|].
  - rewrite Z.ltb_lt. split.
    + intros [H _]. split; [eauto | discriminate].
    + intros [(e' & He & Hlt) _]. inversion He; subst. auto.
  - split; [intros [_ H]; discriminate | intros [_ H]; now elim H].
  - split; [intros [H _]; discriminate | intros [(e' & He & _) _]; discriminate].
  - split; [intros [H _]; discriminate | intros [(e' & He & _) _]; discriminate].
Qed.

(** C7.  A sweep rewrites the table row by row: a row whose expiry is
    strictly before the clock reading and whose token is not null gets
    token and expiry null and [used] false, all its other fields kept;
    every other row is kept as it is, in particular every row whose token
    is null.  The reported count is the number of rewritten rows. *)
Theorem sweep_clears_exactly_the_expired (w : World) :
  List.length (table (final (run w cleanupExpiredTokens)))
  = List.length (table w)
  /\ (forall (i : nat) (u : User),
         nth_error (table w) i = Some u ->
         (swept (clock w) u ->
          nth_error (table (final (run w cleanupExpiredTokens))) i
          = Some (cleared u))
         /\ (~ swept (clock w) u ->
             nth_error (table (final (run w cleanupExpiredTokens))) i = Some u)
         /\ (user.magicLinkToken u = None ->
             nth_error (table (final (run w cleanupExpiredTokens))) i = Some u))
  /\ trace (run w cleanupExpiredTokens)
     = [EvUpdateMany cleanup_data
          (List.length (List.filter (expired_token (clock w)) (table w)))].
Proof.
  rewrite run_cleanup. cbn [final trace fst snd table with_table].
  rewrite updateMany_table. split; [apply length_map|]. split; [|reflexivity].
  intros i u Hi. rewrite nth_error_map, Hi. cbn [option_map].
  assert (Hno : ~ swept (clock w) u -> expired_token (clock w) u = false).
  { intros H. destruct (expired_token (clock w) u) eqn:E; [|reflexivity].
    apply expired_token_iff in E. contradiction. }
  split; [|split].
  - intros H. apply expired_token_iff in H. rewrite H. reflexivity.
  - intros H. now rewrite (Hno H).
  - intros H. rewrite Hno; [reflexivity|]. intros [_ Hn]. contradiction.
Qed.

Lemma sweep_clears_exactly_the_expired_witness :
  nth_error (table (with_clock Sample.world 1000000)) 0 = Some Sample.alice /\
  swept (clock (with_clock Sample.world 1000000)) Sample.alice /\
  nth_error (table (with_clock Sample.world 1000000)) 2 = Some Sample.carol /\
  user.magicLinkToken Sample.carol = None /\
  nth_error
    (table (final (run (with_clock Sample.world 1000000) cleanupExpiredTokens))) 0
  = Some (cleared Sample.alice) /\
  nth_error
    (table (final (run (with_clock Sample.world 1000000) cleanupExpiredTokens))) 2
  = Some Sample.carol.
Proof.
  assert (Hs : swept (clock (with_clock Sample.world 1000000)) Sample.alice).
  { split; [exists 900000%Z; split; [reflexivity | reflexivity] | discriminate]. }
  split; [reflexivity|]. split; [exact Hs|]. split; [reflexivity|].
  split; [reflexivity|].
  pose proof (sweep_clears_exactly_the_expired (with_clock Sample.world 1000000))
    as (_ & H & _).
  split.
  - exact (proj1 (H 0 Sample.alice eq_refl) Hs).
  - exact (proj2 (proj2 (H 2 Sample.carol eq_refl)) eq_refl).
Defined.

(* ================================================================== *)
(** ** The current user *)
(* ================================================================== *)

(** C9.  [GET /api/me] answers 401 without touching the table when the
    cookie is missing, when the credential is not a token signed with the
    server's secret, and when its expiry has been reached.  With a valid
    credential it looks the user up by the id in the claims, answers 401
    when there is no such row and 200 with the stored profile otherwise.
    Nothing is ever written. *)
Theorem current_user_requires_a_valid_session (env : ProcessEnv) (w : World) :
  run w (handle env (GetMe None)) = (w, [], Returned Unauthenticated_missing)
  /\ (forall raw : string,
         exists r, run w (handle env (GetMe (Some (jwt.Garbage raw))))
                   = (w, [], Returned r) /\ res.status r = 401)
  /\ (forall (cl : jwt.Claims) (key : string),
         key <> JWT_SECRET env ->
         run w (handle env (GetMe (Some (jwt.Signed cl key))))
         = (w, [], Returned Unauthenticated_invalid))
  /\ (forall (cl : jwt.Claims) (key : string),
         (jwt.exp cl <= clock w / 1000)%Z ->
         run w (handle env (GetMe (Some (jwt.Signed cl key))))
         = (w, [], Returned Unauthenticated_invalid))
  /\ (forall cl : jwt.Claims,
         (clock w / 1000 < jwt.exp cl)%Z ->
         findUnique (ById (jwt.userId cl)) (table w) = None ->
         run w (handle env (GetMe (Some (jwt.Signed cl (JWT_SECRET env)))))
         = (w, [EvFindUnique (ById (jwt.userId cl)) None],
            Returned Unauthenticated_unknown))
  /\ (forall (cl : jwt.Claims) (u : User),
         (clock w / 1000 < jwt.exp cl)%Z ->
         findUnique (ById (jwt.userId cl)) (table w) = Some u ->
         run w (handle env (GetMe (Some (jwt.Signed cl (JWT_SECRET env)))))
         = (w, [EvFindUnique (ById (jwt.userId cl)) (Some u)],
            Returned (json 200 true ""
                        (Some (Profile (user.id u) (user.email u) (user.name u)
                                 (user.verified u) (Some (user.createdAt u)))))))
  /\ res.status Unauthenticated_missing = 401
  /\ res.status Unauthenticated_invalid = 401
  /\ res.status Unauthenticated_unknown = 401.
Proof.
  cbn [handle]. split; [reflexivity|].
  split; [|split; [|split; [|split; [|split; [|repeat split]]]]].
  - intros raw. destruct (Js.truthy_string raw) eqn:E.
    + exists Unauthenticated_invalid. split; [|reflexivity].
      apply run_me_invalid; [exact E | reflexivity].
    + exists Unauthenticated_missing. split; [|reflexivity].
      apply run_me_missing. exact E.
  - intros cl key Hkey. apply run_me_invalid; [reflexivity|].
    cbn [jwt.verify]. destruct (String.eqb_spec key (JWT_SECRET env));
      [contradiction | reflexivity].
  - intros cl key Hexp. apply run_me_invalid; [reflexivity|].
    cbn [jwt.verify]. unfold jwt.seconds.
    destruct (Z.ltb_spec (clock w / 1000) (jwt.exp cl)); [lia|].
    now rewrite andb_false_r.
  - intros cl Hexp Hf.
    rewrite (run_me_valid env w _ cl); [now rewrite Hf|].
    cbn [jwt.verify]. rewrite String.eqb_refl. unfold jwt.seconds.
    apply Z.ltb_lt in Hexp. now rewrite Hexp.
  - intros cl u Hexp Hf.
    rewrite (run_me_valid env w _ cl); [now rewrite Hf|].
    cbn [jwt.verify]. rewrite String.eqb_refl. unfold jwt.seconds.
    apply Z.ltb_lt in Hexp. now rewrite Hexp.
Qed.

Lemma current_user_requires_a_valid_session_witness :
  "forged" <> JWT_SECRET Sample.env /\
  run Sample.world
    (handle Sample.env
       (GetMe (Some (jwt.Signed
                       {| jwt.userId := 2; jwt.email := "bob@example.com";
                          jwt.verified := true; jwt.iat := 1%Z;
                          jwt.exp := 604801%Z |} "forged"))))
  = (Sample.world, [], Returned Unauthenticated_invalid) /\
  (604801 <= clock (with_clock Sample.world 604801000) / 1000)%Z /\
  run (with_clock Sample.world 604801000)
    (handle Sample.env (GetMe (Some Sample.bob_session)))
  = (with_clock Sample.world 604801000, [], Returned Unauthenticated_invalid) /\
  (clock Sample.world / 1000 < 604801)%Z /\
  findUnique (ById 9) (table Sample.world) = None /\
  run Sample.world
    (handle Sample.env
       (GetMe (Some (jwt.Signed
                       {| jwt.userId := 9; jwt.email := "gone@example.com";
                          jwt.verified := true; jwt.iat := 1%Z;
                          jwt.exp := 604801%Z |} (JWT_SECRET Sample.env)))))
  = (Sample.world, [EvFindUnique (ById 9) None], Returned Unauthenticated_unknown) /\
  findUnique (ById 2) (table Sample.world) = Some Sample.bob /\
  run Sample.world (handle Sample.env (GetMe (Some Sample.bob_session)))
  = (Sample.world, [EvFindUnique (ById 2) (Some Sample.bob)],
     Returned (json 200 true ""
                 (Some (Profile 2 "bob@example.com" None true (Some 5%Z))))).
Proof.
  assert (H : "forged" <> JWT_SECRET Sample.env) by discriminate.
  assert (Hlate : (604801 <= clock (with_clock Sample.world 604801000) / 1000)%Z).
  { vm_compute. discriminate. }
  assert (Hearly : (clock Sample.world / 1000 < 604801)%Z) by reflexivity.
  pose proof (current_user_requires_a_valid_session Sample.env Sample.world)
    as (_ & _ & Hforged & _ & Hgone & Hfound & _).
  pose proof (current_user_requires_a_valid_session Sample.env
                (with_clock Sample.world 604801000))
    as (_ & _ & _ & Hexpired & _).
  split; [exact H|]. split; [exact (Hforged _ "forged" H)|].
  split; [exact Hlate|].
  split; [exact (Hexpired {| jwt.userId := 2; jwt.email := "bob@example.com";
                             jwt.verified := true; jwt.iat := 1%Z;
                             jwt.exp := 604801%Z |} "secret" Hlate)|].
  split; [exact Hearly|]. split; [reflexivity|].
  split; [exact (Hgone {| jwt.userId := 9; jwt.email := "gone@example.com";
                          jwt.verified := true; jwt.iat := 1%Z;
                          jwt.exp := 604801%Z |} Hearly eq_refl)|].
  split; [reflexivity|].
  exact (Hfound {| jwt.userId := 2; jwt.email := "bob@example.com";
                   jwt.verified := true; jwt.iat := 1%Z;
                   jwt.exp := 604801%Z |} Sample.bob Hearly eq_refl).
Defined.

(* ================================================================== *)
(** ** The email check *)
(* ================================================================== *)

Lemma ok_or_failed_is_not_refusal (b : bool) (ok failed : Response) :
  res.status ok = 200 -> res.status failed = 500 ->
  Returned (if b then ok else failed) <> Returned InvalidInput_email.
Proof.
  intros Hok Hfailed E. injection E as E.
  apply (f_equal res.status) in E. destruct b; cbn in E; congruence.
Qed.

Lemma rejection_is_not_refusal (k : Issuance) (found : option User) :
  Returned (rejection k found) <> Returned InvalidInput_email.
Proof.
  intros E. injection E as E.
  destruct k, found; cbn [rejection] in E;
    try (apply (f_equal res.status) in E; discriminate E).
  apply (f_equal res.message) in E. cbn in E.
  apply (f_equal String.length) in E. discriminate E.
Qed.

(** C10.  Signup, login and resend apply one and the same check to the
    address: it has to be present and to contain the character [@].  A
    string that contains [@] anywhere, even ["@"] or ["a@"], is not
    refused as invalid input: the handler goes on to look it up.  A
    missing address or one without [@] is refused with [InvalidInput]
    before any lookup. *)
Theorem email_check_is_presence_and_at_sign
        (env : ProcessEnv) (w : World) (k : Issuance) :
  (forall e : string,
      Js.includes e "@" = true ->
      exists rest,
        trace (run w (handle env (request_of k (Some e))))
        = EvFindUnique (ByEmail e) (findUnique (ByEmail e) (table w)) :: rest
        /\ outcome (run w (handle env (request_of k (Some e))))
           <> Returned InvalidInput_email)
  /\ (forall e : string,
         Js.includes e "@" = false ->
         run w (handle env (request_of k (Some e)))
         = (w, [], Returned InvalidInput_email))
  /\ run w (handle env (request_of k None)) = (w, [], Returned InvalidInput_email)
  /\ (forall e : string,
         Js.includes e "@" = true <-> In "@"%char (list_ascii_of_string e))
  /\ Js.includes "@" "@" = true
  /\ Js.includes "a@" "@" = true
  /\ res.status InvalidInput_email = 400.
Proof.
  split; [|split; [|split; [|split; [|repeat split]]]].
  - intros e He. pose proof (includes_valid e He) as Hv.
    destruct (eligible k (findUnique (ByEmail e) (table w))) eqn:Ha.
    + destruct (run_issuance_issued env w k e Hv Ha)
        as (ev & u' & tbl' & nm & ok & failed & Hrun & _ & Hok & _ & _ & Hfail & _).
      rewrite Hrun. cbn [trace outcome fst snd]. eexists. split; [reflexivity|].
      now apply ok_or_failed_is_not_refusal.
    + rewrite (run_issuance_rejected env w k e Hv Ha).
      cbn [trace outcome fst snd]. eexists. split; [reflexivity|].
      apply rejection_is_not_refusal.
  - intros e He. apply run_issuance_invalid.
    unfold valid_email. rewrite He. apply andb_false_r.
  - apply run_issuance_invalid. reflexivity.
  - intros e. apply (includes_single "@"%char e).
Qed.

Lemma email_check_is_presence_and_at_sign_witness :
  Js.includes "a@" "@" = true /\
  (exists rest,
      trace (run Sample.world
               (handle Sample.env (request_of (Signup None) (Some "a@"))))
      = EvFindUnique (ByEmail "a@")
          (findUnique (ByEmail "a@") (table Sample.world)) :: rest
      /\ outcome (run Sample.world
                    (handle Sample.env (request_of (Signup None) (Some "a@"))))
         <> Returned InvalidInput_email) /\
  Js.includes "alice.example.com" "@" = false /\
  run Sample.world
    (handle Sample.env (request_of Login (Some "alice.example.com")))
  = (Sample.world, [], Returned InvalidInput_email).
Proof.
  pose proof (email_check_is_presence_and_at_sign Sample.env Sample.world
                (Signup None)) as (Hpass & _).
  pose proof (email_check_is_presence_and_at_sign Sample.env Sample.world Login)
    as (_ & Hfail & _).
  split; [reflexivity|]. split; [exact (Hpass "a@" eq_refl)|].
  split; [reflexivity|]. exact (Hfail "alice.example.com" eq_refl).
Defined.

(* ================================================================== *)
(** ** Replies *)
(* ================================================================== *)

Lemma rejection_status (k : Issuance) (found : option User) :
  In (res.status (rejection k found)) status_codes /\
  res.success (rejection k found) = false /\
  res.status (rejection k found) <> 200 /\
  res.cookie (rejection k found) = None.
Proof.
  destruct k, found; cbn; repeat split; try discriminate; tauto.
Qed.

(** X1.  Whatever the request and the state of the world, the handler returns a
    reply (no exception escapes the [try]/[catch]), the status is one of
    200, 400, 401, 404, 409 and 500, and [success] is true exactly for
    200.  The sweep returns as well. *)
Theorem every_request_is_answered (env : ProcessEnv) (w : World) (r : Request) :
  (exists resp,
      outcome (run w (handle env r)) = Returned resp /\
      In (res.status resp) status_codes /\
      (res.success resp = true <-> res.status resp = 200))
  /\ outcome (run w cleanupExpiredTokens) = Returned tt.
Proof.
  split; [|reflexivity].
  assert (Hissue : forall k email,
             exists resp,
               outcome (run w (handle env (request_of k email))) = Returned resp /\
               In (res.status resp) status_codes /\
               (res.success resp = true <-> res.status resp = 200)).
  { intros k email.
    destruct (match email with Some e => valid_email e | None => false end) eqn:Hv.
    - destruct email as [e|]; [|discriminate].
      destruct (eligible k (findUnique (ByEmail e) (table w))) eqn:Ha.
      + destruct (run_issuance_issued env w k e Hv Ha)
          as (ev & u' & tbl' & nm & ok & failed & Hrun & _ & Hok & Hoks & _ & Hf & Hfs).
        rewrite Hrun. cbn [outcome snd]. eexists. split; [reflexivity|].
        destruct (smtp_up w).
        * rewrite Hok, Hoks. cbn. tauto.
        * rewrite Hf, Hfs. cbn. split; [tauto|]. split; discriminate.
      + rewrite (run_issuance_rejected env w k e Hv Ha). cbn [outcome snd].
        eexists. split; [reflexivity|].
        destruct (rejection_status k (findUnique (ByEmail e) (table w)))
          as (Hin & Hs & Hne & _).
        split; [exact Hin|]. rewrite Hs. split; [discriminate | tauto].
    - rewrite (run_issuance_invalid env w k email Hv). cbn [outcome snd].
      eexists. split; [reflexivity|]. cbn. split; [tauto|].
      split; discriminate. }
  destruct r as [email name|email|token|email| |c].
  - exact (Hissue (Signup name) email).
  - exact (Hissue Login email).
  - cbn [handle]. destruct (Js.truthy token) eqn:Ht.
    + destruct token as [t|]; [|discriminate]. cbn [Js.truthy] in Ht.
      destruct (findFirst (active_token t (clock w)) (table w)) as [u|] eqn:Hf.
      * destruct (run_verify_accepted env w t u Ht Hf) as (u' & tbl' & _ & Hrun).
        rewrite Hrun. cbn [outcome snd]. eexists. split; [reflexivity|].
        cbn. tauto.
      * rewrite (run_verify_rejected env w t Ht Hf). cbn [outcome snd].
        eexists. split; [reflexivity|]. cbn. split; [tauto|].
        split; discriminate.
    + rewrite (run_verify_missing env w token Ht). cbn [outcome snd].
      eexists. split; [reflexivity|]. cbn. split; [tauto|]. split; discriminate.
  - exact (Hissue Resend email).
  - cbn. eexists. split; [reflexivity|]. cbn. tauto.
  - cbn [handle].
    destruct (match c with Some tok => jwt.truthy tok | None => false end) eqn:Ht.
    + destruct c as [tok|]; [|discriminate].
      destruct (jwt.verify tok (JWT_SECRET env) (clock w)) as [decoded|] eqn:Hv.
      * rewrite (run_me_valid env w tok decoded Hv). cbn [outcome snd].
        eexists. split; [reflexivity|].
        destruct (findUnique (ById (jwt.userId decoded)) (table w)); cbn;
          (split; [tauto|]); try tauto. split; discriminate.
      * rewrite (run_me_invalid env w tok Ht Hv). cbn [outcome snd].
        eexists. split; [reflexivity|]. cbn. split; [tauto|]. split; discriminate.
    + rewrite (run_me_missing env w c Ht). cbn [outcome snd].
      eexists. split; [reflexivity|]. cbn. split; [tauto|]. split; discriminate.
Qed.

(** The complete run of an issuance that passes its guards. *)
Lemma run_issuance_explicit (env : ProcessEnv) (w : World) (k : Issuance)
      (e : string) :
  valid_email e = true ->
  eligible k (findUnique (ByEmail e) (table w)) = true ->
  run w (handle env (request_of k (Some e)))
  = (with_table (drawn w 32)
       (issued_table k w e (findUnique (ByEmail e) (table w))),
     [EvFindUnique (ByEmail e) (findUnique (ByEmail e) (table w));
      issue_event k w e (findUnique (ByEmail e) (table w));
      EvSendMail
        (mailOptions env e (mail_name k (findUnique (ByEmail e) (table w)))
           (magicLinkUrl env (next_token w)))
        (smtp_up w)],
     Returned
       (if smtp_up w
        then issued_reply k (issued_row k w e (findUnique (ByEmail e) (table w)))
        else mail_failed_reply k)).
Proof.
  intros Hv Ha.
  destruct k as [name| |]; cbn [handle request_of]; unfold signup, login, resend;
    rewrite valid_email_guard, Hv; exec;
    destruct (findUnique (ByEmail e) (table w)) as [u|] eqn:Hf;
    cbn [eligible] in Ha; try discriminate.
  - apply negb_true_iff in Ha. rewrite Ha.
    destruct (update_found (ByEmail e)
                (issue_data (Some (Js.or name (user.name u))) (next_token w)
                   (next_expiry w)) _ _ Hf) as [tbl' Hu].
    exec. fold (next_token w). fold (next_expiry w).
    unfold issued_table, issue_event, issued_row. cbn [name_patch mail_name].
    rewrite Hu. exec. destruct (smtp_up w); reflexivity.
  - destruct (create_absent
                {| new_email := e; new_name := name;
                   new_magicLinkToken := Some (next_token w);
                   new_magicLinkExpires := Some (next_expiry w);
                   new_magicLinkUsed := false |} (clock w) _ Hf) as [u' Hc].
    exec. fold (next_token w). fold (next_expiry w). rewrite Hc. exec.
    unfold create in Hc.
    cbn [new_email new_name new_magicLinkToken new_magicLinkExpires
         new_magicLinkUsed] in Hc.
    rewrite Hf in Hc. inversion Hc; subst u'.
    destruct (smtp_up w); reflexivity.
  - rewrite Ha.
    destruct (update_found (ByEmail e)
                (issue_data None (next_token w) (next_expiry w)) _ _ Hf)
      as [tbl' Hu].
    exec. fold (next_token w). fold (next_expiry w).
    unfold issued_table, issue_event, issued_row. cbn [name_patch mail_name].
    rewrite Hu. exec. destruct (smtp_up w); reflexivity.
  - apply negb_true_iff in Ha. rewrite Ha.
    destruct (update_found (ByEmail e)
                (issue_data None (next_token w) (next_expiry w)) _ _ Hf)
      as [tbl' Hu].
    exec. fold (next_token w). fold (next_expiry w).
    unfold issued_table, issue_event, issued_row. cbn [name_patch mail_name].
    rewrite Hu. exec. destruct (smtp_up w); reflexivity.
Qed.

(** X2.  A session cookie is set by a verification that found a valid token and
    by nothing else: every other reply, of any handler, carries none. *)
Theorem session_cookie_only_from_verification
        (env : ProcessEnv) (w : World) (r : Request) (resp : Response) :
  outcome (run w (handle env r)) = Returned resp ->
  res.cookie resp <> None ->
  exists t, r = GetVerify (Some t) /\ token_valid t (clock w) (table w) /\
            res.status resp = 200.
Proof.
  assert (Hissue : forall k email,
             outcome (run w (handle env (request_of k email))) = Returned resp ->
             res.cookie resp = None).
  { intros k email.
    destruct (match email with Some e => valid_email e | None => false end) eqn:Hv.
    - destruct email as [e|]; [|discriminate].
      destruct (eligible k (findUnique (ByEmail e) (table w))) eqn:Ha.
      + rewrite (run_issuance_explicit env w k e Hv Ha). cbn [outcome snd].
        intros E. inversion E. destruct (smtp_up w); reflexivity.
      + rewrite (run_issuance_rejected env w k e Hv Ha). cbn [outcome snd].
        intros E. inversion E. apply rejection_status.
    - rewrite (run_issuance_invalid env w k email Hv). cbn [outcome snd].
      intros E. inversion E. reflexivity. }
  intros Hr Hc.
  destruct r as [email name|email|token|email| |c].
  - elim Hc. exact (Hissue (Signup name) email Hr).
  - elim Hc. exact (Hissue Login email Hr).
  - cbn [handle] in Hr. destruct (Js.truthy token) eqn:Ht.
    + destruct token as [t|]; [|discriminate]. cbn [Js.truthy] in Ht.
      destruct (findFirst (active_token t (clock w)) (table w)) as [u|] eqn:Hf.
      * destruct (run_verify_accepted env w t u Ht Hf) as (u' & tbl' & _ & Hrun).
        rewrite Hrun in Hr. cbn [outcome snd] in Hr. inversion Hr.
        exists t. split; [reflexivity|]. split; [|reflexivity].
        apply token_valid_iff. eauto.
      * rewrite (run_verify_rejected env w t Ht Hf) in Hr.
        inversion Hr; subst resp. now elim Hc.
    + rewrite (run_verify_missing env w token Ht) in Hr.
      inversion Hr; subst resp. now elim Hc.
  - elim Hc. exact (Hissue Resend email Hr).
  - cbn in Hr. inversion Hr; subst resp. now elim Hc.
  - cbn [handle] in Hr.
    destruct (match c with Some tok => jwt.truthy tok | None => false end) eqn:Ht.
    + destruct c as [tok|]; [|discriminate].
      destruct (jwt.verify tok (JWT_SECRET env) (clock w)) as [decoded|] eqn:Hv.
      * rewrite (run_me_valid env w tok decoded Hv) in Hr. cbn [outcome snd] in Hr.
        inversion Hr; subst resp.
        destruct (findUnique (ById (jwt.userId decoded)) (table w)); now elim Hc.
      * rewrite (run_me_invalid env w tok Ht Hv) in Hr.
        inversion Hr; subst resp. now elim Hc.
    + rewrite (run_me_missing env w c Ht) in Hr.
      inversion Hr; subst resp. now elim Hc.
Qed.

Lemma session_cookie_only_from_verification_witness :
  (exists resp,
      outcome (run Sample.world (handle Sample.env (GetVerify (Some "abc"))))
      = Returned resp /\ res.cookie resp <> None) /\
  exists t, GetVerify (Some "abc") = GetVerify (Some t) /\
            token_valid t (clock Sample.world) (table Sample.world).
Proof.
  assert (Hc : res.cookie
                 (with_cookie (session_cookie Sample.env Sample.alice 1000)
                    (json 200 true "Successfully authenticated! Welcome back!"
                       (Some (Profile 1 "alice@example.com" (Some "Alice") true
                                None)))) <> None) by discriminate.
  split.
  - eexists. split; [reflexivity | exact Hc].
  - destruct (session_cookie_only_from_verification Sample.env Sample.world
                (GetVerify (Some "abc")) _ eq_refl Hc) as (t & E & Hv & _).
    exists t. split; assumption.
Defined.

(* ================================================================== *)
(** ** Tokens *)
(* ================================================================== *)

Lemma all_hex_app (a b : string) :
  all_hex (a ++ b) = all_hex a && all_hex b.
Proof.
  induction a as [|c a IH]; [reflexivity|].
  cbn [append all_hex]. now rewrite IH, andb_assoc.
Qed.

Lemma all_hex_of_byte (b : byte) : all_hex (Js.hex_of_byte b) = true.
Proof. destruct b; vm_compute; reflexivity. Qed.

Lemma all_hex_toString (buf : list byte) : all_hex (Js.toString_hex buf) = true.
Proof.
  induction buf as [|b buf IH]; [reflexivity|].
  cbn [Js.toString_hex]. now rewrite all_hex_app, all_hex_of_byte, IH.
Qed.

Lemma byte_of_hex_of_byte (b : byte) (rest : string) :
  byte_of_hex (Js.hex_of_byte b ++ rest)%string = Some b.
Proof. destruct b; vm_compute; reflexivity. Qed.

Lemma hex_of_byte_split (b : byte) (rest : string) :
  exists x y, (Js.hex_of_byte b ++ rest)%string = String x (String y rest).
Proof. unfold Js.hex_of_byte. cbn [append]. eauto. Qed.

(** [toString("hex")] loses nothing: two buffers with the same hexadecimal
    text are the same buffer. *)
Lemma toString_hex_injective (b1 b2 : list byte) :
  Js.toString_hex b1 = Js.toString_hex b2 -> b1 = b2.
Proof.
  revert b2. induction b1 as [|x b1 IH]; intros [|y b2] H.
  - reflexivity.
  - cbn [Js.toString_hex] in H.
    destruct (hex_of_byte_split y (Js.toString_hex b2)) as (a & c & E).
    rewrite E in H. discriminate.
  - cbn [Js.toString_hex] in H.
    destruct (hex_of_byte_split x (Js.toString_hex b1)) as (a & c & E).
    rewrite E in H. discriminate.
  - cbn [Js.toString_hex] in H.
    assert (Hxy : x = y).
    { pose proof (byte_of_hex_of_byte x (Js.toString_hex b1)) as Hx.
      rewrite H, byte_of_hex_of_byte in Hx. congruence. }
    subst y. f_equal. apply IH.
    destruct (hex_of_byte_split x (Js.toString_hex b1)) as (a & c & E1).
    destruct (hex_of_byte_split x (Js.toString_hex b2)) as (a' & c' & E2).
    rewrite E1, E2 in H. congruence.
Qed.

(** X3.  Every token the handlers generate is a string of sixty-four characters,
    each one of [0-9a-f], and therefore accepted as present by Verify; two
    draws give the same token only when they drew the same thirty-two
    bytes. *)
Theorem generated_tokens_are_64_hex_digits (w w' : World) :
  String.length (next_token w) = 64
  /\ all_hex (next_token w) = true
  /\ Js.truthy (Some (next_token w)) = true
  /\ (next_token w = next_token w' -> draw w 32 = draw w' 32).
Proof.
  unfold next_token. split; [|split; [|split]].
  - now rewrite toString_hex_length, draw_length.
  - apply all_hex_toString.
  - apply token_truthy.
  - apply toString_hex_injective.
Qed.

Lemma generated_tokens_are_64_hex_digits_witness :
  next_token Sample.world = next_token (with_clock Sample.world 5) /\
  draw Sample.world 32 = draw (with_clock Sample.world 5) 32.
Proof.
  split; [reflexivity|].
  exact (proj2 (proj2 (proj2
           (generated_tokens_are_64_hex_digits Sample.world
              (with_clock Sample.world 5)))) eq_refl).
Defined.

(* ================================================================== *)
(** ** Mail *)
(* ================================================================== *)

Lemma prefix_app (s rest : string) : String.prefix s (s ++ rest)%string = true.
Proof.
  induction s as [|c s IH]; [destruct rest; reflexivity|].
  cbn [append String.prefix]. destruct (ascii_dec c c); [exact IH | congruence].
Qed.

Lemma string_app_assoc (a b c : string) :
  ((a ++ b) ++ c)%string = (a ++ b ++ c)%string.
Proof. induction a as [|x a IH]; [reflexivity|]. cbn [append]. now rewrite IH. Qed.

Lemma includes_prefix (s sub : string) :
  String.prefix sub s = true -> Js.includes s sub = true.
Proof.
  intros H. destruct s as [|c s]; cbn [Js.includes]; rewrite H; reflexivity.
Qed.

(** A string includes each piece it was put together from. *)
Lemma includes_app (a s b : string) :
  Js.includes (a ++ s ++ b)%string s = true.
Proof.
  induction a as [|c a IH].
  - cbn [append]. apply includes_prefix, prefix_app.
  - cbn [append Js.includes]. rewrite IH. apply orb_true_r.
Qed.

(** X4.  [sendMagicLinkEmail] hands exactly one mail to the transport: it goes
    to the given address, its text greets the user by name when a
    non-empty name is given and with a plain "Hi!" otherwise, and it
    contains the link.  The call returns when the transport accepted the
    mail and throws "Failed to send email" when it did not; the world is
    left as it was. *)
Theorem sendMagicLinkEmail_sends_the_link_or_throws
        (env : ProcessEnv) (w : World) (email : string) (name : option string)
        (url : string) :
  exists m,
    run w (sendMagicLinkEmail env email name url)
    = (w, [EvSendMail m (smtp_up w)],
       if smtp_up w then Returned tt else Thrown "Failed to send email")
    /\ mail_to m = email
    /\ mail_subject m = "Your Login Link"
    /\ mail_from m = Js.or (EMAIL_FROM env) (EMAIL_USER env)
    /\ Js.includes (mail_text m) url = true
    /\ String.prefix
         (if Js.truthy name
          then ("Hi " ++ match name with Some n => n | None => "" end ++ "!")%string
          else "Hi!")
         (mail_text m) = true.
Proof.
  exists (mailOptions env email name url). split; [|split; [|split; [|split; [|split]]]].
  - unfold sendMagicLinkEmail. cbn [run emit]. destruct (smtp_up w); reflexivity.
  - reflexivity.
  - reflexivity.
  - reflexivity.
  - cbn [mailOptions mail_text].
    set (greeting := match name with
                     | Some n => if Js.truthy_string n then (" " ++ n)%string else ""
                     | None => ""
                     end).
    set (tail := (Js.LF ++ Js.LF ++ "This link expires in 15 minutes." ++ Js.LF
                  ++ Js.LF
                  ++ "If you didn't request this, please ignore this email.")%string).
    replace ("Hi" ++ greeting ++ "!" ++ Js.LF ++ Js.LF
             ++ "Click this link to log in: " ++ url ++ tail)%string
      with (("Hi" ++ greeting ++ "!" ++ Js.LF ++ Js.LF
             ++ "Click this link to log in: ") ++ url ++ tail)%string.
    + apply includes_app.
    + clearbody greeting tail. now rewrite !string_app_assoc.
  - cbn [mailOptions mail_text]. destruct name as [n|]; cbn [Js.truthy].
    + destruct (Js.truthy_string n).
      * change ("Hi" ++ (" " ++ n) ++ "!" ++ Js.LF ++ Js.LF
                ++ "Click this link to log in: " ++ url ++ Js.LF ++ Js.LF
                ++ "This link expires in 15 minutes." ++ Js.LF ++ Js.LF
                ++ "If you didn't request this, please ignore this email.")%string
          with (String "H" (String "i" (String " "
                  (n ++ "!" ++ Js.LF ++ Js.LF
                   ++ "Click this link to log in: " ++ url ++ Js.LF ++ Js.LF
                   ++ "This link expires in 15 minutes." ++ Js.LF ++ Js.LF
                   ++ "If you didn't request this, please ignore this email."))))%string.
        change ("Hi " ++ n ++ "!")%string
          with (String "H" (String "i" (String " " (n ++ "!"))))%string.
        cbn [String.prefix].
        destruct (ascii_dec "H" "H"); [|congruence].
        destruct (ascii_dec "i" "i"); [|congruence].
        destruct (ascii_dec " " " "); [|congruence].
        clear. induction n as [|c n IH]; [reflexivity|].
        cbn [append String.prefix]. destruct (ascii_dec c c); [exact IH | congruence].
      * reflexivity.
    + reflexivity.
Qed.

(** X5.  A mail is handed to the transport exactly when the request is a
    signup, login or resend with a well-formed address whose account is
    eligible; it is then the last event of the run.  Verification, the
    current-user query, logout, every refused request and the sweep send
    nothing. *)
Theorem mail_is_sent_exactly_by_an_eligible_issuance
        (env : ProcessEnv) (w : World) (r : Request) :
  ((exists m d, In (EvSendMail m d) (trace (run w (handle env r)))) <->
   (exists k e, r = request_of k (Some e) /\ valid_email e = true /\
                eligible k (findUnique (ByEmail e) (table w)) = true))
  /\ List.filter is_mail (trace (run w cleanupExpiredTokens)) = [].
Proof.
  split; [|reflexivity].
  assert (Hissue : forall k email,
             (exists m d,
                 In (EvSendMail m d)
                    (trace (run w (handle env (request_of k email))))) <->
             (exists e, email = Some e /\ valid_email e = true /\
                        eligible k (findUnique (ByEmail e) (table w)) = true)).
  { intros k email.
    destruct (match email with Some e => valid_email e | None => false end) eqn:Hv.
    - destruct email as [e|]; [|discriminate].
      destruct (eligible k (findUnique (ByEmail e) (table w))) eqn:Ha.
      + rewrite (run_issuance_explicit env w k e Hv Ha). cbn [trace fst snd].
        split; [intros _; eauto|]. intros _. eexists _, _. right. right. left.
        reflexivity.
      + rewrite (run_issuance_rejected env w k e Hv Ha). cbn [trace fst snd].
        split.
        * intros (m & d & [H|[]]). discriminate H.
        * intros (e' & E & _ & Ha'). inversion E; subst e'. congruence.
    - rewrite (run_issuance_invalid env w k email Hv). cbn [trace fst snd].
      split.
      + intros (m & d & []).
      + intros (e' & E & Hv' & _). subst email. congruence. }
  destruct r as [email name|email|token|email| |c].
  - rewrite (Hissue (Signup name) email). split.
    + intros (e & -> & H). exists (Signup name), e. tauto.
    + intros (k & e & E & H). destruct k; inversion E; subst. eauto.
  - rewrite (Hissue Login email). split.
    + intros (e & -> & H). exists Login, e. tauto.
    + intros (k & e & E & H). destruct k; inversion E; subst. eauto.
  - split.
    + intros (m & d & Hin). exfalso. cbn [handle] in Hin.
      destruct (Js.truthy token) eqn:Ht.
      * destruct token as [t|]; [|discriminate]. cbn [Js.truthy] in Ht.
        destruct (findFirst (active_token t (clock w)) (table w)) as [u|] eqn:Hf.
        -- destruct (run_verify_accepted env w t u Ht Hf) as (u' & tbl' & _ & Hrun).
           rewrite Hrun in Hin. cbn in Hin.
           destruct Hin as [H|[H|[]]]; discriminate H.
        -- rewrite (run_verify_rejected env w t Ht Hf) in Hin. cbn in Hin.
           destruct Hin as [H|[]]; discriminate H.
      * rewrite (run_verify_missing env w token Ht) in Hin. destruct Hin.
    + intros (k & e & E & _). destruct k; discriminate E.
  - rewrite (Hissue Resend email). split.
    + intros (e & -> & H). exists Resend, e. tauto.
    + intros (k & e & E & H). destruct k; inversion E; subst. eauto.
  - split.
    + intros (m & d & []).
    + intros (k & e & E & _). destruct k; discriminate E.
  - split.
    + intros (m & d & Hin). exfalso. cbn [handle] in Hin.
      destruct (match c with Some tok => jwt.truthy tok | None => false end) eqn:Ht.
      * destruct c as [tok|]; [|discriminate].
        destruct (jwt.verify tok (JWT_SECRET env) (clock w)) as [decoded|] eqn:Hv.
        -- rewrite (run_me_valid env w tok decoded Hv) in Hin. cbn in Hin.
           destruct Hin as [H|[]]; discriminate H.
        -- rewrite (run_me_invalid env w tok Ht Hv) in Hin. destruct Hin.
      * rewrite (run_me_missing env w c Ht) in Hin. destruct Hin.
    + intros (k & e & E & _). destruct k; discriminate E.
Qed.

(* ================================================================== *)
(** ** Signup, login and resend, case by case *)
(* ================================================================== *)

(** X6.  [POST /api/auth/login] for an address that has no account, or whose
    account is not verified yet, is answered 404 with one and the same
    message after the lookup; nothing is written, drawn or mailed. *)
Theorem login_refuses_unknown_and_unverified
        (env : ProcessEnv) (w : World) (e : string) :
  valid_email e = true ->
  match findUnique (ByEmail e) (table w) with
  | Some u => user.verified u = false
  | None => True
  end ->
  run w (handle env (PostLogin (Some e)))
  = (w, [EvFindUnique (ByEmail e) (findUnique (ByEmail e) (table w))],
     Returned NotFound_verified)
  /\ res.status NotFound_verified = 404.
Proof.
  intros Hv Hu. split; [|reflexivity].
  change (PostLogin (Some e)) with (request_of Login (Some e)).
  rewrite (run_issuance_rejected env w Login e Hv).
  - destruct (findUnique (ByEmail e) (table w)); reflexivity.
  - destruct (findUnique (ByEmail e) (table w)) as [u|]; cbn [eligible];
      [exact Hu | reflexivity].
Qed.

Lemma login_refuses_unknown_and_unverified_witness :
  valid_email "alice@example.com" = true /\
  findUnique (ByEmail "alice@example.com") (table Sample.world)
  = Some Sample.alice /\
  user.verified Sample.alice = false /\
  run Sample.world (handle Sample.env (PostLogin (Some "alice@example.com")))
  = (Sample.world,
     [EvFindUnique (ByEmail "alice@example.com") (Some Sample.alice)],
     Returned NotFound_verified).
Proof.
  split; [reflexivity|]. split; [reflexivity|]. split; [reflexivity|].
  exact (proj1 (login_refuses_unknown_and_unverified Sample.env Sample.world
                  "alice@example.com" eq_refl eq_refl)).
Defined.

(** X7.  [POST /api/auth/resend-verification] is answered 404 when the address
    has no account and 400 "already verified" when its account is
    verified; in both cases after the lookup alone, with nothing written,
    drawn or mailed. *)
Theorem resend_refuses_unknown_and_verified
        (env : ProcessEnv) (w : World) (e : string) :
  valid_email e = true ->
  (findUnique (ByEmail e) (table w) = None ->
   run w (handle env (PostResend (Some e)))
   = (w, [EvFindUnique (ByEmail e) None], Returned NotFound_account))
  /\ (forall u, findUnique (ByEmail e) (table w) = Some u ->
                user.verified u = true ->
                run w (handle env (PostResend (Some e)))
                = (w, [EvFindUnique (ByEmail e) (Some u)],
                   Returned AlreadyVerified))
  /\ res.status NotFound_account = 404
  /\ res.status AlreadyVerified = 400.
Proof.
  intros Hv. change (PostResend (Some e)) with (request_of Resend (Some e)).
  split; [|split; [|split; reflexivity]].
  - intros Hf. rewrite (run_issuance_rejected env w Resend e Hv);
      rewrite Hf; reflexivity.
  - intros u Hf Hver. rewrite (run_issuance_rejected env w Resend e Hv);
      rewrite Hf; [reflexivity|]. cbn [eligible]. now rewrite Hver.
Qed.

Lemma resend_refuses_unknown_and_verified_witness :
  valid_email "bob@example.com" = true /\
  findUnique (ByEmail "bob@example.com") (table Sample.world) = Some Sample.bob /\
  user.verified Sample.bob = true /\
  run Sample.world (handle Sample.env (PostResend (Some "bob@example.com")))
  = (Sample.world, [EvFindUnique (ByEmail "bob@example.com") (Some Sample.bob)],
     Returned AlreadyVerified) /\
  valid_email "nobody@example.com" = true /\
  findUnique (ByEmail "nobody@example.com") (table Sample.world) = None /\
  run Sample.world (handle Sample.env (PostResend (Some "nobody@example.com")))
  = (Sample.world, [EvFindUnique (ByEmail "nobody@example.com") None],
     Returned NotFound_account).
Proof.
  split; [reflexivity|]. split; [reflexivity|]. split; [reflexivity|].
  split.
  - exact (proj1 (proj2 (resend_refuses_unknown_and_verified Sample.env
                           Sample.world "bob@example.com" eq_refl))
             Sample.bob eq_refl eq_refl).
  - split; [reflexivity|]. split; [reflexivity|].
    exact (proj1 (resend_refuses_unknown_and_verified Sample.env Sample.world
                    "nobody@example.com" eq_refl) eq_refl).
Defined.

Lemma mail_is_sent_exactly_by_an_eligible_issuance_witness :
  PostLogin (Some "bob@example.com") = request_of Login (Some "bob@example.com") /\
  valid_email "bob@example.com" = true /\
  eligible Login (findUnique (ByEmail "bob@example.com") (table Sample.world))
  = true /\
  exists m d,
    In (EvSendMail m d)
       (trace (run Sample.world
                 (handle Sample.env (PostLogin (Some "bob@example.com"))))).
Proof.
  split; [reflexivity|]. split; [reflexivity|]. split; [reflexivity|].
  apply (proj1 (mail_is_sent_exactly_by_an_eligible_issuance Sample.env
                  Sample.world (PostLogin (Some "bob@example.com")))).
  exists Login, "bob@example.com". repeat split.
Defined.

(** X8.  A signup for a well-formed address that has no account appends exactly
    one row: a new id, the address and name of the request, not verified,
    the fresh token with its fifteen-minute expiry, unused, created now.
    All rows that were there stay as they are.  The row is stored whether
    or not the mail goes out: when the transport fails the reply is 500
    and the account exists all the same. *)
Theorem signup_creates_one_unverified_account
        (env : ProcessEnv) (w : World) (e : string) (name : option string) :
  valid_email e = true ->
  findUnique (ByEmail e) (table w) = None ->
  table (final (run w (handle env (PostSignup (Some e) name))))
  = table w ++
    [ {| user.id := fresh_id (table w); user.email := e; user.name := name;
         user.verified := false; user.magicLinkToken := Some (next_token w);
         user.magicLinkExpires := Some (clock w + 15 * 60 * 1000)%Z;
         user.magicLinkUsed := false; user.createdAt := clock w |} ]
  /\ ~ In (fresh_id (table w)) (map user.id (table w))
  /\ outcome (run w (handle env (PostSignup (Some e) name)))
     = Returned
         (if smtp_up w
          then json 200 true
                 "Verification link sent to your email! Check your inbox."
                 (Some (Account e name))
          else json 500 false "Failed to create account. Please try again." None).
Proof.
  intros Hv Hf.
  change (PostSignup (Some e) name) with (request_of (Signup name) (Some e)).
  rewrite (run_issuance_explicit env w (Signup name) e Hv);
    [|rewrite Hf; reflexivity].
  rewrite Hf. cbn [final outcome fst snd table with_table issued_table issued_row].
  split; [reflexivity|]. split; [apply fresh_id_fresh|].
  destruct (smtp_up w); reflexivity.
Qed.

Lemma signup_creates_one_unverified_account_witness :
  valid_email "dave@example.com" = true /\
  findUnique (ByEmail "dave@example.com") (table Sample.offline) = None /\
  table (final (run Sample.offline
                  (handle Sample.env
                     (PostSignup (Some "dave@example.com") (Some "Dave")))))
  = table Sample.offline ++
    [ {| user.id := 4; user.email := "dave@example.com";
         user.name := Some "Dave"; user.verified := false;
         user.magicLinkToken := Some (next_token Sample.offline);
         user.magicLinkExpires := Some 901000%Z;
         user.magicLinkUsed := false; user.createdAt := 1000%Z |} ].
Proof.
  split; [reflexivity|]. split; [reflexivity|].
  exact (proj1 (signup_creates_one_unverified_account Sample.env Sample.offline
                  "dave@example.com" (Some "Dave") eq_refl eq_refl)).
Defined.

(** X9.  An issuance for an address that has an account rewrites the row of
    that account in place and no other row.  Id, address, verified flag
    and creation time are kept; the token triple is replaced; the name is
    kept by login and resend, and by signup too unless the request brings
    a non-empty name. *)
Theorem issuance_rewrites_one_row_in_place
        (env : ProcessEnv) (w : World) (k : Issuance) (e : string) (u : User) :
  valid_email e = true ->
  findUnique (ByEmail e) (table w) = Some u ->
  eligible k (Some u) = true ->
  exists before rest,
    table w = before ++ u :: rest
    /\ table (final (run w (handle env (request_of k (Some e)))))
       = before ++
         {| user.id := user.id u; user.email := user.email u;
            user.name := match k with
                         | Signup (Some n) =>
                             if Js.truthy_string n then Some n else user.name u
                         | _ => user.name u
                         end;
            user.verified := user.verified u;
            user.magicLinkToken := Some (next_token w);
            user.magicLinkExpires := Some (clock w + 15 * 60 * 1000)%Z;
            user.magicLinkUsed := false;
            user.createdAt := user.createdAt u |} :: rest.
Proof.
  intros Hv Hf Ha.
  rewrite (run_issuance_explicit env w k e Hv); [|rewrite Hf; exact Ha].
  rewrite Hf. cbn [final fst table with_table issued_table].
  destruct (update_found (ByEmail e)
              (issue_data (name_patch k u) (next_token w) (next_expiry w))
              _ _ Hf) as [tbl' Hu].
  rewrite Hu.
  destruct (update_first_found _ _ _ _ _ Hu) as (l1 & v & l2 & E1 & E2 & Hv').
  rewrite Hf in Hv'. inversion Hv'; subst v.
  exists l1, l2. split; [exact E1|]. rewrite E2. f_equal. f_equal.
  destruct k as [[n|]| |]; reflexivity.
Qed.

Lemma issuance_rewrites_one_row_in_place_witness :
  valid_email "alice@example.com" = true /\
  findUnique (ByEmail "alice@example.com") (table Sample.world)
  = Some Sample.alice /\
  eligible (Signup (Some "")) (Some Sample.alice) = true /\
  exists before rest,
    table Sample.world = before ++ Sample.alice :: rest
    /\ table (final (run Sample.world
                       (handle Sample.env
                          (request_of (Signup (Some ""))
                             (Some "alice@example.com")))))
       = before ++
         {| user.id := 1; user.email := "alice@example.com";
            user.name := Some "Alice"; user.verified := false;
            user.magicLinkToken := Some (next_token Sample.world);
            user.magicLinkExpires := Some 901000%Z;
            user.magicLinkUsed := false; user.createdAt := 0%Z |} :: rest.
Proof.
  split; [reflexivity|]. split; [reflexivity|]. split; [reflexivity|].
  exact (issuance_rewrites_one_row_in_place Sample.env Sample.world
           (Signup (Some "")) "alice@example.com" Sample.alice
           eq_refl eq_refl eq_refl).
Defined.

(* ================================================================== *)
(** ** What every action keeps *)
(* ================================================================== *)

(** The table after an action, with the data that went into the write. *)
Lemma act_table_cases (env : ProcessEnv) (w : World) (a : Action) :
  table (act env w a) = table w
  \/ (exists k e,
         valid_email e = true /\
         eligible k (findUnique (ByEmail e) (table w)) = true /\
         table (act env w a)
         = issued_table k w e (findUnique (ByEmail e) (table w)))
  \/ (exists t u u',
         findFirst (active_token t (clock w)) (table w) = Some u /\
         update (ById (user.id u)) consume_data (table w)
         = Some (u', table (act env w a)))
  \/ table (act env w a)
     = snd (updateMany (expired_token (clock w)) cleanup_data (table w)).
Proof.
  assert (Hissue : forall k email,
             table (final (run w (handle env (request_of k email)))) = table w
             \/ (exists k' e,
                    valid_email e = true /\
                    eligible k' (findUnique (ByEmail e) (table w)) = true /\
                    table (final (run w (handle env (request_of k email))))
                    = issued_table k' w e (findUnique (ByEmail e) (table w)))).
  { intros k email.
    destruct (match email with Some e => valid_email e | None => false end) eqn:Hv.
    - destruct email as [e|]; [|discriminate].
      destruct (eligible k (findUnique (ByEmail e) (table w))) eqn:Ha.
      + right. exists k, e. rewrite (run_issuance_explicit env w k e Hv Ha).
        auto.
      + left. now rewrite (run_issuance_rejected env w k e Hv Ha).
    - left. now rewrite (run_issuance_invalid env w k email Hv). }
  destruct a as [r| |t|up]; cbn [act]; auto.
  - destruct r as [email name|email|token|email| |c].
    + destruct (Hissue (Signup name) email) as [H|H]; auto.
    + destruct (Hissue Login email) as [H|H]; auto.
    + cbn [handle]. destruct (Js.truthy token) eqn:Ht.
      * destruct token as [t|]; [|discriminate]. cbn [Js.truthy] in Ht.
        destruct (findFirst (active_token t (clock w)) (table w)) as [u|] eqn:Hf.
        -- destruct (run_verify_accepted env w t u Ht Hf) as (u' & tbl' & Hu & Hrun).
           rewrite Hrun. right. right. left. exists t, u, u'. auto.
        -- left. now rewrite (run_verify_rejected env w t Ht Hf).
      * left. now rewrite (run_verify_missing env w token Ht).
    + destruct (Hissue Resend email) as [H|H]; auto.
    + left. reflexivity.
    + left. cbn [handle].
      destruct (match c with Some tok => jwt.truthy tok | None => false end) eqn:Ht.
      * destruct c as [tok|]; [|discriminate].
        destruct (jwt.verify tok (JWT_SECRET env) (clock w)) as [decoded|] eqn:Hv.
        -- now rewrite (run_me_valid env w tok decoded Hv).
        -- now rewrite (run_me_invalid env w tok Ht Hv).
      * now rewrite (run_me_missing env w c Ht).
Qed.

Lemma issued_table_shape (k : Issuance) (w : World) (e : string)
      (found : option User) :
  findUnique (ByEmail e) (table w) = found ->
  match found with
  | Some u =>
      exists before rest,
        table w = before ++ u :: rest /\
        issued_table k w e found = before ++ issued_row k w e found :: rest
  | None => issued_table k w e found = table w ++ [issued_row k w e found]
  end.
Proof.
  intros Hf. destruct found as [u|]; [|reflexivity].
  unfold issued_table, issued_row.
  destruct (update_found (ByEmail e)
              (issue_data (name_patch k u) (next_token w) (next_expiry w))
              _ _ Hf) as [tbl' Hu].
  rewrite Hu.
  destruct (update_first_found _ _ _ _ _ Hu) as (l1 & v & l2 & E1 & E2 & Hv').
  rewrite Hf in Hv'. inversion Hv'; subst v. eauto.
Qed.

Lemma same_account_refl (u : User) : same_account u u.
Proof. unfold same_account. tauto. Qed.

Lemma same_account_trans (u v x : User) :
  same_account u v -> same_account v x -> same_account u x.
Proof.
  unfold same_account. intros (A1 & A2 & A3 & A4) (B1 & B2 & B3 & B4).
  split; [congruence|]. split; [congruence|]. split; [congruence|].
  intros H. destruct (A4 H) as [Hv Hn]. destruct (B4 Hv) as [Hv' Hn'].
  split; congruence.
Qed.

Lemma Forall2_same_refl (tbl : Table) : Forall2 same_account tbl tbl.
Proof. induction tbl; constructor; auto using same_account_refl. Qed.

Lemma Forall2_same_trans (l1 l2 l3 : Table) :
  Forall2 same_account l1 l2 -> Forall2 same_account l2 l3 ->
  Forall2 same_account l1 l3.
Proof.
  intros H. revert l3. induction H as [|u v l1 l2 Huv H IH]; intros l3 H3.
  - inversion H3. constructor.
  - inversion H3; subst. constructor; [eapply same_account_trans; eauto|].
    now apply IH.
Qed.

Lemma grows_refl (tbl : Table) : grows tbl tbl.
Proof.
  exists tbl, []. split; [now rewrite app_nil_r | apply Forall2_same_refl].
Qed.

Lemma grows_trans (t1 t2 t3 : Table) : grows t1 t2 -> grows t2 t3 -> grows t1 t3.
Proof.
  intros (k1 & a1 & -> & H1) (k2 & a2 & -> & H2).
  apply Forall2_app_inv_l in H2. destruct H2 as (k2a & k2b & Ha & Hb & ->).
  exists k2a, (k2b ++ a2). split; [now rewrite app_assoc|].
  eapply Forall2_same_trans; eauto.
Qed.

Lemma grows_replace (before rest : Table) (u u' : User) :
  same_account u u' -> grows (before ++ u :: rest) (before ++ u' :: rest).
Proof.
  intros H. exists (before ++ u' :: rest), []. split; [now rewrite app_nil_r|].
  apply Forall2_app; [apply Forall2_same_refl|].
  constructor; [exact H | apply Forall2_same_refl].
Qed.

Lemma grows_map (f : User -> User) (tbl : Table) :
  (forall u, same_account u (f u)) -> grows tbl (map f tbl).
Proof.
  intros H. exists (map f tbl), []. split; [now rewrite app_nil_r|].
  induction tbl; cbn [map]; constructor; auto.
Qed.

Lemma same_account_apply (d : UserData) (u : User) :
  data_name d = None -> data_verified d <> Some false ->
  same_account u (apply_data d u).
Proof.
  intros Hn Hv. unfold same_account. cbn. rewrite Hn. cbn.
  repeat split; auto.
  destruct (data_verified d) as [[|]|]; cbn; congruence.
Qed.

(** No action removes a row, moves it, or changes its id, address or
    creation time; a verified row stays verified and keeps its name. *)
Lemma act_grows (env : ProcessEnv) (w : World) (a : Action) :
  grows (table w) (table (act env w a)).
Proof.
  destruct (act_table_cases env w a)
    as [-> | [(k & e & Hv & Ha & ->) | [(t & u & u' & Hf & Hu) | ->]]].
  - apply grows_refl.
  - pose proof (issued_table_shape k w e _ eq_refl) as Hs.
    destruct (findUnique (ByEmail e) (table w)) as [u|] eqn:Hf.
    + destruct Hs as (l1 & l2 & E1 & ->). rewrite E1. apply grows_replace.
      unfold same_account, issued_row. cbn. repeat split; auto.
      destruct k as [name| |]; cbn [eligible] in Ha; cbn [name_patch set_field];
        try reflexivity.
      apply negb_true_iff in Ha. congruence.
    + rewrite Hs. exists (table w), [issued_row k w e None].
      split; [reflexivity | apply Forall2_same_refl].
  - destruct (update_shape _ _ _ _ _ Hu) as (l1 & v & l2 & E1 & -> & _).
    rewrite E1. apply grows_replace.
    apply same_account_apply; [reflexivity | discriminate].
  - rewrite updateMany_table. apply grows_map. intros u.
    destruct (expired_token (clock w) u); [|apply same_account_refl].
    apply same_account_apply; [reflexivity | discriminate].
Qed.

Lemma history_grows (env : ProcessEnv) (l : list Action) (w : World) :
  grows (table w) (table (history env w l)).
Proof.
  revert w. induction l as [|a l IH]; intros w; [apply grows_refl|].
  cbn [history fold_left]. eapply grows_trans; [apply act_grows | apply IH].
Qed.

Lemma Forall2_nth_error (l1 l2 : Table) (i : nat) (u : User) :
  Forall2 same_account l1 l2 -> nth_error l1 i = Some u ->
  exists u', nth_error l2 i = Some u' /\ same_account u u'.
Proof.
  intros H. revert i. induction H as [|x y l1 l2 Hxy H IH]; intros i Hi.
  - destruct i; discriminate.
  - destruct i as [|i]; cbn [nth_error] in *.
    + inversion Hi; subst. eauto.
    + auto.
Qed.

(** X10.  Accounts are never deleted, moved or taken over: whatever happens, the
    row at position [i] stays at position [i] with its id, address and
    creation time, and once it is verified it stays verified and keeps its
    name. *)
Theorem accounts_are_kept
        (env : ProcessEnv) (w : World) (l : list Action) (i : nat) (u : User) :
  nth_error (table w) i = Some u ->
  exists u',
    nth_error (table (history env w l)) i = Some u'
    /\ user.id u' = user.id u
    /\ user.email u' = user.email u
    /\ user.createdAt u' = user.createdAt u
    /\ (user.verified u = true ->
        user.verified u' = true /\ user.name u' = user.name u).
Proof.
  intros Hi. destruct (history_grows env l w) as (kept & added & E & H).
  destruct (Forall2_nth_error _ _ _ _ H Hi) as (u' & Hi' & Hs).
  exists u'. split; [|exact Hs].
  rewrite E, nth_error_app1; [exact Hi'|].
  apply nth_error_Some. congruence.
Qed.

Lemma accounts_are_kept_witness :
  nth_error (table Sample.world) 1 = Some Sample.bob /\
  exists u',
    nth_error
      (table (history Sample.env Sample.world
                [Http (PostLogin (Some "bob@example.com")); Reaper;
                 Http (PostSignup (Some "bob@example.com") (Some "Mallory"))]))
      1 = Some u'
    /\ user.id u' = user.id Sample.bob
    /\ user.email u' = user.email Sample.bob
    /\ user.createdAt u' = user.createdAt Sample.bob
    /\ (user.verified Sample.bob = true ->
        user.verified u' = true /\ user.name u' = user.name Sample.bob).
Proof.
  split; [reflexivity|].
  exact (accounts_are_kept Sample.env Sample.world _ 1 Sample.bob eq_refl).
Defined.

Lemma update_emails (w : UniqueWhere) (d : UserData) (tbl tbl' : Table) (u' : User) :
  update w d tbl = Some (u', tbl') -> map user.email tbl' = map user.email tbl.
Proof.
  intros H. destruct (update_shape _ _ _ _ _ H) as (l1 & u & l2 & -> & -> & _).
  now rewrite !map_app.
Qed.

Lemma updateMany_emails (flt : User -> bool) (d : UserData) (tbl : Table) :
  map user.email (snd (updateMany flt d tbl)) = map user.email tbl.
Proof.
  rewrite updateMany_table, map_map. apply map_ext.
  intros u. now destruct (flt u).
Qed.

Lemma findUnique_email_absent (e : string) (tbl : Table) :
  findUnique (ByEmail e) tbl = None -> ~ In e (map user.email tbl).
Proof.
  intros H Hin. apply in_map_iff in Hin. destruct Hin as (u & He & Hu).
  apply (find_none _ _ H) in Hu. cbn [selects] in Hu.
  rewrite He, String.eqb_refl in Hu. discriminate.
Qed.

Lemma NoDup_snoc_string (l : list string) (x : string) :
  NoDup l -> ~ In x l -> NoDup (l ++ [x]).
Proof.
  induction l as [|y l IH]; intros Hnd Hx; cbn [app].
  - constructor; [tauto | constructor].
  - inversion Hnd; subst. constructor.
    + rewrite in_app_iff. cbn [In]. intros [H | [H | []]]; [tauto|].
      apply Hx. left. now symmetry.
    + apply IH; [assumption|]. intros H. apply Hx. now right.
Qed.

Lemma act_emails_unique (env : ProcessEnv) (w : World) (a : Action) :
  emails_unique (table w) -> emails_unique (table (act env w a)).
Proof.
  intros H. destruct (act_effect env w a) as (_ & _ & Ht). unfold emails_unique in *.
  destruct Ht as [-> | [(e & u' & ev & _ & _ & Hp) | [(i & u' & Hu) | ->]]].
  - exact H.
  - destruct Hp as [name u Hf Hu | name Hf Hc].
    + now rewrite (update_emails _ _ _ _ _ Hu).
    + destruct (create_shape _ _ _ _ _ Hc) as (-> & _ & He & _).
      rewrite map_app. cbn [map]. apply NoDup_snoc_string; [exact H|].
      rewrite He. cbn [new_email]. now apply findUnique_email_absent.
  - now rewrite (update_emails _ _ _ _ _ Hu).
  - now rewrite updateMany_emails.
Qed.

Lemma history_emails_unique (env : ProcessEnv) (l : list Action) (w : World) :
  emails_unique (table w) -> emails_unique (table (history env w l)).
Proof.
  revert w. induction l as [|a l IH]; intros w H; [exact H|].
  apply IH, act_emails_unique, H.
Qed.

(** X11.  Ids stay distinct, addresses stay distinct and every stored address
    contains [@], whatever requests are served: a signup never creates a
    second account for an address that has one. *)
Theorem accounts_stay_distinct
        (env : ProcessEnv) (w : World) (l : list Action) :
  ids_unique (table w) -> emails_unique (table w) -> emails_valid (table w) ->
  ids_unique (table (history env w l))
  /\ emails_unique (table (history env w l))
  /\ emails_valid (table (history env w l)).
Proof.
  intros H1 H2 H3. split; [|split].
  - now apply history_ids_unique.
  - now apply history_emails_unique.
  - now apply history_emails_valid.
Qed.

Lemma accounts_stay_distinct_witness :
  ids_unique (table Sample.world) /\
  emails_unique (table Sample.world) /\
  emails_valid (table Sample.world) /\
  emails_unique
    (table (history Sample.env Sample.world
              [Http (PostSignup (Some "dave@example.com") None);
               Http (PostSignup (Some "dave@example.com") (Some "Dave"))])).
Proof.
  assert (H1 : ids_unique (table Sample.world)).
  { unfold ids_unique. cbn. repeat constructor; cbn; intuition discriminate. }
  assert (H2 : emails_unique (table Sample.world)).
  { unfold emails_unique. cbn. repeat constructor; cbn; intuition discriminate. }
  assert (H3 : emails_valid (table Sample.world)).
  { unfold emails_valid. cbn [table Sample.world]. repeat constructor. }
  split; [exact H1|]. split; [exact H2|]. split; [exact H3|].
  exact (proj1 (proj2 (accounts_stay_distinct Sample.env Sample.world _ H1 H2 H3))).
Defined.

Lemma act_triple_consistent (env : ProcessEnv) (w : World) (a : Action) :
  Forall triple_consistent (table w) ->
  Forall triple_consistent (table (act env w a)).
Proof.
  intros H. destruct (act_effect env w a) as (_ & _ & Ht).
  assert (Hissue : forall name t x u,
             triple_consistent (apply_data (issue_data name t x) u)).
  { intros. unfold triple_consistent. cbn. repeat split; discriminate. }
  assert (Hconsume : forall u, triple_consistent (apply_data consume_data u)).
  { intros. unfold triple_consistent. cbn. tauto. }
  assert (Hclean : forall u, triple_consistent (apply_data cleanup_data u)).
  { intros. unfold triple_consistent. cbn. tauto. }
  destruct Ht as [-> | [(e & u' & ev & _ & _ & Hp) | [(i & u' & Hu) | ->]]].
  - exact H.
  - destruct Hp as [name u Hf Hu | name Hf Hc].
    + eapply update_Forall; [|exact Hu|exact H]. intros v _. apply Hissue.
    + destruct (create_shape _ _ _ _ _ Hc)
        as (-> & _ & _ & _ & _ & Htok & Hexp & Hused & _).
      apply Forall_app. split; [exact H|]. constructor; [|constructor].
      unfold triple_consistent. rewrite Htok, Hexp, Hused. cbn.
      repeat split; discriminate.
  - eapply update_Forall; [|exact Hu|exact H]. intros v _. apply Hconsume.
  - apply updateMany_Forall; [|exact H]. intros v _. apply Hclean.
Qed.

Lemma history_triple_consistent (env : ProcessEnv) (l : list Action) (w : World) :
  Forall triple_consistent (table w) ->
  Forall triple_consistent (table (history env w l)).
Proof.
  revert w. induction l as [|a l IH]; intros w H; [exact H|].
  apply IH, act_triple_consistent, H.
Qed.

(** X12.  In every table the server builds up from an empty one, a row marked
    used stores no token, and token and expiry are null together.  So on
    these tables the [magicLinkUsed: false] test of the verification query
    and the [magicLinkToken: { not: null }] test of the sweep never decide
    anything: a row matches the one exactly when its token is the
    presented one and its expiry lies ahead, and the other exactly when
    its expiry lies behind. *)
Theorem token_triples_stay_consistent
        (env : ProcessEnv) (w : World) (l : list Action) (u : User) :
  table w = [] ->
  In u (table (history env w l)) ->
  triple_consistent u
  /\ (forall (t : string) (now : Z),
         active_token t now u = true <->
         user.magicLinkToken u = Some t /\
         exists x, user.magicLinkExpires u = Some x /\ (now < x)%Z)
  /\ (forall now : Z,
         expired_token now u = true <->
         exists x, user.magicLinkExpires u = Some x /\ (x < now)%Z).
Proof.
  intros E Hin.
  assert (Hc : triple_consistent u).
  { assert (H : Forall triple_consistent (table (history env w l))).
    { apply history_triple_consistent. rewrite E. constructor. }
    rewrite Forall_forall in H. auto. }
  split; [exact Hc|]. destruct Hc as [Hused Hnull]. split.
  - intros t now. rewrite active_token_iff. split.
    + intros (Ht & _ & Hx). auto.
    + intros (Ht & Hx). split; [exact Ht|]. split; [|exact Hx].
      destruct (user.magicLinkUsed u); [|reflexivity].
      rewrite Hused in Ht; [discriminate | reflexivity].
  - intros now. rewrite expired_token_iff. unfold swept. split.
    + tauto.
    + intros (x & Hx & Hlt). split; [eauto|].
      intros Hn. apply Hnull in Hn. congruence.
Qed.

Lemma token_triples_stay_consistent_witness :
  table (with_table Sample.world []) = [] /\
  (exists u,
      In u (table (history Sample.env (with_table Sample.world [])
                     [Http (PostSignup (Some "dave@example.com") None)]))
      /\ triple_consistent u).
Proof.
  split; [reflexivity|].
  eexists. split.
  - left. reflexivity.
  - refine (proj1 (token_triples_stay_consistent Sample.env
                     (with_table Sample.world [])
                     [Http (PostSignup (Some "dave@example.com") None)]
                     _ eq_refl _)).
    left. reflexivity.
Defined.

(* ================================================================== *)
(** ** The sweep and the requests *)
(* ================================================================== *)

Lemma find_map (p : User -> bool) (f : User -> User) (tbl : Table) :
  (forall u, p (f u) = p u) -> find p (map f tbl) = option_map f (find p tbl).
Proof.
  intros H. induction tbl as [|u tbl IH]; [reflexivity|].
  cbn [map find]. rewrite H. destruct (p u); [reflexivity | exact IH].
Qed.

Lemma sweep_findUnique (wh : UniqueWhere) (now : Z) (tbl : Table) :
  findUnique wh (map (sweep_row now) tbl)
  = option_map (sweep_row now) (findUnique wh tbl).
Proof.
  apply find_map. intros u. unfold sweep_row.
  destruct (expired_token now u); [apply selects_apply_data | reflexivity].
Qed.

Lemma sweep_active (t : string) (now later : Z) (u : User) :
  (now <= later)%Z ->
  active_token t later (sweep_row now u) = active_token t later u /\
  (active_token t later u = true -> sweep_row now u = u).
Proof.
  intros Hle. unfold sweep_row.
  destruct (expired_token now u) eqn:E; [|split; reflexivity].
  apply expired_token_iff in E. destruct E as [(x & Hx & Hlt) _].
  assert (Hno : active_token t later u = false).
  { destruct (active_token t later u) eqn:A; [|reflexivity].
    apply active_token_iff in A. destruct A as (_ & _ & y & Hy & Hlt').
    rewrite Hx in Hy. inversion Hy; subst. lia. }
  rewrite Hno. split; [reflexivity | discriminate].
Qed.

Lemma sweep_findFirst (t : string) (now later : Z) (tbl : Table) :
  (now <= later)%Z ->
  findFirst (active_token t later) (map (sweep_row now) tbl)
  = findFirst (active_token t later) tbl.
Proof.
  intros Hle. unfold findFirst. rewrite find_map.
  - destruct (find (active_token t later) tbl) as [u|] eqn:E; [|reflexivity].
    apply find_some in E. destruct E as [_ E]. cbn [option_map].
    now rewrite (proj2 (sweep_active t now later u Hle) E).
  - intros u. apply (sweep_active t now later u Hle).
Qed.

Lemma sweep_row_account (now : Z) (u : User) :
  user.id (sweep_row now u) = user.id u /\
  user.email (sweep_row now u) = user.email u /\
  user.name (sweep_row now u) = user.name u /\
  user.verified (sweep_row now u) = user.verified u /\
  user.createdAt (sweep_row now u) = user.createdAt u /\
  apply_data consume_data (sweep_row now u) = apply_data consume_data u.
Proof.
  unfold sweep_row. destruct (expired_token now u); repeat split.
Qed.

(** X13.  The sweep is housekeeping only.  A request served at or after the
    time of a sweep gets the very same reply as it would have got had the
    sweep not run: the rows the sweep resets carry tokens that are
    expired anyway, and no reply shows the token triple. *)
Theorem sweep_is_invisible_to_requests
        (env : ProcessEnv) (w : World) (r : Request) (later : Z) :
  (clock w <= later)%Z ->
  respond env (with_clock (act env w Reaper) later) r
  = respond env (with_clock w later) r.
Proof.
  intros Hle. unfold respond. cbn [act]. rewrite run_cleanup. cbn [final fst].
  rewrite updateMany_table. fold (sweep_row (clock w)).
  change (map (fun u => if expired_token (clock w) u
                        then apply_data cleanup_data u else u) (table w))
    with (map (sweep_row (clock w)) (table w)).
  set (wa := with_clock (with_table w (map (sweep_row (clock w)) (table w))) later).
  set (wb := with_clock w later).
  assert (Ta : table wa = map (sweep_row (clock w)) (table wb)) by reflexivity.
  assert (Hissue : forall k email,
             outcome (run wa (handle env (request_of k email)))
             = outcome (run wb (handle env (request_of k email)))).
  { intros k email.
    destruct (match email with Some e => valid_email e | None => false end) eqn:Hv.
    - destruct email as [e|]; [|discriminate].
      assert (Hfa : findUnique (ByEmail e) (table wa)
                    = option_map (sweep_row (clock w))
                        (findUnique (ByEmail e) (table wb))).
      { rewrite Ta. apply sweep_findUnique. }
      assert (He : eligible k (findUnique (ByEmail e) (table wa))
                   = eligible k (findUnique (ByEmail e) (table wb))).
      { rewrite Hfa. destruct (findUnique (ByEmail e) (table wb)) as [u|];
          [|reflexivity].
        cbn [option_map]. destruct k; cbn [eligible];
          now rewrite (proj1 (proj2 (proj2 (proj2 (sweep_row_account (clock w) u))))). }
      destruct (eligible k (findUnique (ByEmail e) (table wb))) eqn:Ha.
      + rewrite (run_issuance_explicit env wa k e Hv He).
        rewrite (run_issuance_explicit env wb k e Hv Ha).
        cbn [outcome snd]. change (smtp_up wa) with (smtp_up wb).
        destruct (smtp_up wb); [|reflexivity]. f_equal.
        rewrite Hfa. unfold issued_reply. f_equal. f_equal.
        destruct (findUnique (ByEmail e) (table wb)) as [u|]; [|reflexivity].
        cbn [option_map issued_row apply_data user.email user.name].
        destruct (sweep_row_account (clock w) u) as (_ & Hem & Hnm & _).
        rewrite Hem. f_equal.
        destruct k; cbn [name_patch issue_data data_name set_field];
          now rewrite ?Hnm.
      + rewrite (run_issuance_rejected env wa k e Hv He).
        rewrite (run_issuance_rejected env wb k e Hv Ha).
        cbn [outcome snd]. rewrite Hfa.
        destruct k, (findUnique (ByEmail e) (table wb)); reflexivity.
    - rewrite (run_issuance_invalid env wa k email Hv).
      now rewrite (run_issuance_invalid env wb k email Hv). }
  destruct r as [email name|email|token|email| |c].
  - exact (Hissue (Signup name) email).
  - exact (Hissue Login email).
  - cbn [handle]. destruct (Js.truthy token) eqn:Ht.
    + destruct token as [t|]; [|discriminate]. cbn [Js.truthy] in Ht.
      assert (Hfa : findFirst (active_token t (clock wa)) (table wa)
                    = findFirst (active_token t (clock wb)) (table wb)).
      { rewrite Ta. change (clock wa) with later. change (clock wb) with later.
        now apply sweep_findFirst. }
      destruct (findFirst (active_token t (clock wb)) (table wb)) as [u|] eqn:Hf.
      * destruct (run_verify_accepted env wa t u Ht Hfa) as (ua & tbla & Hua & Hra).
        destruct (run_verify_accepted env wb t u Ht Hf) as (ub & tblb & Hub & Hrb).
        rewrite Hra, Hrb. cbn [outcome snd].
        destruct (update_finds _ _ _ _ _ Hua) as (va & Hva & -> & _).
        destruct (update_finds _ _ _ _ _ Hub) as (vb & Hvb & -> & _).
        rewrite Ta, sweep_findUnique, Hvb in Hva. cbn [option_map] in Hva.
        inversion Hva; subst va.
        now rewrite (proj2 (proj2 (proj2 (proj2 (proj2
                      (sweep_row_account (clock w) vb)))))).
      * rewrite (run_verify_rejected env wa t Ht Hfa).
        now rewrite (run_verify_rejected env wb t Ht Hf).
    + rewrite (run_verify_missing env wa token Ht).
      now rewrite (run_verify_missing env wb token Ht).
  - exact (Hissue Resend email).
  - reflexivity.
  - cbn [handle].
    destruct (match c with Some tok => jwt.truthy tok | None => false end) eqn:Ht.
    + destruct c as [tok|]; [|discriminate].
      destruct (jwt.verify tok (JWT_SECRET env) (clock wb)) as [decoded|] eqn:Hv.
      * rewrite (run_me_valid env wa tok decoded Hv).
        rewrite (run_me_valid env wb tok decoded Hv). cbn [outcome snd].
        rewrite Ta, sweep_findUnique.
        destruct (findUnique (ById (jwt.userId decoded)) (table wb)) as [u|];
          [|reflexivity].
        cbn [option_map].
        destruct (sweep_row_account (clock w) u) as (H1 & H2 & H3 & H4 & H5 & _).
        now rewrite H1, H2, H3, H4, H5.
      * rewrite (run_me_invalid env wa tok Ht Hv).
        now rewrite (run_me_invalid env wb tok Ht Hv).
    + rewrite (run_me_missing env wa c Ht).
      now rewrite (run_me_missing env wb c Ht).
Qed.

Lemma sweep_is_invisible_to_requests_witness :
  (clock (with_clock Sample.world 1000000) <= 1000001)%Z /\
  respond Sample.env
    (with_clock (act Sample.env (with_clock Sample.world 1000000) Reaper) 1000001)
    (GetVerify (Some "abc"))
  = respond Sample.env
      (with_clock (with_clock Sample.world 1000000) 1000001)
      (GetVerify (Some "abc")).
Proof.
  assert (H : (clock (with_clock Sample.world 1000000) <= 1000001)%Z).
  { cbn. lia. }
  split; [exact H|].
  exact (sweep_is_invisible_to_requests Sample.env
           (with_clock Sample.world 1000000) (GetVerify (Some "abc")) 1000001 H).
Defined.

Lemma updateMany_none (flt : User -> bool) (d : UserData) (tbl : Table) :
  Forall (fun u => flt u = false) tbl -> updateMany flt d tbl = (0, tbl).
Proof.
  intros H. unfold updateMany.
  induction H as [|u l Hu H IH]; [reflexivity|].
  cbn [List.filter map]. rewrite Hu. injection IH as Hc Hm.
  now rewrite Hc, Hm.
Qed.

(** X14.  After a sweep there is nothing left for a sweep at the same time: no
    row has an expired token, and a second sweep rewrites no row and
    leaves the world as it is. *)
Theorem sweep_leaves_nothing_to_sweep (env : ProcessEnv) (w : World) :
  Forall (fun u => expired_token (clock w) u = false) (table (act env w Reaper))
  /\ run (act env w Reaper) cleanupExpiredTokens
     = (act env w Reaper, [EvUpdateMany cleanup_data 0], Returned tt).
Proof.
  cbn [act]. rewrite run_cleanup. cbn [final fst].
  rewrite updateMany_table.
  change (map (fun u => if expired_token (clock w) u
                        then apply_data cleanup_data u else u) (table w))
    with (map (sweep_row (clock w)) (table w)).
  assert (H : Forall (fun u => expired_token (clock w) u = false)
                (map (sweep_row (clock w)) (table w))).
  { apply Forall_map, Forall_forall. intros u _. unfold sweep_row.
    destruct (expired_token (clock w) u) eqn:E; [reflexivity | exact E]. }
  split; [exact H|].
  rewrite run_cleanup. cbn [table with_table clock].
  assert (E : updateMany (expired_token (clock w)) cleanup_data
                (map (sweep_row (clock w)) (table w))
              = (0, map (sweep_row (clock w)) (table w))).
  { apply updateMany_none, H. }
  rewrite E. reflexivity.
Qed.

(* ================================================================== *)
(** ** From the link to the session *)
(* ================================================================== *)

Lemma In_same_account (l1 l2 : Table) (u : User) :
  Forall2 same_account l1 l2 -> In u l1 ->
  exists u', In u' l2 /\ same_account u u'.
Proof.
  intros H. induction H as [|x y l1 l2 Hxy H IH]; intros Hin; [contradiction|].
  destruct Hin as [->|Hin].
  - exists y. split; [now left | exact Hxy].
  - destruct (IH Hin) as (u' & Hu' & Hs). exists u'. split; [now right | exact Hs].
Qed.

(** X15.  The credential a verification hands out is the one [GET /api/me]
    accepts: for seven days from the second it was signed, and whatever
    the server does meanwhile (other logins, sweeps, logout included), it
    is answered with the profile of the verified user; from then on it is
    refused as invalid.  The table is assumed to have its primary key. *)
Theorem session_is_accepted_for_seven_days
        (env : ProcessEnv) (w : World) (t : string) (u : User)
        (between : list Action) :
  ids_unique (table w) ->
  Js.truthy_string t = true ->
  findFirst (active_token t (clock w)) (table w) = Some u ->
  exists resp ck,
    respond env w (GetVerify (Some t)) = Returned resp
    /\ res.cookie resp = Some ck
    /\ ((clock (history env (act env w (Http (GetVerify (Some t)))) between) / 1000
         < clock w / 1000 + 7 * 24 * 60 * 60)%Z ->
        respond env (history env (act env w (Http (GetVerify (Some t)))) between)
          (GetMe (Some (cookie_value ck)))
        = Returned
            (json 200 true ""
               (Some (Profile (user.id u) (user.email u) (user.name u) true
                        (Some (user.createdAt u))))))
    /\ ((clock w / 1000 + 7 * 24 * 60 * 60
         <= clock (history env (act env w (Http (GetVerify (Some t)))) between) / 1000)%Z ->
        respond env (history env (act env w (Http (GetVerify (Some t)))) between)
          (GetMe (Some (cookie_value ck)))
        = Returned Unauthenticated_invalid).
Proof.
  intros Hid Ht Hf.
  destruct (run_verify_accepted env w t u Ht Hf) as (u1 & tbl1 & Hu & Hrun).
  set (w1 := act env w (Http (GetVerify (Some t)))).
  set (w2 := history env w1 between).
  assert (Hw1 : table w1 = tbl1).
  { unfold w1. cbn [act handle]. now rewrite Hrun. }
  destruct (findFirst_Some _ _ _ Hf) as [Hin _].
  destruct (update_finds _ _ _ _ _ Hu) as (u0 & Hf0 & Hu1 & Hf1).
  rewrite (findUnique_by_id _ _ Hid Hin) in Hf0. inversion Hf0; subst u0.
  assert (Hin1 : In u1 (table w1)).
  { rewrite Hw1. exact (proj1 (findUnique_Some _ _ _ Hf1)). }
  destruct (history_grows env between w1) as (kept & added & E & H).
  destruct (In_same_account _ _ _ H Hin1) as (u2 & Hin2 & Hid2 & Hem2 & Hcr2 & Hver2).
  assert (Hver1 : user.verified u1 = true) by (rewrite Hu1; reflexivity).
  destruct (Hver2 Hver1) as [Hv2 Hn2].
  assert (Hid' : ids_unique (table w2)).
  { apply history_ids_unique, act_ids_unique, Hid. }
  assert (Hf2 : findUnique (ById (user.id u)) (table w2) = Some u2).
  { replace (user.id u) with (user.id u2).
    - apply findUnique_by_id; [exact Hid'|]. fold w2 in E. rewrite E.
      apply in_or_app. now left.
    - rewrite Hid2, Hu1. reflexivity. }
  eexists _, _. unfold respond at 1. cbn [handle]. rewrite Hrun.
  cbn [outcome snd]. split; [reflexivity|]. split; [reflexivity|].
  cbn [cookie_value session_cookie]. unfold respond. cbn [handle]. split.
  - intros Hlt.
    rewrite (run_me_valid env w2 _
               {| jwt.userId := user.id u; jwt.email := user.email u;
                  jwt.verified := true; jwt.iat := jwt.seconds (clock w);
                  jwt.exp := (jwt.seconds (clock w) + jwt.seven_days)%Z |}).
    + cbn [outcome snd jwt.userId]. rewrite Hf2.
      rewrite Hid2, Hem2, Hcr2, Hv2, Hn2, Hu1. reflexivity.
    + unfold jwt.sign. cbn [jwt.verify jwt.exp]. rewrite String.eqb_refl.
      cbn [andb]. unfold jwt.seconds, jwt.seven_days in *.
      apply Z.ltb_lt in Hlt. now rewrite Hlt.
  - intros Hge. rewrite run_me_invalid; [reflexivity | reflexivity |].
    unfold jwt.sign. cbn [jwt.verify jwt.exp]. unfold jwt.seconds, jwt.seven_days.
    destruct (Z.ltb_spec (clock w2 / 1000) (clock w / 1000 + 7 * 24 * 60 * 60));
      [lia|]. now rewrite andb_false_r.
Qed.

Lemma session_is_accepted_for_seven_days_witness :
  ids_unique (table Sample.world) /\
  Js.truthy_string "abc" = true /\
  findFirst (active_token "abc" (clock Sample.world)) (table Sample.world)
  = Some Sample.alice /\
  exists resp ck,
    respond Sample.env Sample.world (GetVerify (Some "abc")) = Returned resp
    /\ res.cookie resp = Some ck
    /\ respond Sample.env
         (history Sample.env
            (act Sample.env Sample.world (Http (GetVerify (Some "abc"))))
            [Http PostLogout; Tick 86400000])
         (GetMe (Some (cookie_value ck)))
       = Returned
           (json 200 true ""
              (Some (Profile 1 "alice@example.com" (Some "Alice") true
                       (Some 0%Z)))).
Proof.
  assert (Hid : ids_unique (table Sample.world)).
  { unfold ids_unique. cbn. repeat constructor; cbn; intuition discriminate. }
  split; [exact Hid|]. split; [reflexivity|]. split; [reflexivity|].
  destruct (session_is_accepted_for_seven_days Sample.env Sample.world "abc"
              Sample.alice [Http PostLogout; Tick 86400000] Hid eq_refl eq_refl)
    as (resp & ck & Hr & Hc & Hyes & _).
  exists resp, ck. split; [exact Hr|]. split; [exact Hc|].
  apply Hyes. vm_compute. reflexivity.
Defined.

Lemma unheld_inactive (t : string) (now : Z) (tbl : Table) :
  unheld t tbl -> Forall (fun u => active_token t now u = false) tbl.
Proof.
  intros H. apply Forall_forall. intros u Hin.
  apply (proj1 (findFirst_None _ _) (unheld_rejects t now tbl H) u Hin).
Qed.

Lemma findFirst_middle (p : User -> bool) (before rest : Table) (row : User) :
  Forall (fun u => p u = false) before ->
  Forall (fun u => p u = false) rest ->
  findFirst p (before ++ row :: rest) = if p row then Some row else None.
Proof.
  intros Hb Hr. unfold findFirst. induction Hb as [|u before Hu Hb IH].
  - cbn [app find]. destruct (p row); [reflexivity|].
    apply findFirst_None. intros u Hin. rewrite Forall_forall in Hr. auto.
  - cbn [app find]. now rewrite Hu.
Qed.

Lemma issued_row_fields (k : Issuance) (w : World) (e : string)
      (found : option User) :
  findUnique (ByEmail e) (table w) = found ->
  user.email (issued_row k w e found) = e /\
  user.magicLinkToken (issued_row k w e found) = Some (next_token w) /\
  user.magicLinkExpires (issued_row k w e found) = Some (next_expiry w) /\
  user.magicLinkUsed (issued_row k w e found) = false.
Proof.
  intros Hf. destruct found as [u|]; cbn; repeat split.
  apply findUnique_Some in Hf. destruct Hf as [_ He].
  cbn [selects] in He. now apply String.eqb_eq in He.
Qed.

Lemma issued_table_findFirst (k : Issuance) (w : World) (e : string) (now : Z) :
  unheld (next_token w) (table w) ->
  findFirst (active_token (next_token w) now)
    (issued_table k w e (findUnique (ByEmail e) (table w)))
  = (if active_token (next_token w) now
          (issued_row k w e (findUnique (ByEmail e) (table w)))
     then Some (issued_row k w e (findUnique (ByEmail e) (table w)))
     else None)
  /\ In (issued_row k w e (findUnique (ByEmail e) (table w)))
        (issued_table k w e (findUnique (ByEmail e) (table w))).
Proof.
  intros Hun.
  pose proof (issued_table_shape k w e _ eq_refl) as Hs.
  pose proof (unheld_inactive _ now _ Hun) as Hin.
  destruct (findUnique (ByEmail e) (table w)) as [u|].
  - destruct Hs as (l1 & l2 & E1 & E2). rewrite E2.
    rewrite E1 in Hin. apply Forall_app in Hin. destruct Hin as [H1 H2].
    inversion H2; subst. split.
    + now apply findFirst_middle.
    + apply in_or_app. right. now left.
  - rewrite Hs. split.
    + apply findFirst_middle; [exact Hin | constructor].
    + apply in_or_app. right. now left.
Qed.

(** X16.  The link an issuance stores opens the account it was stored for,
    until it expires.  After a signup, login or resend that passed its
    guards, whether or not the mail went out, a verification of the new
    token is accepted at every clock reading strictly before the issuance
    plus fifteen minutes and answers with that account, now verified; at
    that instant and later it is refused.  The table is assumed to have
    its primary key and no row already holding the new token. *)
Theorem issued_link_works_until_it_expires
        (env : ProcessEnv) (w : World) (k : Issuance) (e : string) (now : Z) :
  valid_email e = true ->
  eligible k (findUnique (ByEmail e) (table w)) = true ->
  ids_unique (table w) ->
  unheld (next_token w) (table w) ->
  ((now < clock w + 15 * 60 * 1000)%Z ->
   exists resp,
     respond env
       (with_clock (act env w (Http (request_of k (Some e)))) now)
       (GetVerify (Some (next_token w)))
     = Returned resp
     /\ res.status resp = 200
     /\ res.data resp
        = Some (Profile
                  (user.id (issued_row k w e (findUnique (ByEmail e) (table w))))
                  e
                  (user.name (issued_row k w e (findUnique (ByEmail e) (table w))))
                  true None))
  /\ ((clock w + 15 * 60 * 1000 <= now)%Z ->
      respond env
        (with_clock (act env w (Http (request_of k (Some e)))) now)
        (GetVerify (Some (next_token w)))
      = Returned InvalidOrExpiredToken).
Proof.
  intros Hv Ha Hid Hun.
  set (found := findUnique (ByEmail e) (table w)) in *.
  set (row := issued_row k w e found).
  set (w1 := with_clock (act env w (Http (request_of k (Some e)))) now).
  assert (Hid1 : ids_unique (table w1)).
  { exact (act_ids_unique env w (Http (request_of k (Some e))) Hid). }
  assert (Htbl : table w1 = issued_table k w e found).
  { unfold w1. cbn [table with_clock act].
    now rewrite (run_issuance_explicit env w k e Hv Ha). }
  destruct (issued_row_fields k w e found eq_refl) as (Hem & Htok & Hexp & Hused).
  fold row in Hem, Htok, Hexp, Hused.
  assert (Hact : active_token (next_token w) now row
                 = (now <? clock w + 15 * 60 * 1000)%Z).
  { unfold active_token. rewrite Htok, Hexp, Hused, String.eqb_refl. reflexivity. }
  assert (Hfind : findFirst (active_token (next_token w) now) (table w1)
                  = (if (now <? clock w + 15 * 60 * 1000)%Z
                     then Some row else None)
                  /\ In row (table w1)).
  { rewrite Htbl, <- Hact. apply issued_table_findFirst, Hun. }
  destruct Hfind as [Hfind Hinrow].
  assert (Ht : Js.truthy_string (next_token w) = true) by apply token_truthy.
  unfold respond. cbn [handle]. fold w1. split.
  - intros Hlt. apply Z.ltb_lt in Hlt. rewrite Hlt in Hfind.
    change now with (clock w1) in Hfind.
    destruct (run_verify_accepted env w1 _ row Ht Hfind) as (u' & tbl' & Hu & Hrun).
    rewrite Hrun. cbn [outcome snd]. eexists. split; [reflexivity|].
    split; [reflexivity|].
    destruct (update_finds _ _ _ _ _ Hu) as (u0 & Hf0 & -> & _).
    rewrite (findUnique_by_id _ _ Hid1 Hinrow) in Hf0. inversion Hf0; subst u0.
    cbn. now rewrite Hem.
  - intros Hge. apply Z.ltb_ge in Hge. rewrite Hge in Hfind.
    change now with (clock w1) in Hfind.
    now rewrite (run_verify_rejected env w1 _ Ht Hfind).
Qed.

Lemma issued_link_works_until_it_expires_witness :
  valid_email "dave@example.com" = true /\
  eligible (Signup (Some "Dave"))
    (findUnique (ByEmail "dave@example.com") (table Sample.offline)) = true /\
  ids_unique (table Sample.offline) /\
  unheld (next_token Sample.offline) (table Sample.offline) /\
  (900999 < clock Sample.offline + 15 * 60 * 1000)%Z /\
  (exists resp,
      respond Sample.env
        (with_clock
           (act Sample.env Sample.offline
              (Http (request_of (Signup (Some "Dave")) (Some "dave@example.com"))))
           900999)
        (GetVerify (Some (next_token Sample.offline)))
      = Returned resp
      /\ res.status resp = 200
      /\ res.data resp
         = Some (Profile 4 "dave@example.com" (Some "Dave") true None)) /\
  (clock Sample.offline + 15 * 60 * 1000 <= 901000)%Z /\
  respond Sample.env
    (with_clock
       (act Sample.env Sample.offline
          (Http (request_of (Signup (Some "Dave")) (Some "dave@example.com"))))
       901000)
    (GetVerify (Some (next_token Sample.offline)))
  = Returned InvalidOrExpiredToken.
Proof.
  assert (Hid : ids_unique (table Sample.offline)).
  { unfold ids_unique. cbn. repeat constructor; cbn; intuition discriminate. }
  assert (Hun : unheld (next_token Sample.offline) (table Sample.offline)).
  { unfold unheld. cbn [table Sample.offline Sample.world with_smtp].
    repeat constructor; discriminate. }
  assert (H1 : (900999 < clock Sample.offline + 15 * 60 * 1000)%Z) by reflexivity.
  assert (H2 : (clock Sample.offline + 15 * 60 * 1000 <= 901000)%Z).
  { vm_compute. discriminate. }
  split; [reflexivity|]. split; [reflexivity|]. split; [exact Hid|].
  split; [exact Hun|]. split; [exact H1|].
  split.
  - exact (proj1 (issued_link_works_until_it_expires Sample.env Sample.offline
                    (Signup (Some "Dave")) "dave@example.com" 900999
                    eq_refl eq_refl Hid Hun) H1).
  - split; [exact H2|].
    exact (proj2 (issued_link_works_until_it_expires Sample.env Sample.offline
                    (Signup (Some "Dave")) "dave@example.com" 901000
                    eq_refl eq_refl Hid Hun) H2).
Defined.

(* ================================================================== *)
(** ** An issuance in flight *)
(* ================================================================== *)

(** The turns of an issuance for an existing, eligible account [u]: it
    suspends at the lookup; resumed, it draws the token, reads the clock
    and suspends at the write; resumed again, it writes and suspends at
    the mail; resumed a last time, it sends the mail and replies. *)
Lemma issuance_turns (env : ProcessEnv) (k : Issuance) (e : string) (u : User)
      (w : World) :
  valid_email e = true ->
  eligible k (Some u) = true ->
  exists p0,
    settle w (handle env (request_of k (Some e))) = (w, p0) /\
    forall wA,
      findUnique (ByEmail e) (table wA) = Some u ->
      exists p1,
        resume wA p0
        = (drawn wA 32, [EvFindUnique (ByEmail e) (Some u)], p1) /\
        forall wB rowB tblB,
          update (ByEmail e)
                 (issue_data (name_patch k u) (next_token wA) (next_expiry wA))
                 (table wB) = Some (rowB, tblB) ->
          exists p2,
            resume wB p1
            = (with_table wB tblB,
               [EvUpdate (ByEmail e)
                  (issue_data (name_patch k u) (next_token wA) (next_expiry wA))
                  (Some rowB)], p2) /\
            forall wC,
              exists reply,
                resume wC p2
                = (wC,
                   [EvSendMail
                      (mailOptions env e (mail_name k (Some u))
                         (magicLinkUrl env (next_token wA)))
                      (smtp_up wC)],
                   Ret reply) /\
                (smtp_up wC = true ->
                 res.status reply = 200 /\ res.success reply = true) /\
                (smtp_up wC = false -> res.status reply = 500).
Proof.
  intros Hv Ha.
  destruct k as [name| |]; cbn [handle request_of]; unfold signup, login, resend;
    rewrite valid_email_guard, Hv; cbn [negb try_catch settle];
    (eexists; split; [reflexivity|]);
    intros wA Hf; unfold resume; cbn [perform]; rewrite Hf;
    cbn [eligible] in Ha;
    rewrite ?Ha, ?(proj1 (negb_true_iff _) Ha);
    cbn [negb try_catch prisma_update settle];
    (eexists; split; [reflexivity|]);
    intros wB rowB tblB Hu; unfold resume; cbn [perform];
    fold (next_token wA); fold (next_expiry wA);
    cbn [name_patch clock drawn] in Hu |- *;
    fold (next_expiry wA) in Hu |- *; rewrite Hu;
    cbn [try_catch bind sendMagicLinkEmail settle];
    (eexists; split; [reflexivity|]);
    intros wC; unfold resume; cbn [perform mail_name];
    destruct (smtp_up wC); cbn [try_catch settle];
    (eexists; split; [reflexivity|]); split; intros E; try discriminate E;
    try (split; reflexivity); reflexivity.
Qed.

(** X17.  An issuance that runs between the lookup and the write of a
    verification for the same account loses its link.  The verification
    looks the old token up; the issuance then stores a new token, mails
    the link and replies 200; the verification then writes by id and
    clears the row.  Both requests are told they succeeded, the account
    ends up without a token, and the link that was just mailed is refused
    from then on, although it was never used and has not expired.  The
    table is assumed to have its primary key and no row already holding
    the new token. *)
Theorem issuance_between_lookup_and_write_loses_its_link
        (env : ProcessEnv) (w : World) (k : Issuance) (e t : string) (u : User) :
  ids_unique (table w) ->
  unheld (next_token w) (table w) ->
  Js.truthy_string t = true ->
  valid_email e = true ->
  findFirst (active_token t (clock w)) (table w) = Some u ->
  findUnique (ByEmail e) (table w) = Some u ->
  eligible k (Some u) = true ->
  exists s rv ri row,
    s = interleave env {| world := w; pool := [] |}
          [Arrive (GetVerify (Some t)); Arrive (request_of k (Some e));
           Resume 0; Resume 1; Resume 1; Resume 1; Resume 0]
    /\ response_of s 0 = Some rv /\ res.status rv = 200
    /\ response_of s 1 = Some ri
    /\ (smtp_up w = true -> res.status ri = 200)
    /\ findUnique (ByEmail e) (table (world s)) = Some row
    /\ user.magicLinkToken row = None
    /\ forall now : Z,
         respond env (with_clock (world s) now) (GetVerify (Some (next_token w)))
         = Returned InvalidOrExpiredToken.
Proof.
  intros Hid Hun Ht Hv Hf Hfe Ha.
  destruct (verify_arrives env w t Ht) as (pv & Hpv & Hlook).
  destruct (issuance_turns env k e u w Hv Ha) as (p0 & Hp0 & Hturn).
  pose proof (Hlook w) as L0. rewrite Hf in L0. destruct L0 as (pv' & Hres0 & Hacc).
  destruct (Hturn w Hfe) as (p1 & Hr1 & Hnext).
  destruct (update_found (ByEmail e)
              (issue_data (name_patch k u) (next_token w) (next_expiry w))
              _ _ Hfe) as (tblB & Hu).
  destruct (Hnext (drawn w 32) _ tblB Hu) as (p2 & Hr2 & Hmail).
  destruct (Hmail (with_table (drawn w 32) tblB)) as (reply & Hr3 & Hok & _).
  (* the table after the issuance *)
  destruct (update_first_found _ _ _ _ _ Hu) as (l1 & v & l2 & E1 & E2 & Hv').
  rewrite Hfe in Hv'. inversion Hv'; subst v. clear Hv'.
  set (rowB := apply_data
                 (issue_data (name_patch k u) (next_token w) (next_expiry w)) u)
    in *.
  assert (HidB : ids_unique tblB).
  { unfold ids_unique. now rewrite (update_ids _ _ _ _ _ Hu). }
  assert (HinB : In rowB tblB).
  { rewrite E2. apply in_or_app. right. now left. }
  pose proof (findUnique_by_id tblB rowB HidB HinB) as HfB.
  change (user.id rowB) with (user.id u) in HfB.
  destruct (update_found _ consume_data _ _ HfB) as (tblC & HuC).
  destruct (Hacc (with_table (drawn w 32) tblB) _ tblC HuC)
    as (rv & Hr4 & Hs4 & _).
  pose proof (update_by_id _ _ _ _ _ HidB HuC) as EC.
  assert (HunC : unheld (next_token w) tblC).
  { rewrite EC, E2. unfold unheld in *. rewrite E1 in Hun.
    apply Forall_app in Hun. destruct Hun as [H1 H2]. inversion H2; subst.
    apply Forall_map, Forall_app. split; [|constructor].
    - eapply Forall_impl; [|exact H1]. intros x Hx.
      destruct (Nat.eqb (user.id x) (user.id u)); [discriminate | exact Hx].
    - change (user.id rowB) with (user.id u). rewrite Nat.eqb_refl. discriminate.
    - eapply Forall_impl; [|eassumption]. intros x Hx.
      destruct (Nat.eqb (user.id x) (user.id u)); [discriminate | exact Hx]. }
  assert (HfC : findUnique (ByEmail e) tblC
                = Some (apply_data consume_data rowB)).
  { destruct (update_finds _ _ _ _ _ Hu) as (u0 & _ & _ & HfeB).
    rewrite EC. unfold findUnique. rewrite find_map.
    - fold (findUnique (ByEmail e) tblB). rewrite HfeB. cbn [option_map].
      change (user.id rowB) with (user.id u). now rewrite Nat.eqb_refl.
    - intros x. destruct (Nat.eqb (user.id x) (user.id u));
        [apply selects_apply_data | reflexivity]. }
  eexists _, rv, reply, _. split; [reflexivity|].
  unfold interleave. cbn [fold_left].
  rewrite (turn_arrive env w w [] _ pv Hpv). cbn [app].
  rewrite (turn_arrive env w w [pv] _ p0 Hp0). cbn [app].
  rewrite (turn_resume_first env _ _ _ _ _ _ Hres0).
  rewrite (turn_resume_second env _ _ _ _ _ _ Hr1).
  rewrite (turn_resume_second env _ _ _ _ _ _ Hr2).
  rewrite (turn_resume_second env _ _ _ _ _ _ Hr3).
  rewrite (turn_resume_first env _ _ _ _ _ _ Hr4).
  cbn [response_of nth_error pool world table with_table].
  split; [reflexivity|]. split; [exact Hs4|]. split; [reflexivity|].
  split; [intros Hup; apply Hok; exact Hup|].
  split; [exact HfC|]. split; [reflexivity|].
  intros now. unfold respond. cbn [handle].
  rewrite (run_verify_rejected env _ _ (token_truthy w)); [reflexivity|].
  apply unheld_rejects. exact HunC.
Qed.

Lemma issuance_between_lookup_and_write_loses_its_link_witness :
  ids_unique (table Sample.world) /\
  unheld (next_token Sample.world) (table Sample.world) /\
  Js.truthy_string "abc" = true /\
  valid_email "alice@example.com" = true /\
  findFirst (active_token "abc" (clock Sample.world)) (table Sample.world)
  = Some Sample.alice /\
  findUnique (ByEmail "alice@example.com") (table Sample.world)
  = Some Sample.alice /\
  eligible Resend (Some Sample.alice) = true /\
  exists s rv ri row,
    s = interleave Sample.env {| world := Sample.world; pool := [] |}
          [Arrive (GetVerify (Some "abc"));
           Arrive (request_of Resend (Some "alice@example.com"));
           Resume 0; Resume 1; Resume 1; Resume 1; Resume 0]
    /\ response_of s 0 = Some rv /\ res.status rv = 200
    /\ response_of s 1 = Some ri
    /\ (smtp_up Sample.world = true -> res.status ri = 200)
    /\ findUnique (ByEmail "alice@example.com") (table (world s)) = Some row
    /\ user.magicLinkToken row = None
    /\ forall now : Z,
         respond Sample.env (with_clock (world s) now)
           (GetVerify (Some (next_token Sample.world)))
         = Returned InvalidOrExpiredToken.
Proof.
  assert (Hid : ids_unique (table Sample.world)).
  { unfold ids_unique. cbn. repeat constructor; cbn; intuition discriminate. }
  assert (Hun : unheld (next_token Sample.world) (table Sample.world)).
  { unfold unheld. cbn [table Sample.world]. repeat constructor; discriminate. }
  split; [exact Hid|]. split; [exact Hun|].
  split; [reflexivity|]. split; [reflexivity|]. split; [reflexivity|].
  split; [reflexivity|]. split; [reflexivity|].
  exact (issuance_between_lookup_and_write_loses_its_link Sample.env Sample.world
           Resend "alice@example.com" "abc" Sample.alice
           Hid Hun eq_refl eq_refl eq_refl eq_refl eq_refl).
Defined.

(** The turns of a signup for an address the lookup does not find: it
    draws the token, reads the clock and suspends at the [create]; when
    the database accepts the row it goes on to the mail, and when the
    database rejects it (the address has been taken meanwhile) the
    exception is caught and the reply is 500. *)
Lemma signup_turns_new (env : ProcessEnv) (e : string) (name : option string)
      (w : World) :
  valid_email e = true ->
  exists p0,
    settle w (handle env (PostSignup (Some e) name)) = (w, p0) /\
    forall wA,
      findUnique (ByEmail e) (table wA) = None ->
      exists p1,
        resume wA p0 = (drawn wA 32, [EvFindUnique (ByEmail e) None], p1) /\
        forall wB,
          match create {| new_email := e; new_name := name;
                          new_magicLinkToken := Some (next_token wA);
                          new_magicLinkExpires := Some (next_expiry wA);
                          new_magicLinkUsed := false |} (clock wB) (table wB) with
          | Some (row, tbl) =>
              exists p2,
                fst (fst (resume wB p1)) = with_table wB tbl /\
                snd (resume wB p1) = p2 /\
                forall wC,
                  exists reply,
                    fst (fst (resume wC p2)) = wC /\
                    snd (resume wC p2) = Ret reply /\
                    (smtp_up wC = true -> res.status reply = 200) /\
                    (smtp_up wC = false -> res.status reply = 500)
          | None =>
              fst (fst (resume wB p1)) = wB /\
              snd (resume wB p1)
              = Ret (json 500 false "Failed to create account. Please try again."
                       None)
          end.
Proof.
  intros Hv. cbn [handle]. unfold signup. rewrite valid_email_guard, Hv.
  cbn [negb try_catch settle]. eexists. split; [reflexivity|].
  intros wA Hf. unfold resume. cbn [perform]. rewrite Hf.
  cbn [try_catch prisma_create settle]. eexists. split; [reflexivity|].
  intros wB. unfold resume. cbn [perform].
  fold (next_token wA). cbn [clock drawn]. fold (next_expiry wA).
  destruct (create _ (clock wB) (table wB)) as [[row tbl]|].
  - cbn [try_catch bind sendMagicLinkEmail settle fst snd].
    eexists. split; [reflexivity|]. split; [reflexivity|].
    intros wC. unfold resume. cbn [perform].
    destruct (smtp_up wC); cbn [try_catch settle fst snd];
      (eexists; split; [reflexivity|]; split; [reflexivity|]);
      split; intros E; try discriminate E; reflexivity.
  - cbn [try_catch settle fst snd]. split; reflexivity.
Qed.

Lemma turn_resume_first_parts (env : ProcessEnv) (w : World)
      (p0 p1 : Prog Response) :
  turn env {| world := w; pool := [p0; p1] |} (Resume 0)
  = {| world := fst (fst (resume w p0)); pool := [snd (resume w p0); p1] |}.
Proof.
  cbn [turn nth_error pool world]. destruct (resume w p0) as [[w' evs] p0'].
  reflexivity.
Qed.

Lemma turn_resume_second_parts (env : ProcessEnv) (w : World)
      (p0 p1 : Prog Response) :
  turn env {| world := w; pool := [p0; p1] |} (Resume 1)
  = {| world := fst (fst (resume w p1)); pool := [p0; snd (resume w p1)] |}.
Proof.
  cbn [turn nth_error pool world]. destruct (resume w p1) as [[w' evs] p1'].
  reflexivity.
Qed.

(** X18.  Two signups for the same new address in flight at once create one
    account, not two.  Both lookups find nothing; the first [create]
    stores the row; the second is rejected by the unique address, and that
    request is answered 500 "Failed to create account" although the
    account now exists; the first request goes on to its mail. *)
Theorem concurrent_signups_create_one_account
        (env : ProcessEnv) (w : World) (e : string) (name1 name2 : option string) :
  valid_email e = true ->
  findUnique (ByEmail e) (table w) = None ->
  exists s r0,
    s = interleave env {| world := w; pool := [] |}
          [Arrive (PostSignup (Some e) name1); Arrive (PostSignup (Some e) name2);
           Resume 0; Resume 1; Resume 0; Resume 1; Resume 0]
    /\ table (world s)
       = table w ++
         [ {| user.id := fresh_id (table w); user.email := e; user.name := name1;
              user.verified := false;
              user.magicLinkToken := Some (next_token w);
              user.magicLinkExpires := Some (clock w + 15 * 60 * 1000)%Z;
              user.magicLinkUsed := false; user.createdAt := clock w |} ]
    /\ response_of s 0 = Some r0
    /\ (smtp_up w = true -> res.status r0 = 200)
    /\ response_of s 1
       = Some (json 500 false "Failed to create account. Please try again." None).
Proof.
  intros Hv Hf.
  destruct (signup_turns_new env e name1 w Hv) as (p0 & Hp0 & Hturn0).
  destruct (signup_turns_new env e name2 w Hv) as (q0 & Hq0 & Hturn1).
  destruct (Hturn0 w Hf) as (p1 & Hr1 & Hnext0).
  destruct (Hturn1 (drawn w 32) Hf) as (q1 & Hs1 & Hnext1).
  set (w2 := drawn (drawn w 32) 32) in *.
  pose proof (Hnext0 w2) as Hc0.
  destruct (create_absent
              {| new_email := e; new_name := name1;
                 new_magicLinkToken := Some (next_token w);
                 new_magicLinkExpires := Some (next_expiry w);
                 new_magicLinkUsed := false |} (clock w2) (table w2) Hf)
    as (row & Hcreate).
  rewrite Hcreate in Hc0. destruct Hc0 as (p2 & Hw3 & Hp2 & Hmail).
  set (w3 := with_table w2 (table w2 ++ [row])) in *.
  pose proof (Hnext1 w3) as Hc1.
  assert (Hrow : row
                 = {| user.id := fresh_id (table w); user.email := e;
                      user.name := name1; user.verified := false;
                      user.magicLinkToken := Some (next_token w);
                      user.magicLinkExpires := Some (clock w + 15 * 60 * 1000)%Z;
                      user.magicLinkUsed := false; user.createdAt := clock w |}).
  { unfold create in Hcreate.
    cbn [new_email new_name new_magicLinkToken new_magicLinkExpires
         new_magicLinkUsed] in Hcreate.
    change (table w2) with (table w) in Hcreate. rewrite Hf in Hcreate.
    inversion Hcreate. reflexivity. }
  assert (Htaken : create {| new_email := e; new_name := name2;
                             new_magicLinkToken := Some (next_token (drawn w 32));
                             new_magicLinkExpires := Some (next_expiry (drawn w 32));
                             new_magicLinkUsed := false |} (clock w3) (table w3)
                   = None).
  { unfold create. cbn [new_email table w3 with_table].
    rewrite findUnique_app. change (table w2) with (table w). rewrite Hf.
    unfold findUnique. cbn [find selects]. rewrite Hrow. cbn [user.email].
    now rewrite String.eqb_refl. }
  rewrite Htaken in Hc1. destruct Hc1 as [Hw4 Hq2].
  destruct (Hmail w3) as (reply & Hw5 & Hp3 & Hok & _).
  eexists _, reply. split; [reflexivity|].
  unfold interleave. cbn [fold_left].
  rewrite (turn_arrive env w w [] _ p0 Hp0). cbn [app].
  rewrite (turn_arrive env w w [p0] _ q0 Hq0). cbn [app].
  rewrite (turn_resume_first env _ _ _ _ _ _ Hr1).
  rewrite (turn_resume_second env _ _ _ _ _ _ Hs1).
  rewrite turn_resume_first_parts. fold w2. rewrite Hw3, Hp2.
  rewrite turn_resume_second_parts. rewrite Hw4, Hq2.
  rewrite turn_resume_first_parts. rewrite Hw5, Hp3.
  cbn [response_of nth_error pool world table w3 with_table].
  split; [now rewrite Hrow|]. split; [reflexivity|].
  split; [exact Hok | reflexivity].
Qed.

Lemma concurrent_signups_create_one_account_witness :
  valid_email "dave@example.com" = true /\
  findUnique (ByEmail "dave@example.com") (table Sample.world) = None /\
  exists s r0,
    s = interleave Sample.env {| world := Sample.world; pool := [] |}
          [Arrive (PostSignup (Some "dave@example.com") (Some "Dave"));
           Arrive (PostSignup (Some "dave@example.com") None);
           Resume 0; Resume 1; Resume 0; Resume 1; Resume 0]
    /\ table (world s)
       = table Sample.world ++
         [ {| user.id := fresh_id (table Sample.world);
              user.email := "dave@example.com"; user.name := Some "Dave";
              user.verified := false;
              user.magicLinkToken := Some (next_token Sample.world);
              user.magicLinkExpires :=
                Some (clock Sample.world + 15 * 60 * 1000)%Z;
              user.magicLinkUsed := false;
              user.createdAt := clock Sample.world |} ]
    /\ response_of s 0 = Some r0
    /\ (smtp_up Sample.world = true -> res.status r0 = 200)
    /\ response_of s 1
       = Some (json 500 false "Failed to create account. Please try again." None).
Proof.
  split; [reflexivity|]. split; [reflexivity|].
  exact (concurrent_signups_create_one_account Sample.env Sample.world
           "dave@example.com" (Some "Dave") None eq_refl eq_refl).
Defined.

(* ================================================================== *)
(** ** Tokens of different accounts *)
(* ================================================================== *)

Lemma stored_tokens_app (l1 l2 : Table) :
  stored_tokens (l1 ++ l2) = stored_tokens l1 ++ stored_tokens l2.
Proof. unfold stored_tokens. apply flat_map_app. Qed.

Lemma stored_tokens_row (u : User) (rest : Table) :
  stored_tokens (u :: rest)
  = match user.magicLinkToken u with Some t => [t] | None => [] end
    ++ stored_tokens rest.
Proof. reflexivity. Qed.

Lemma NoDup_app_drop (a b c : list string) :
  NoDup (a ++ b ++ c) -> NoDup (a ++ c).
Proof.
  induction b as [|x b IH]; [tauto|].
  intros H. apply IH. cbn [app] in H. now apply NoDup_remove_1 in H.
Qed.

Lemma Forall_app_drop (P : string -> Prop) (a b c : list string) :
  Forall P (a ++ b ++ c) -> Forall P (a ++ c).
Proof.
  rewrite !Forall_app. tauto.
Qed.

Lemma NoDup_insert (a c : list string) (x : string) :
  NoDup (a ++ c) -> ~ In x (a ++ c) -> NoDup (a ++ x :: c).
Proof.
  intros H Hx. apply (proj2 (NoDup_Add (Add_app x a c))). tauto.
Qed.

(** Clearing tokens of some rows keeps the stored tokens distinct and
    among the same blocks. *)
Lemma stored_tokens_cleared (P : string -> Prop) (f : User -> User) (tbl : Table) :
  (forall u, user.magicLinkToken (f u) = user.magicLinkToken u \/
             user.magicLinkToken (f u) = None) ->
  NoDup (stored_tokens tbl) -> Forall P (stored_tokens tbl) ->
  NoDup (stored_tokens (map f tbl)) /\ Forall P (stored_tokens (map f tbl)) /\
  incl (stored_tokens (map f tbl)) (stored_tokens tbl).
Proof.
  intros Hf. induction tbl as [|u tbl IH]; intros Hnd HP.
  - cbn. repeat split; [constructor | constructor | apply incl_refl].
  - cbn [map]. rewrite !stored_tokens_row in *.
    destruct (user.magicLinkToken u) as [t|] eqn:Eu.
    + cbn [app] in Hnd, HP. inversion Hnd as [|? ? Hnotin Hnd']; subst.
      inversion HP as [|? ? Ht HP']; subst.
      destruct (IH Hnd' HP') as (I1 & I2 & I3).
      destruct (Hf u) as [E|E]; rewrite E, ?Eu; cbn [app].
      * repeat split.
        -- constructor; [|exact I1]. intros Hin. apply Hnotin, I3, Hin.
        -- constructor; assumption.
        -- intros x [->|Hx]; [now left | right; now apply I3].
      * repeat split; [exact I1 | exact I2 |].
        intros x Hx. right. now apply I3.
    + cbn [app] in Hnd, HP. destruct (IH Hnd HP) as (I1 & I2 & I3).
      destruct (Hf u) as [E|E]; rewrite E, ?Eu; cbn [app]; repeat split; assumption.
Qed.

Lemma block_next (w : World) (n : nat) :
  rng_pos w = 32 * n -> next_token w = block w n.
Proof. intros H. unfold next_token, block, draw. now rewrite H. Qed.

Lemma blocks_drawn_more (w w' : World) (n n' : nat) :
  n <= n' -> rng w' = rng w -> rng_pos w' = 32 * n' -> table w' = table w ->
  blocks_drawn w n -> blocks_drawn w' n'.
Proof.
  intros Hle Hr Hp Ht (_ & Hnd & HP). unfold blocks_drawn. rewrite Ht.
  split; [exact Hp|]. split; [exact Hnd|].
  eapply Forall_impl; [|exact HP]. intros t (i & Hi & ->).
  exists i. split; [lia|]. unfold block. now rewrite Hr.
Qed.

Lemma fresh_block_not_stored (w : World) (n limit : nat) (l : list string) :
  first_blocks_differ w limit -> n < limit ->
  Forall (fun t => exists i, i < n /\ t = block w i) l ->
  ~ In (block w n) l.
Proof.
  intros Hs Hn HP Hin. rewrite Forall_forall in HP.
  destruct (HP _ Hin) as (i & Hi & E). apply Hs in E; lia.
Qed.

(** Every action keeps the stored tokens distinct, as long as the block it
    may draw differs from the ones drawn before. *)
Lemma act_blocks_drawn (env : ProcessEnv) (w : World) (a : Action)
      (n limit : nat) :
  first_blocks_differ w limit -> n < limit -> blocks_drawn w n ->
  exists n', n <= n' <= S n /\ blocks_drawn (act env w a) n'.
Proof.
  intros Hs Hlim Hb. pose proof Hb as (Hpos & Hnd & HP).
  destruct (act_effect env w a) as (Hr & Hp & Ht).
  assert (Hweak : forall l,
             Forall (fun t => exists i, i < n /\ t = block w i) l ->
             Forall (fun t => exists i, i < S n /\ t = block (act env w a) i) l).
  { intros l Hl. eapply Forall_impl; [|exact Hl]. intros t (i & Hi & ->).
    exists i. split; [lia|]. unfold block. now rewrite Hr. }
  assert (Hsame : forall l,
             Forall (fun t => exists i, i < n /\ t = block w i) l ->
             Forall (fun t => exists i, i < n /\ t = block (act env w a) i) l).
  { intros l Hl. eapply Forall_impl; [|exact Hl]. intros t (i & Hi & ->).
    exists i. split; [lia|]. unfold block. now rewrite Hr. }
  assert (Hkeep : forall tbl',
             table (act env w a) = tbl' ->
             NoDup (stored_tokens tbl') ->
             Forall (fun t => exists i, i < n /\ t = block w i) (stored_tokens tbl') ->
             exists n', n <= n' <= S n /\ blocks_drawn (act env w a) n').
  { intros tbl' E Hnd' HP'. destruct Hp as [Hp|Hp].
    - exists n. split; [lia|]. unfold blocks_drawn. rewrite E.
      split; [congruence|]. split; [exact Hnd' | now apply Hsame].
    - exists (S n). split; [lia|]. unfold blocks_drawn. rewrite E.
      split; [lia|]. split; [exact Hnd' | now apply Hweak]. }
  destruct Ht as [E | [(e & u' & ev & Hp32 & _ & Hpers) | [(i & u' & Hu) | E]]].
  - apply (Hkeep (table w)); assumption.
  - exists (S n). split; [lia|]. unfold blocks_drawn. split; [lia|].
    assert (Hfresh : forall l,
               Forall (fun t => exists i, i < n /\ t = block w i) l ->
               ~ In (next_token w) l).
    { intros l Hl. rewrite (block_next w n Hpos).
      now apply (fresh_block_not_stored w n limit). }
    assert (Hnew : exists i, i < S n /\ next_token w = block (act env w a) i).
    { exists n. split; [lia|]. rewrite (block_next w n Hpos). unfold block.
      now rewrite Hr. }
    destruct Hpers as [name u Hf Hu | name Hf Hc].
    + destruct (update_shape _ _ _ _ _ Hu) as (l1 & v & l2 & E1 & E2 & _).
      rewrite E2. rewrite E1 in Hnd, HP.
      rewrite stored_tokens_app, stored_tokens_row in *.
      cbn [apply_data issue_data user.magicLinkToken data_magicLinkToken set_field
           app].
      pose proof (NoDup_app_drop _ _ _ Hnd) as Hnd'.
      pose proof (Forall_app_drop _ _ _ _ HP) as HP'.
      split.
      * apply NoDup_insert; [exact Hnd' | now apply Hfresh].
      * apply Forall_app. apply Hweak in HP'. apply Forall_app in HP'.
        destruct HP' as [H1 H2]. split; [exact H1|].
        constructor; [exact Hnew | exact H2].
    + destruct (create_shape _ _ _ _ _ Hc) as (E1 & _ & _ & _ & _ & Htok & _).
      rewrite E1, stored_tokens_app. cbn [stored_tokens flat_map].
      rewrite Htok. cbn [new_magicLinkToken app]. split.
      * apply NoDup_insert; rewrite app_nil_r; [exact Hnd | now apply Hfresh].
      * apply Forall_app. split; [now apply Hweak|].
        constructor; [exact Hnew | constructor].
  - destruct (update_shape _ _ _ _ _ Hu) as (l1 & v & l2 & E1 & E2 & _).
    apply (Hkeep (table (act env w a))); [reflexivity | |];
      rewrite E2; rewrite E1 in Hnd, HP;
      rewrite stored_tokens_app, stored_tokens_row in *; cbn [app].
    + exact (NoDup_app_drop _ _ _ Hnd).
    + exact (Forall_app_drop _ _ _ _ HP).
  - destruct (stored_tokens_cleared
                (fun t => exists i, i < n /\ t = block w i)
                (fun u => if expired_token (clock w) u
                          then apply_data cleanup_data u else u)
                (table w)) as (I1 & I2 & _); auto.
    { intros u. destruct (expired_token (clock w) u); auto. }
    apply (Hkeep (table (act env w a))); [reflexivity | |];
      rewrite E, updateMany_table; assumption.
Qed.

Lemma act_blocks_differ (env : ProcessEnv) (w : World) (a : Action) (limit : nat) :
  first_blocks_differ w limit -> first_blocks_differ (act env w a) limit.
Proof.
  intros H i j. unfold block. destruct (act_effect env w a) as (Hr & _).
  rewrite Hr. apply H.
Qed.

Lemma history_blocks_drawn (env : ProcessEnv) (l : list Action) (w : World)
      (n limit : nat) :
  first_blocks_differ w limit -> n + List.length l <= limit -> blocks_drawn w n ->
  exists n', blocks_drawn (history env w l) n'.
Proof.
  revert w n. induction l as [|a l IH]; intros w n Hs Hlen Hb; [eauto|].
  cbn [List.length] in Hlen.
  destruct (act_blocks_drawn env w a n limit Hs) as (n' & Hn' & Hb');
    [lia | exact Hb |].
  apply (IH _ n' (act_blocks_differ env w a limit Hs)); [lia | exact Hb'].
Qed.

Lemma holders_stored (t : string) (tbl : Table) :
  NoDup (stored_tokens tbl) -> holders t tbl <= 1.
Proof.
  assert (Hpos : forall l, 0 < holders t l -> In t (stored_tokens l)).
  { induction l as [|u l IH]; unfold holders; cbn [List.filter List.length];
      [lia|].
    rewrite stored_tokens_row. destruct (stores t u) eqn:E.
    - apply stores_iff in E. rewrite E. intros _. now left.
    - intros H. apply in_or_app. right. now apply IH. }
  induction tbl as [|u tbl IH]; intros Hnd; [unfold holders; cbn; lia|].
  rewrite stored_tokens_row in Hnd. unfold holders in *.
  cbn [List.filter]. destruct (stores t u) eqn:E.
  - apply stores_iff in E. rewrite E in Hnd. cbn [app] in Hnd.
    inversion Hnd as [|? ? Hnotin Hnd']; subst. cbn [List.length].
    destruct (List.length (List.filter (stores t) tbl)) eqn:El; [lia|].
    exfalso. apply Hnotin, Hpos. unfold holders. lia.
  - apply IH. destruct (user.magicLinkToken u); [|exact Hnd].
    cbn [app] in Hnd. now inversion Hnd.
Qed.

(** X19.  No two accounts ever hold the same token, and no account holds a token
    twice, as long as the random source does not produce the same block of
    thirty-two bytes twice: starting from an empty table, after any
    requests and sweeps in which the blocks the source can have handed
    out are all different, every token is stored in at most one row. *)
Theorem tokens_are_never_shared
        (env : ProcessEnv) (w : World) (l : list Action) (t : string) :
  table w = [] -> rng_pos w = 0 -> first_blocks_differ w (List.length l) ->
  NoDup (stored_tokens (table (history env w l)))
  /\ holders t (table (history env w l)) <= 1.
Proof.
  intros Et Ep Hs.
  assert (Hb : blocks_drawn w 0).
  { unfold blocks_drawn. rewrite Et, Ep. cbn. repeat split; constructor. }
  destruct (history_blocks_drawn env l w 0 (List.length l) Hs (le_n _) Hb)
    as (n' & _ & Hnd & _).
  split; [exact Hnd | now apply holders_stored].
Qed.

Lemma tokens_are_never_shared_witness :
  table Sample.empty = [] /\
  rng_pos Sample.empty = 0 /\
  first_blocks_differ Sample.empty 2 /\
  NoDup (stored_tokens
           (table (history Sample.env Sample.empty
                     [Http (PostSignup (Some "a@example.com") None);
                      Http (PostSignup (Some "b@example.com") None)]))).
Proof.
  assert (Hs : first_blocks_differ Sample.empty 2).
  { intros i j Hi Hj. destruct i as [|[|i]]; destruct j as [|[|j]]; try lia;
      vm_compute; intros E; try reflexivity; discriminate E. }
  split; [reflexivity|]. split; [reflexivity|]. split; [exact Hs|].
  exact (proj1 (tokens_are_never_shared Sample.env Sample.empty
                  [Http (PostSignup (Some "a@example.com") None);
                   Http (PostSignup (Some "b@example.com") None)]
                  "x" eq_refl eq_refl Hs)).
Defined.

Lemma every_request_is_answered_witness :
  exists resp,
    outcome (run Sample.offline
               (handle Sample.env (PostLogin (Some "bob@example.com"))))
    = Returned resp /\
    In (res.status resp) status_codes /\
    (res.success resp = true <-> res.status resp = 200).
Proof.
  exact (proj1 (every_request_is_answered Sample.env Sample.offline
                  (PostLogin (Some "bob@example.com")))).
Defined.
